(** * SendPulse REST client: token lifecycle and request dispatch

    A shallow embedding of the two variants of the client:
    - the TypeScript class [SendPulseClient] (token with an expiry,
      [sendRequest], [getToken], one method per endpoint, [sendRequestRaw]);
    - the legacy CommonJS module [api/sendpulse.js] (module-level [TOKEN],
      [TOKEN_STORAGE], [sendRequest], [getToken], [init], wrappers).

    JavaScript values are modelled by [JSVal]; numbers are the integers
    together with [NaN] (millisecond clocks and lifetimes in seconds are
    integers far below 2^53, where double arithmetic is exact and numbers
    are printed digit by digit); strings are sequences
    of code units below 256, so none holds a surrogate; objects are plain
    objects, arrays and [Date]s.  An [async] function is a computation
    in the monad [M]: it threads the machine state (the client object, the
    clock, the trace of observable events) and either resolves with a value
    or rejects with a thrown error. *)

From Stdlib Require Import ZArith List String Ascii Bool Lia DecimalString.
From Stdlib Require DecimalPos.
Import ListNotations.

Set Warnings "-register-all".

Local Open Scope string_scope.
Local Open Scope Z_scope.

(** ** JavaScript values *)

Module JS.

(** Numbers: an integer or [NaN]. *)
Inductive JSNum : Type :=
  | Fin (z : Z)
  | NaN.

(** [Number.isSafeInteger]: the integers that a double holds exactly.  On
    integer operands [+], [-] and [*] give the exact result whenever that
    result is a safe integer; beyond, the code rounds to the nearest double.
    [js_add], [js_sub] and [js_mul] below are the exact operations: they are
    the code's on the operands whose result is safe, which a statement about
    the value of a result has to assume. *)
Definition safe_integer (z : Z) : Prop :=
  - 9007199254740991 <= z <= 9007199254740991.

Definition js_add (a b : JSNum) : JSNum :=
  match a, b with
  | Fin x, Fin y => Fin (x + y)
  | _, _ => NaN
  end.

Definition js_sub (a b : JSNum) : JSNum :=
  match a, b with
  | Fin x, Fin y => Fin (x - y)
  | _, _ => NaN
  end.

Definition js_mul (a b : JSNum) : JSNum :=
  match a, b with
  | Fin x, Fin y => Fin (x * y)
  | _, _ => NaN
  end.

(** [a >= b]: every comparison with [NaN] is false. *)
Definition js_ge (a b : JSNum) : bool :=
  match a, b with
  | Fin x, Fin y => x >=? y
  | _, _ => false
  end.

(** Values.  A string is a sequence of code units below 256.  An object is
    a plain object, the list of its own enumerable properties in enumeration
    order; an array has no holes.  A [Date] comes with its time value and
    with the two texts that the code can obtain from it: [String(d)], which
    depends on the time zone, and [d.toISOString()], which [JSON.stringify]
    writes when the time value is a number. *)
Inductive JSVal : Type :=
  | JUndefined
  | JNull
  | JBool (b : bool)
  | JNum (n : JSNum)
  | JStr (s : string)
  | JArr (elems : list JSVal)
  | JObj (props : list (string * JSVal))
  | JDate (time : JSNum) (text iso : string).

Definition JSObject : Type := list (string * JSVal).

(** Thrown values. *)
Inductive JSError : Type :=
  | Error (message : string)      (* [new Error(message)] *)
  | TypeError                     (* raised by the runtime *)
  | Rejected (reason : JSVal).    (* the transport's rejection *)

Inductive Outcome (A : Type) : Type :=
  | Ok (a : A)
  | Throw (e : JSError).
Arguments Ok {A} a.
Arguments Throw {A} e.

(** [v instanceof Date] *)
Definition instanceof_Date (v : JSVal) : bool :=
  match v with JDate _ _ _ => true | _ => false end.

(** [v === undefined] *)
Definition is_undefined (v : JSVal) : bool :=
  match v with JUndefined => true | _ => false end.

(** [Array.isArray(v)] *)
Definition Array_isArray (v : JSVal) : bool :=
  match v with JArr _ => true | _ => false end.

(** [typeof v === 'string'] *)
Definition typeof_string (v : JSVal) : bool :=
  match v with JStr _ => true | _ => false end.

(** [typeof v === 'object'] (true of [null], arrays and objects) *)
Definition typeof_object (v : JSVal) : bool :=
  match v with JNull | JArr _ | JObj _ | JDate _ _ _ => true | _ => false end.

(** ToBoolean *)
Definition truthy (v : JSVal) : bool :=
  match v with
  | JUndefined | JNull => false
  | JBool b => b
  | JNum (Fin z) => negb (z =? 0)
  | JNum NaN => false
  | JStr s => negb (s =? "")%string
  | JArr _ | JObj _ | JDate _ _ _ => true
  end.

(** Own property lookup. *)
Fixpoint obj_get (o : JSObject) (k : string) : JSVal :=
  match o with
  | [] => JUndefined
  | (k', v) :: o' => if (k' =? k)%string then v else obj_get o' k
  end.

Definition obj_has (o : JSObject) (k : string) : bool :=
  existsb (fun kv => (fst kv =? k)%string) o.

(** A key is an array index when it is the canonical decimal numeral of an
    integer below 2^32 - 1. *)
Fixpoint digits_value (s : string) (acc : N) : option N :=
  match s with
  | EmptyString => Some acc
  | String c s' =>
      let n := N_of_ascii c in
      if ((48 <=? n) && (n <=? 57))%N
      then digits_value s' (acc * 10 + (n - 48))%N
      else None
  end.

Definition array_index (k : string) : option N :=
  match k with
  | EmptyString => None
  | String c s' =>
      if ((N_of_ascii c =? 48)%N && negb (s' =? "")%string)%bool then None
      else match digits_value k 0%N with
           | Some n => if (n <? 4294967295)%N then Some n else None
           | None => None
           end
  end.

Fixpoint obj_replace (o : JSObject) (k : string) (v : JSVal) : JSObject :=
  match o with
  | [] => []
  | (k', v') :: o' =>
      if (k' =? k)%string then (k, v) :: o' else (k', v') :: obj_replace o' k v
  end.

Fixpoint obj_insert_index (o : JSObject) (i : N) (k : string) (v : JSVal)
  : JSObject :=
  match o with
  | [] => [(k, v)]
  | (k', v') :: o' =>
      match array_index k' with
      | Some j =>
          if (j <? i)%N then (k', v') :: obj_insert_index o' i k v
          else (k, v) :: o
      | None => (k, v) :: o
      end
  end.

(** [o[k] = v]: an existing property keeps its place; a new one is
    enumerated after the existing ones, except that array indices come
    first, in ascending order. *)
Definition obj_set (o : JSObject) (k : string) (v : JSVal) : JSObject :=
  if obj_has o k then obj_replace o k v
  else match array_index k with
       | Some i => obj_insert_index o i k v
       | None => (o ++ [(k, v)])%list
       end.

(** [Object.assign(target, source)] on own enumerable properties. *)
Definition Object_assign (target source : JSObject) : JSObject :=
  fold_left (fun acc kv => obj_set acc (fst kv) (snd kv)) source target.

(** [v.name] for a property name other than [length] that no prototype
    defines: a [TypeError] on [undefined] and [null], the own property of
    an object, [undefined] elsewhere. *)
Definition get_prop (v : JSVal) (name : string) : Outcome JSVal :=
  match v with
  | JUndefined | JNull => Throw TypeError
  | JObj o => Ok (obj_get o name)
  | _ => Ok JUndefined
  end.

(** [v.length] *)
Definition js_length (v : JSVal) : Outcome JSVal :=
  match v with
  | JUndefined | JNull => Throw TypeError
  | JStr s => Ok (JNum (Fin (Z.of_nat (String.length s))))
  | JArr l => Ok (JNum (Fin (Z.of_nat (List.length l))))
  | JObj o => Ok (obj_get o "length")
  | JBool _ | JNum _ | JDate _ _ _ => Ok JUndefined
  end.

(** Decimal numeral of an integer: [String(z)] for a safe integer.  Beyond,
    the code writes the shortest digits that identify the double, followed
    by zeros and, from 10^21 on, by an exponent. *)
Definition string_of_Z (z : Z) : string :=
  NilZero.string_of_int (Z.to_int z).

Definition Number_toString (n : JSNum) : string :=
  match n with
  | Fin z => string_of_Z z
  | NaN => "NaN"
  end.

(** ToString, as applied by [+] with a string operand.  An array is joined
    with commas, [null] and [undefined] elements giving the empty string. *)
Fixpoint ToString (v : JSVal) : string :=
  match v with
  | JUndefined => "undefined"
  | JNull => "null"
  | JBool true => "true"
  | JBool false => "false"
  | JNum n => Number_toString n
  | JStr s => s
  | JArr l =>
      String.concat ","
        (map (fun x => match x with
                       | JUndefined | JNull => ""
                       | _ => ToString x
                       end) l)
  | JObj _ => "[object Object]"
  | JDate _ text _ => text
  end.

(** ** JSON.stringify *)

Definition dquote : string := String (ascii_of_nat 34) EmptyString.
Definition backslash : string := String (ascii_of_nat 92) EmptyString.

Definition hex_digit (n : nat) : ascii :=
  if Nat.ltb n 10 then ascii_of_nat (48 + n) else ascii_of_nat (87 + n).

(** One code unit inside a JSON string literal. *)
Definition json_escape_char (c : ascii) : string :=
  let n := nat_of_ascii c in
  if Nat.eqb n 8 then backslash ++ "b"
  else if Nat.eqb n 9 then backslash ++ "t"
  else if Nat.eqb n 10 then backslash ++ "n"
  else if Nat.eqb n 12 then backslash ++ "f"
  else if Nat.eqb n 13 then backslash ++ "r"
  else if Nat.eqb n 34 then backslash ++ dquote
  else if Nat.eqb n 92 then backslash ++ backslash
  else if Nat.ltb n 32 then
    backslash ++ "u00" ++
      String (hex_digit (Nat.div n 16))
        (String (hex_digit (Nat.modulo n 16)) EmptyString)
  else String c EmptyString.

Fixpoint json_escape (s : string) : string :=
  match s with
  | EmptyString => EmptyString
  | String c s' => json_escape_char c ++ json_escape s'
  end.

Definition json_quote (s : string) : string :=
  dquote ++ json_escape s ++ dquote.

(** The serialisation of a value, [None] where [JSON.stringify] yields
    [undefined].  Inside an array [undefined] is written [null]; inside an
    object a property whose value is [undefined] is left out. *)
Fixpoint json_text (v : JSVal) : option string :=
  match v with
  | JUndefined => None
  | JNull => Some "null"
  | JBool true => Some "true"
  | JBool false => Some "false"
  | JNum (Fin z) => Some (string_of_Z z)
  | JNum NaN => Some "null"
  | JStr s => Some (json_quote s)
  | JArr l =>
      Some ("[" ++
            String.concat ","
              (map (fun x => match json_text x with
                             | Some t => t
                             | None => "null"
                             end) l)
            ++ "]")
  | JObj o =>
      Some ("{" ++
            String.concat ","
              ((fix members (o : list (string * JSVal)) : list string :=
                  match o with
                  | [] => []
                  | (k, x) :: o' =>
                      match json_text x with
                      | Some t => (json_quote k ++ ":" ++ t) :: members o'
                      | None => members o'
                      end
                  end) o)
            ++ "}")
  | JDate (Fin _) _ iso => Some (json_quote iso)
  | JDate NaN _ _ => Some "null"
  end.

(** [JSON.stringify(v)] as a value. *)
Definition JSON_stringify (v : JSVal) : JSVal :=
  match json_text v with
  | Some t => JStr t
  | None => JUndefined
  end.

(** *** Reading back an array of strings

    The decoder used to state the round trip of an encoded list: the
    fragment of [JSON.parse] that reads an array of string literals written
    without white space. *)

Definition hex_value (c : ascii) : option nat :=
  let n := nat_of_ascii c in
  if Nat.leb 48 n && Nat.leb n 57 then Some (n - 48)%nat
  else if Nat.leb 97 n && Nat.leb n 102 then Some (n - 87)%nat
  else if Nat.leb 65 n && Nat.leb n 70 then Some (n - 55)%nat
  else None.

(** The code unit denoted by a one-letter escape. *)
Definition escape_code (e : ascii) : option ascii :=
  let n := nat_of_ascii e in
  if Nat.eqb n 98 then Some (ascii_of_nat 8)
  else if Nat.eqb n 116 then Some (ascii_of_nat 9)
  else if Nat.eqb n 110 then Some (ascii_of_nat 10)
  else if Nat.eqb n 102 then Some (ascii_of_nat 12)
  else if Nat.eqb n 114 then Some (ascii_of_nat 13)
  else if Nat.eqb n 34 then Some e
  else if Nat.eqb n 92 then Some e
  else if Nat.eqb n 47 then Some e
  else None.

Definition prepend (c : ascii) (r : option (string * string))
  : option (string * string) :=
  match r with
  | Some (d, rest) => Some (String c d, rest)
  | None => None
  end.

(** The body of a string literal up to its closing quote, decoded, with the
    text after the quote. *)
Fixpoint json_unescape (s : string) : option (string * string) :=
  match s with
  | EmptyString => None
  | String c s1 =>
      if Nat.eqb (nat_of_ascii c) 34 then Some (EmptyString, s1)
      else if Nat.eqb (nat_of_ascii c) 92 then
        match s1 with
        | EmptyString => None
        | String e s2 =>
            if Nat.eqb (nat_of_ascii e) 117 then
              match s2 with
              | String h1 (String h2 (String h3 (String h4 s3))) =>
                  match hex_value h1, hex_value h2, hex_value h3, hex_value h4 with
                  | Some a, Some b, Some c', Some d =>
                      let n := (((a * 16 + b) * 16 + c') * 16 + d)%nat in
                      if Nat.ltb n 256
                      then prepend (ascii_of_nat n) (json_unescape s3)
                      else None
                  | _, _, _, _ => None
                  end
              | _ => None
              end
            else
              match escape_code e with
              | Some ch => prepend ch (json_unescape s2)
              | None => None
              end
        end
      else prepend c (json_unescape s1)
  end.

(** The string literals of an array after its opening bracket; [fuel]
    bounds their number. *)
Fixpoint json_parse_items (fuel : nat) (s : string) : option (list string) :=
  match fuel with
  | O => None
  | S fuel' =>
      match s with
      | EmptyString => None
      | String q s1 =>
          if Nat.eqb (nat_of_ascii q) 34 then
            match json_unescape s1 with
            | Some (item, String d rest) =>
                if Nat.eqb (nat_of_ascii d) 44
                then option_map (cons item) (json_parse_items fuel' rest)
                else if Nat.eqb (nat_of_ascii d) 93
                then match rest with
                     | EmptyString => Some [item]
                     | String _ _ => None
                     end
                else None
            | _ => None
            end
          else None
      end
  end.

Definition JSON_parse_strings (v : JSVal) : option (list string) :=
  match v with
  | JStr (String b s1) =>
      if Nat.eqb (nat_of_ascii b) 91 then
        match s1 with
        | String c EmptyString =>
            if Nat.eqb (nat_of_ascii c) 93 then Some []
            else json_parse_items (String.length s1) s1
        | _ => json_parse_items (String.length s1) s1
        end
      else None
  | _ => None
  end.

(** Number of bytes of the UTF-8 encoding of a string. *)
Fixpoint utf8_length (s : string) : Z :=
  match s with
  | EmptyString => 0
  | String c s' =>
      (if Nat.ltb (nat_of_ascii c) 128 then 1 else 2) + utf8_length s'
  end.

(** [Buffer.byteLength(v)]: a [TypeError] unless [v] is a string. *)
Definition Buffer_byteLength (v : JSVal) : Outcome JSVal :=
  match v with
  | JStr s => Ok (JNum (Fin (utf8_length s)))
  | _ => Throw TypeError
  end.

(** [list.includes(v)] on a list of string literals (SameValueZero). *)
Definition includes (l : list string) (v : JSVal) : bool :=
  match v with
  | JStr s => existsb (String.eqb s) l
  | _ => false
  end.

(** The own enumerable string keys of a value with their values, in
    [for ... in] order. *)
Fixpoint indexed {A : Type} (i : nat) (l : list A) : list (string * A) :=
  match l with
  | [] => []
  | x :: l' => (string_of_Z (Z.of_nat i), x) :: indexed (S i) l'
  end.

Fixpoint code_units (s : string) : list JSVal :=
  match s with
  | EmptyString => []
  | String c s' => JStr (String c EmptyString) :: code_units s'
  end.

Definition own_properties (v : JSVal) : JSObject :=
  match v with
  | JObj o => o
  | JArr l => indexed 0 l
  | JStr s => indexed 0 (code_units s)
  | _ => []
  end.

End JS.

Import JS.

(** ** [util.mts] *)

(** [serializeArray(params, prefix)]: nested parameters flattened into
    bracket-suffixed keys. *)
Fixpoint serializeArray (params : JSVal) (prefix : option string) : JSObject :=
  let name_of (key : string) : string :=
    match prefix with
    | Some p => p ++ "[" ++ key ++ "]"
    | None => key
    end in
  match params with
  | JObj o =>
      (fix loop (o : list (string * JSVal)) (result : JSObject) : JSObject :=
         match o with
         | [] => result
         | (key, value) :: o' =>
             loop o'
               (if typeof_object value && negb (instanceof_Date value)
                then Object_assign result
                       (serializeArray value (Some (name_of key)))
                else obj_set result (name_of key) value)
         end) o []
  | JArr l =>
      (fix loop (i : nat) (l : list JSVal) (result : JSObject) : JSObject :=
         match l with
         | [] => result
         | value :: l' =>
             let key := string_of_Z (Z.of_nat i) in
             loop (S i) l'
               (if typeof_object value && negb (instanceof_Date value)
                then Object_assign result
                       (serializeArray value (Some (name_of key)))
                else obj_set result (name_of key) value)
         end) 0%nat l []
  | JStr s =>
      fold_left (fun result kv => obj_set result (name_of (fst kv)) (snd kv))
        (indexed 0 (code_units s)) []
  | _ => []
  end.

(** ** The runtime: clock, transport and library functions

    What the client asks of its environment.  The transport sees the events
    so far, the clock and the request; it answers with the time the exchange
    takes and with the decoded body of a 2xx response or with a rejection. *)

Record Request : Type := mkRequest {
  method : JSVal;
  url : string;
  data : JSVal;
  headers : JSObject
}.

Inductive Event : Type :=
  | EvGetToken                (* [getToken] was entered *)
  | EvRequest (r : Request).  (* [axios.request] was called *)

Inductive AxiosResult : Type :=
  | Resolved (body : JSVal)
  | Failed (reason : JSVal).

Class Runtime : Type := {
  (** [axios.request]: latency and result *)
  axios_request : list Event -> Z -> Request -> Z * AxiosResult;
  (** [new URL(path, base).href], [None] for an invalid URL *)
  URL_href : string -> string -> option string;
  (** ToNumber on a string *)
  StringToNumber : string -> JSNum;
  (** [Buffer.from(data, 'utf-8').toString('base64')], [None] where
      [Buffer.from] refuses its argument *)
  Buffer_base64 : JSVal -> option string;
  (** hexadecimal MD5 digest *)
  md5_hex : string -> string
}.

(** ToNumber, as applied by [-]. *)
Definition ToNumber {RT : Runtime} (v : JSVal) : JSNum :=
  match v with
  | JUndefined => NaN
  | JNull => Fin 0
  | JBool true => Fin 1
  | JBool false => Fin 0
  | JNum n => n
  | JStr s => StringToNumber s
  | JArr _ | JObj _ => StringToNumber (ToString v)
  | JDate time _ _ => time
  end.

(** The events that are HTTP requests, and the token fetches. *)
Definition is_request (e : Event) : bool :=
  match e with EvRequest _ => true | EvGetToken => false end.

Definition is_fetch (e : Event) : bool :=
  match e with EvGetToken => true | EvRequest _ => false end.

Definition requests (tr : list Event) : nat := List.length (filter is_request tr).
Definition fetches (tr : list Event) : nat := List.length (filter is_fetch tr).

(** ** Asynchronous computations

    An [async] function over a state [S]: from a state to its outcome
    (resolved or rejected) and the state it leaves.  [await] is [bind]. *)

Definition Async (S A : Type) : Type := S -> Outcome A * S.

Definition ret {S A} (a : A) : Async S A := fun m => (Ok a, m).

Definition throw {S A} (e : JSError) : Async S A := fun m => (Throw e, m).

Definition bind {S A B} (c : Async S A) (k : A -> Async S B) : Async S B :=
  fun m =>
    match c m with
    | (Ok a, m') => k a m'
    | (Throw e, m') => (Throw e, m')
    end.

(** A synchronous expression that may throw. *)
Definition lift {S A} (o : Outcome A) : Async S A := fun m => (o, m).

Declare Scope js_scope.
Delimit Scope js_scope with js.
Notation "x <- c ;; k" := (bind c (fun x => k))
  (at level 61, c at next level, right associativity) : js_scope.
Notation "c ;;; k" := (bind c (fun _ => k))
  (at level 61, right associativity) : js_scope.
Local Open Scope js_scope.

(** ** The TypeScript client *)

Module Client.

(** [interface TokenData] *)
Record TokenData : Type := mkTokenData {
  access_token : JSVal;
  expires_at : JSNum
}.

(** The fields of [class SendPulseClient]; [token] is the only mutable one. *)
Record SendPulseClient : Type := mkClient {
  clientId : JSVal;
  clientSecret : JSVal;
  apiUrl : string;
  token : option TokenData
}.

(** [new SendPulseClient(clientId, clientSecret = '', apiUrl = ...)] *)
Definition new_SendPulseClient (client_id client_secret : JSVal)
    (api_url : option string) : SendPulseClient :=
  {| clientId := client_id;
     clientSecret := if is_undefined client_secret then JStr "" else client_secret;
     apiUrl := match api_url with
               | Some u => u
               | None => "https://api.sendpulse.com"
               end;
     token := None |}.

(** The machine: the client object, the clock read by [Date.now()] (in
    milliseconds) and the events so far, oldest first. *)
Record Machine : Type := mkMachine {
  this : SendPulseClient;
  clock : Z;
  trace : list Event
}.

(** An [async] method of the client. *)
Definition M : Type -> Type := Async Machine.

Definition Date_now : M Z := fun m => (Ok (clock m), m).

Definition this_token : M (option TokenData) := fun m => (Ok (token (this m)), m).

(** [this.token = t] *)
Definition set_token (t : TokenData) : M unit :=
  fun m =>
    (Ok tt,
     {| this := {| clientId := clientId (this m);
                   clientSecret := clientSecret (this m);
                   apiUrl := apiUrl (this m);
                   token := Some t |};
        clock := clock m;
        trace := trace m |}).

Definition emit (e : Event) : M unit :=
  fun m =>
    (Ok tt, {| this := this m; clock := clock m; trace := (trace m ++ [e])%list |}).

(** Time passing between two calls. *)
Definition elapse (d : Z) (m : Machine) : Machine :=
  {| this := this m; clock := clock m + d; trace := trace m |}.

Section WithRuntime.

Context {RT : Runtime}.

(** [await axios.request(r)], then [.data] of the response. *)
Definition axios (r : Request) : M JSVal :=
  fun m =>
    let (latency, result) := axios_request (trace m) (clock m) r in
    let m' := {| this := this m;
                 clock := clock m + latency;
                 trace := (trace m ++ [EvRequest r])%list |} in
    match result with
    | Resolved body => (Ok body, m')
    | Failed reason => (Throw (Rejected reason), m')
    end.

(** [new URL(path, this.apiUrl).href] *)
Definition new_URL_href (path : string) : M string :=
  fun m =>
    match URL_href path (apiUrl (this m)) with
    | Some href => (Ok href, m)
    | None => (Throw TypeError, m)
    end.

(** [!this.token || Date.now() >= this.token.expires_at] *)
Definition token_stale (tok : option TokenData) (now : Z) : bool :=
  match tok with
  | None => true
  | Some t => js_ge (Fin now) (expires_at t)
  end.

(** The part of [sendRequest] before [axios.request] is called: the headers,
    the token check with the refresh it may trigger, the request object.
    [refresh] stands for [this.getToken()]. *)
Definition prepareRequest (refresh : M unit)
    (path : string) (method : JSVal) (data : JSVal) (useToken : bool)
  : M Request :=
  let method := if is_undefined method then JStr "POST" else method in
  let headers : JSObject := [] in
  let headers := obj_set headers "Content-Type" (JStr "application/json") in
  len <- lift (Buffer_byteLength (JSON_stringify data)) ;;
  let headers := obj_set headers "Content-Length" len in
  headers <-
    (if useToken then
       tok <- this_token ;;
       now <- Date_now ;;
       (if token_stale tok now then refresh else ret tt) ;;;
       tok <- this_token ;;
       match tok with
       | Some t =>
           ret (obj_set headers "Authorization"
                  (JStr ("Bearer " ++ ToString (access_token t))))
       | None => throw TypeError
       end
     else ret headers) ;;
  href <- new_URL_href path ;;
  ret {| method := method; url := href; data := data; headers := headers |}.

(** [sendRequest(path, method = 'POST', data, useToken)], with [refresh] for
    [this.getToken()]. *)
Definition sendRequest_with (refresh : M unit)
    (path : string) (method : JSVal) (data : JSVal) (useToken : bool)
  : M JSVal :=
  r <- prepareRequest refresh path method data useToken ;;
  axios r.

(** The body of the token request. *)
Definition credentials (c : SendPulseClient) : JSVal :=
  JObj [ ("grant_type", JStr "client_credentials");
         ("client_id", clientId c);
         ("client_secret", clientSecret c) ].

(** [getToken()].  Its own request is sent with [useToken = false], where
    [sendRequest] does not reach [getToken]: the mutual recursion of the
    source stops there. *)
Definition getToken : M unit :=
  emit EvGetToken ;;;
  (fun m =>
     (data <- sendRequest_with (ret tt) "oauth/access_token" (JStr "POST")
                (credentials (this m)) false ;;
      access_token <- lift (get_prop data "access_token") ;;
      now <- Date_now ;;
      expires_in <- lift (get_prop data "expires_in") ;;
      set_token
        {| access_token := access_token;
           (* the expiration time of the token, minus 60 seconds *)
           expires_at :=
             js_add (Fin now)
               (js_mul (js_sub (ToNumber expires_in) (Fin 60)) (Fin 1000)) |}) m).

Definition sendRequest : string -> JSVal -> JSVal -> bool -> M JSVal :=
  sendRequest_with getToken.

(** [base64(data)] of [util.mts], on Node. *)
Definition base64 (data : JSVal) : M string :=
  fun m =>
    match Buffer_base64 data with
    | Some s => (Ok s, m)
    | None => (Throw TypeError, m)
    end.

(** [v.length] used as a condition. *)
Definition has_length (v : JSVal) : M bool :=
  len <- lift (js_length v) ;;
  ret (truthy len).

(** [Array.isArray(v) && v.length]; the length of an array never throws. *)
Definition array_nonempty (v : JSVal) : bool :=
  Array_isArray v &&
  match js_length v with
  | Ok len => truthy len
  | Throw _ => false
  end.

(** *** One method per endpoint *)

Definition listAddressBooks : M JSVal :=
  sendRequest "addressbooks" (JStr "GET") (JObj []) true.

Definition createAddressBook (book_name : JSVal) : M JSVal :=
  if is_undefined book_name then throw (Error "Empty book name")
  else
    let data := JObj [("name", book_name)] in
    sendRequest "addressbooks" (JStr "POST") data true.

Definition editAddressBook (id new_name : JSVal) : M JSVal :=
  if is_undefined id || is_undefined new_name
  then throw (Error "Empty book id or new name")
  else
    let data := JObj [("id", id); ("name", new_name)] in
    sendRequest "addressbooks" (JStr "PUT") data true.

Definition removeAddressBook (id : JSVal) : M JSVal :=
  if is_undefined id then throw (Error "Empty book id")
  else
    let data := JObj [("id", id)] in
    sendRequest "addressbooks" (JStr "DELETE") data true.

Definition listEmailTemplates : M JSVal :=
  sendRequest "template" (JStr "GET") (JObj []) true.

Definition getEmailTemplate (id : JSVal) : M JSVal :=
  if is_undefined id then throw (Error "Empty template id")
  else
    let data := JObj [("id", id)] in
    sendRequest "template" (JStr "GET") data true.

Definition getBookInfo (id : JSVal) : M JSVal :=
  if is_undefined id then throw (Error "Empty book id")
  else
    let data := JObj [("id", id)] in
    sendRequest "addressbooks/info" (JStr "GET") data true.

Definition getAddressBookEmails (id : JSVal) : M JSVal :=
  if is_undefined id then throw (Error "Empty book id")
  else
    let data := JObj [("id", id)] in
    sendRequest "addressbooks/emails" (JStr "GET") data true.

Definition addAddressBookEmails (book_id emails : JSVal) : M JSVal :=
  if is_undefined book_id || is_undefined emails
  then throw (Error "Empty book id or emails")
  else
    let data : JSObject := [("addressBookId", book_id)] in
    nonempty <- has_length emails ;;
    let data := if nonempty
                then obj_set data "emails" (JSON_stringify emails) else data in
    sendRequest "addressbooks/emails" (JStr "POST") (JObj data) true.

Definition removeAddressBookEmails (book_id emails : JSVal) : M JSVal :=
  if is_undefined book_id || is_undefined emails
  then throw (Error "Empty book id or emails")
  else
    let data : JSObject := [("addressBookId", book_id)] in
    nonempty <- has_length emails ;;
    let data := if nonempty
                then obj_set data "emails" (JSON_stringify emails) else data in
    sendRequest "addressbooks/emails" (JStr "DELETE") (JObj data) true.

Definition getEmailInfo (email : JSVal) : M JSVal :=
  if is_undefined email then throw (Error "Empty email")
  else
    let data := JObj [("email", email)] in
    e <- base64 email ;;
    sendRequest ("emails/" ++ e) (JStr "GET") data true.

Definition updateEmailVariables (book_id email variables : JSVal) : M JSVal :=
  if is_undefined book_id || is_undefined email || is_undefined variables
  then throw (Error "Empty book id or email or variables")
  else
    let data := JObj [ ("addressBookId", book_id); ("email", email);
                       ("variables", variables) ] in
    sendRequest "addressbooks/emails/variable" (JStr "PUT") data true.

Definition campaignCost
    (name subject from from_name body book_id emails : JSVal) : M JSVal :=
  if is_undefined name || is_undefined subject
  then throw (Error "Empty campaign name or subject")
  else if is_undefined from || is_undefined from_name
  then throw (Error "Empty sender credentials")
  else if is_undefined book_id && is_undefined emails
  then throw (Error "Empty book id and emails array")
  else
    let data : JSObject :=
      [ ("name", name); ("subject", subject); ("from", from);
        ("fromName", from_name); ("body", body) ] in
    let data := if negb (is_undefined book_id)
                then obj_set data "addressBookId" book_id else data in
    nonempty <- (if negb (is_undefined emails) then has_length emails
                 else ret false) ;;
    let data := if nonempty
                then obj_set data "emails" (JSON_stringify emails) else data in
    sendRequest "campaigns" (JStr "GET") (JObj data) true.

Definition listCampaigns (limit offset : JSVal) : M JSVal :=
  let data : JSObject := [] in
  let data := if negb (is_undefined limit)
              then obj_set data "limit" limit else data in
  let data := if negb (is_undefined offset)
              then obj_set data "offset" offset else data in
  sendRequest "campaigns" (JStr "GET") (JObj data) true.

Definition getCampaignInfo (id : JSVal) : M JSVal :=
  if is_undefined id then throw (Error "Empty campaign id")
  else
    let data := JObj [("id", id)] in
    sendRequest ("campaigns/" ++ ToString id) (JStr "GET") data true.

Definition campaignStatByCountries (id : JSVal) : M JSVal :=
  if is_undefined id then throw (Error "Empty campaign id")
  else
    let data := JObj [("id", id)] in
    sendRequest ("campaigns/" ++ ToString id ++ "/countries") (JStr "GET") data true.

Definition campaignStatByReferrals (id : JSVal) : M JSVal :=
  if is_undefined id then throw (Error "Empty campaign id")
  else
    let data := JObj [("id", id)] in
    sendRequest ("campaigns/" ++ ToString id ++ "/referrals") (JStr "GET") data true.

Definition createCampaign
    (name subject from from_name body book_id emails : JSVal) : M JSVal :=
  if is_undefined name || is_undefined subject
  then throw (Error "Empty campaign name or subject")
  else if is_undefined from || is_undefined from_name
  then throw (Error "Empty sender credentials")
  else if is_undefined book_id && is_undefined emails
  then throw (Error "Empty book id and emails array")
  else
    let data : JSObject :=
      [ ("name", name); ("subject", subject); ("from", from);
        ("fromName", from_name); ("body", body) ] in
    let data := if negb (is_undefined book_id)
                then obj_set data "addressBookId" book_id else data in
    nonempty <- (if negb (is_undefined emails) then has_length emails
                 else ret false) ;;
    let data := if nonempty
                then obj_set data "emails" (JSON_stringify emails) else data in
    sendRequest "campaigns" (JStr "POST") (JObj data) true.

Definition cancelCampaign (id : JSVal) : M JSVal :=
  if is_undefined id then throw (Error "Empty campaign id")
  else
    let data := JObj [("id", id)] in
    sendRequest "campaigns" (JStr "DELETE") data true.

Definition listSenders : M JSVal :=
  sendRequest "senders" (JStr "GET") (JObj []) true.

Definition addSender (email name : JSVal) : M JSVal :=
  if is_undefined email || is_undefined name
  then throw (Error "Empty sender email or name")
  else
    let data := JObj [("email", email); ("name", name)] in
    sendRequest "senders" (JStr "POST") data true.

Definition removeSender (email : JSVal) : M JSVal :=
  if is_undefined email then throw (Error "Empty sender email")
  else
    let data := JObj [("email", email)] in
    sendRequest "senders" (JStr "DELETE") data true.

Definition activateSender (email code : JSVal) : M JSVal :=
  if is_undefined email || is_undefined code
  then throw (Error "Empty sender email or activation code")
  else
    let data := JObj [("email", email); ("code", code)] in
    sendRequest "senders/activate" (JStr "POST") data true.

Definition getSenderActivationMail (email : JSVal) : M JSVal :=
  if is_undefined email then throw (Error "Empty sender email")
  else
    let data := JObj [("email", email)] in
    sendRequest "senders/activationMail" (JStr "POST") data true.

Definition getEmailGlobalInfo (email : JSVal) : M JSVal :=
  if is_undefined email then throw (Error "Empty email")
  else
    let data := JObj [("email", email)] in
    e <- base64 email ;;
    sendRequest ("emails/" ++ e) (JStr "GET") data true.

Definition removeEmailFromAllBooks (email : JSVal) : M JSVal :=
  if is_undefined email then throw (Error "Empty email")
  else
    let data := JObj [("email", email)] in
    e <- base64 email ;;
    sendRequest ("emails/" ++ e) (JStr "DELETE") data true.

Definition emailStatByCampaigns (email : JSVal) : M JSVal :=
  if is_undefined email then throw (Error "Empty email")
  else
    let data := JObj [("email", email)] in
    e <- base64 email ;;
    sendRequest ("emails/" ++ e ++ "/campaigns") (JStr "GET") data true.

Definition getBlackList : M JSVal :=
  sendRequest "blacklist" (JStr "GET") (JObj []) true.

Definition addToBlackList (emails comment : JSVal) : M JSVal :=
  if is_undefined emails then throw (Error "Empty email")
  else
    let data : JSObject := [] in
    let data :=
      if array_nonempty emails then obj_set data "emails" (JSON_stringify emails)
      else if typeof_string emails
           then obj_set data "emails" (JSON_stringify (JArr [emails]))
           else data in
    let data := if negb (is_undefined comment)
                then obj_set data "comment" comment else data in
    sendRequest "blacklist" (JStr "POST") (JObj data) true.

Definition removeFromBlackList (emails : JSVal) : M JSVal :=
  if is_undefined emails then throw (Error "Empty email")
  else
    let data : JSObject := [] in
    let data :=
      if array_nonempty emails then obj_set data "emails" (JSON_stringify emails)
      else if typeof_string emails
           then obj_set data "emails" (JSON_stringify (JArr [emails]))
           else data in
    sendRequest "blacklist" (JStr "DELETE") (JObj data) true.

Definition getBalance (currency : JSVal) : M JSVal :=
  let data : JSObject := [] in
  let data := if negb (is_undefined currency)
              then obj_set data "currency" currency else data in
  sendRequest "balance" (JStr "GET") (JObj data) true.

Definition smtpListEmails (limit offset from to : JSVal) : M JSVal :=
  let data : JSObject := [] in
  let data := if negb (is_undefined limit)
              then obj_set data "limit" limit else data in
  let data := if negb (is_undefined offset)
              then obj_set data "offset" offset else data in
  let data := if negb (is_undefined from)
              then obj_set data "from" from else data in
  let data := if negb (is_undefined to)
              then obj_set data "to" to else data in
  sendRequest "smtp/emails" (JStr "GET") (JObj data) true.

Definition smtpGetEmailInfoById (id : JSVal) : M JSVal :=
  if is_undefined id then throw (Error "Empty email id")
  else
    let data := JObj [("id", id)] in
    sendRequest ("smtp/emails/" ++ ToString id) (JStr "GET") data true.

Definition smtpUnsubscribeEmails (emails : JSVal) : M JSVal :=
  if is_undefined emails then throw (Error "Empty email")
  else
    let data : JSObject := [] in
    let data :=
      if array_nonempty emails then obj_set data "emails" (JSON_stringify emails)
      else if typeof_string emails
           then obj_set data "emails" (JSON_stringify (JArr [emails]))
           else data in
    sendRequest "smtp/unsubscribe" (JStr "POST") (JObj data) true.

Definition smtpRemoveFromUnsubscribe (emails : JSVal) : M JSVal :=
  if is_undefined emails then throw (Error "Empty email")
  else
    let data : JSObject := [] in
    let data :=
      if array_nonempty emails then obj_set data "emails" (JSON_stringify emails)
      else if typeof_string emails
           then obj_set data "emails" (JSON_stringify (JArr [emails]))
           else data in
    sendRequest "smtp/unsubscribe" (JStr "DELETE") (JObj data) true.

Definition smtpListIP : M JSVal :=
  sendRequest "smtp/ips" (JStr "GET") (JObj []) true.

Definition smtpListAllowedDomains : M JSVal :=
  sendRequest "smtp/domains" (JStr "GET") (JObj []) true.

Definition smtpAddDomain (email : JSVal) : M JSVal :=
  if is_undefined email then throw (Error "Empty domain name")
  else
    let data := JObj [("email", email)] in
    sendRequest "smtp/domains" (JStr "POST") data true.

Definition smtpVerifyDomain (email : JSVal) : M JSVal :=
  if is_undefined email then throw (Error "Empty domain name")
  else
    let data := JObj [("email", email)] in
    sendRequest "smtp/domains/verify" (JStr "POST") data true.

(** The loop body of [smtpSendMail], for one own property of [email]. *)
Definition smtpSendMail_step (data : JSObject) (kv : string * JSVal) : JSObject :=
  let (key, _data) := kv in
  let _name :=
    if (key =? "html")%string || (key =? "text")%string then key ++ "_body"
    else if (key =? "subject")%string then "subj"
    else key in
  if typeof_object _data && negb (match _data with JNull => true | _ => false end)
  then Object_assign data (serializeArray _data (Some _name))
  else obj_set data _name _data.

Definition smtpSendMail (email : JSVal) : M JSVal :=
  if is_undefined email then throw (Error "Empty email data")
  else
    let data : JSObject := [] in
    let data := fold_left smtpSendMail_step (own_properties email) data in
    sendRequest "smtp/emails" (JStr "POST") (JObj data) true.

Definition smsGetBlackList : M JSVal :=
  sendRequest "sms/black_list/list" (JStr "GET") (JObj []) true.

Definition smsAddPhones (phones comment : JSVal) : M JSVal :=
  if is_undefined phones then throw (Error "Empty phones")
  else
    let data : JSObject := [] in
    let data :=
      if array_nonempty phones then obj_set data "phones" (JSON_stringify phones)
      else if typeof_string phones
           then obj_set data "phones" (JSON_stringify (JArr [phones]))
           else data in
    let data := if negb (is_undefined comment)
                then obj_set data "comment" comment else data in
    sendRequest "sms/black_list/add" (JStr "POST") (JObj data) true.

Definition smsAddPhonesWithVariables (phones : JSVal) : M JSVal :=
  if is_undefined phones then throw (Error "Empty phones")
  else
    let data : JSObject := [] in
    nonempty <- has_length phones ;;
    let data := if nonempty
                then obj_set data "phones" (JSON_stringify phones) else data in
    sendRequest "sms/black_list/add" (JStr "POST") (JObj data) true.

Definition smsRemovePhones (phones : JSVal) : M JSVal :=
  if is_undefined phones then throw (Error "Empty phones")
  else
    let data : JSObject := [] in
    let data :=
      if array_nonempty phones then obj_set data "phones" (JSON_stringify phones)
      else if typeof_string phones
           then obj_set data "phones" (JSON_stringify (JArr [phones]))
           else data in
    sendRequest "sms/black_list/remove" (JStr "POST") (JObj data) true.

Definition smsGetPhoneInfo (phone : JSVal) : M JSVal :=
  if is_undefined phone then throw (Error "Empty phone")
  else
    let data := JObj [("phone", phone)] in
    sendRequest "sms/black_list/info" (JStr "GET") data true.

Definition smsUpdatePhonesVariables (phones : JSVal) : M JSVal :=
  if is_undefined phones then throw (Error "Empty phones")
  else
    let data : JSObject := [] in
    nonempty <- has_length phones ;;
    let data := if nonempty
                then obj_set data "phones" (JSON_stringify phones) else data in
    sendRequest "sms/black_list/edit" (JStr "POST") (JObj data) true.

Definition smsGetPhonesInfoFromBlacklist (phones : JSVal) : M JSVal :=
  if is_undefined phones then throw (Error "Empty phones")
  else
    let data : JSObject := [] in
    let data :=
      if array_nonempty phones then obj_set data "phones" (JSON_stringify phones)
      else if typeof_string phones
           then obj_set data "phones" (JSON_stringify (JArr [phones]))
           else data in
    sendRequest "sms/black_list/check" (JStr "POST") (JObj data) true.

Definition smsAddPhonesToBlacklist (phones : JSVal) : M JSVal :=
  if is_undefined phones then throw (Error "Empty phones")
  else
    let data : JSObject := [] in
    let data :=
      if array_nonempty phones then obj_set data "phones" (JSON_stringify phones)
      else if typeof_string phones
           then obj_set data "phones" (JSON_stringify (JArr [phones]))
           else data in
    sendRequest "sms/black_list/add" (JStr "POST") (JObj data) true.

Definition smsDeletePhonesFromBlacklist (phones : JSVal) : M JSVal :=
  if is_undefined phones then throw (Error "Empty phones")
  else
    let data : JSObject := [] in
    let data :=
      if array_nonempty phones then obj_set data "phones" (JSON_stringify phones)
      else if typeof_string phones
           then obj_set data "phones" (JSON_stringify (JArr [phones]))
           else data in
    sendRequest "sms/black_list/delete" (JStr "POST") (JObj data) true.

Definition smsAddCampaign
    (sender_name body addressbook_id phones : JSVal) : M JSVal :=
  if is_undefined sender_name then throw (Error "Empty sender name")
  else if is_undefined body then throw (Error "Empty sms text")
  else
    empty <- (if is_undefined addressbook_id then ret true
              else if is_undefined phones then ret true
              else nonempty <- has_length phones ;; ret (negb nonempty)) ;;
    if (empty : bool) then throw (Error "Empty book id or phones")
    else
      let data : JSObject :=
        [ ("sender", sender_name); ("body", body);
          ("addressBookId", addressbook_id) ] in
      nonempty <- has_length phones ;;
      let data := if nonempty
                  then obj_set data "phones" (JSON_stringify phones)
                  else data in
      sendRequest "sms/campaigns" (JStr "POST") (JObj data) true.

Definition smsSend
    (sender_name body addressbook_id phones : JSVal) : M JSVal :=
  if is_undefined sender_name then throw (Error "Empty sender name")
  else if is_undefined body then throw (Error "Empty sms text")
  else if is_undefined addressbook_id && is_undefined phones
  then throw (Error "Empty book id and phones array")
  else
    let data : JSObject := [("sender", sender_name); ("body", body)] in
    let data := if negb (is_undefined addressbook_id)
                then obj_set data "addressBookId" addressbook_id else data in
    nonempty <- (if negb (is_undefined phones) then has_length phones
                 else ret false) ;;
    let data := if nonempty
                then obj_set data "phones" (JSON_stringify phones) else data in
    sendRequest "sms/send" (JStr "POST") (JObj data) true.

Definition smsGetListCampaigns (limit offset : JSVal) : M JSVal :=
  let data : JSObject := [] in
  let data := if negb (is_undefined limit)
              then obj_set data "limit" limit else data in
  let data := if negb (is_undefined offset)
              then obj_set data "offset" offset else data in
  sendRequest "sms/campaigns" (JStr "GET") (JObj data) true.

Definition smsGetCampaignInfo (campaign_id : JSVal) : M JSVal :=
  if is_undefined campaign_id then throw (Error "Empty sms campaign id")
  else
    let data := JObj [("id", campaign_id)] in
    sendRequest "sms/campaigns/info" (JStr "GET") data true.

Definition smsCancelCampaign (campaign_id : JSVal) : M JSVal :=
  if is_undefined campaign_id then throw (Error "Empty sms campaign id")
  else
    let data := JObj [("id", campaign_id)] in
    sendRequest "sms/campaigns/cancel" (JStr "POST") data true.

Definition smsGetCampaignCost
    (sender_name body addressbook_id phones : JSVal) : M JSVal :=
  if is_undefined sender_name then throw (Error "Empty sender name")
  else if is_undefined body then throw (Error "Empty sms text")
  else
    empty <- (if is_undefined addressbook_id then ret true
              else if is_undefined phones then ret true
              else nonempty <- has_length phones ;; ret (negb nonempty)) ;;
    if (empty : bool) then throw (Error "Empty book id or phones")
    else
      let data : JSObject :=
        [ ("sender", sender_name); ("body", body);
          ("addressBookId", addressbook_id) ] in
      nonempty <- has_length phones ;;
      let data := if nonempty
                  then obj_set data "phones" (JSON_stringify phones)
                  else data in
      sendRequest "sms/campaigns/cost" (JStr "GET") (JObj data) true.

Definition smsDeleteCampaign (campaign_id : JSVal) : M JSVal :=
  if is_undefined campaign_id then throw (Error "Empty sms campaign id")
  else
    let data := JObj [("id", campaign_id)] in
    sendRequest "sms/campaigns" (JStr "DELETE") data true.

(** The verbs of the raw request. *)
Definition raw_methods : list string := ["POST"; "GET"; "DELETE"; "PUT"; "PATCH"].

(** [sendRequestRaw(path, method, data = {})] *)
Definition sendRequestRaw (path : string) (method data : JSVal) : M JSVal :=
  let data := if is_undefined data then JObj [] else data in
  if negb (includes raw_methods method)
  then throw (Error ("Unknown method: " ++ ToString method))
  else sendRequest path method data true.

(** *** The endpoint methods as a table

    [call e args] is the method [e] applied to the argument list [args]; an
    argument that is not passed is [undefined]. *)

Inductive Endpoint : Type :=
  | ep_listAddressBooks
  | ep_createAddressBook
  | ep_editAddressBook
  | ep_removeAddressBook
  | ep_listEmailTemplates
  | ep_getEmailTemplate
  | ep_getBookInfo
  | ep_getAddressBookEmails
  | ep_addAddressBookEmails
  | ep_removeAddressBookEmails
  | ep_getEmailInfo
  | ep_updateEmailVariables
  | ep_campaignCost
  | ep_listCampaigns
  | ep_getCampaignInfo
  | ep_campaignStatByCountries
  | ep_campaignStatByReferrals
  | ep_createCampaign
  | ep_cancelCampaign
  | ep_listSenders
  | ep_addSender
  | ep_removeSender
  | ep_activateSender
  | ep_getSenderActivationMail
  | ep_getEmailGlobalInfo
  | ep_removeEmailFromAllBooks
  | ep_emailStatByCampaigns
  | ep_getBlackList
  | ep_addToBlackList
  | ep_removeFromBlackList
  | ep_getBalance
  | ep_smtpListEmails
  | ep_smtpGetEmailInfoById
  | ep_smtpUnsubscribeEmails
  | ep_smtpRemoveFromUnsubscribe
  | ep_smtpListIP
  | ep_smtpListAllowedDomains
  | ep_smtpAddDomain
  | ep_smtpVerifyDomain
  | ep_smtpSendMail
  | ep_smsGetBlackList
  | ep_smsAddPhones
  | ep_smsAddPhonesWithVariables
  | ep_smsRemovePhones
  | ep_smsGetPhoneInfo
  | ep_smsUpdatePhonesVariables
  | ep_smsGetPhonesInfoFromBlacklist
  | ep_smsAddPhonesToBlacklist
  | ep_smsDeletePhonesFromBlacklist
  | ep_smsAddCampaign
  | ep_smsSend
  | ep_smsGetListCampaigns
  | ep_smsGetCampaignInfo
  | ep_smsCancelCampaign
  | ep_smsGetCampaignCost
  | ep_smsDeleteCampaign.

Definition arg (args : list JSVal) (i : nat) : JSVal := nth i args JUndefined.

Definition call (e : Endpoint) (args : list JSVal) : M JSVal :=
  match e with
  | ep_listAddressBooks => listAddressBooks
  | ep_createAddressBook => createAddressBook (arg args 0)
  | ep_editAddressBook => editAddressBook (arg args 0) (arg args 1)
  | ep_removeAddressBook => removeAddressBook (arg args 0)
  | ep_listEmailTemplates => listEmailTemplates
  | ep_getEmailTemplate => getEmailTemplate (arg args 0)
  | ep_getBookInfo => getBookInfo (arg args 0)
  | ep_getAddressBookEmails => getAddressBookEmails (arg args 0)
  | ep_addAddressBookEmails => addAddressBookEmails (arg args 0) (arg args 1)
  | ep_removeAddressBookEmails => removeAddressBookEmails (arg args 0) (arg args 1)
  | ep_getEmailInfo => getEmailInfo (arg args 0)
  | ep_updateEmailVariables => updateEmailVariables (arg args 0) (arg args 1) (arg args 2)
  | ep_campaignCost => campaignCost (arg args 0) (arg args 1) (arg args 2) (arg args 3) (arg args 4) (arg args 5) (arg args 6)
  | ep_listCampaigns => listCampaigns (arg args 0) (arg args 1)
  | ep_getCampaignInfo => getCampaignInfo (arg args 0)
  | ep_campaignStatByCountries => campaignStatByCountries (arg args 0)
  | ep_campaignStatByReferrals => campaignStatByReferrals (arg args 0)
  | ep_createCampaign => createCampaign (arg args 0) (arg args 1) (arg args 2) (arg args 3) (arg args 4) (arg args 5) (arg args 6)
  | ep_cancelCampaign => cancelCampaign (arg args 0)
  | ep_listSenders => listSenders
  | ep_addSender => addSender (arg args 0) (arg args 1)
  | ep_removeSender => removeSender (arg args 0)
  | ep_activateSender => activateSender (arg args 0) (arg args 1)
  | ep_getSenderActivationMail => getSenderActivationMail (arg args 0)
  | ep_getEmailGlobalInfo => getEmailGlobalInfo (arg args 0)
  | ep_removeEmailFromAllBooks => removeEmailFromAllBooks (arg args 0)
  | ep_emailStatByCampaigns => emailStatByCampaigns (arg args 0)
  | ep_getBlackList => getBlackList
  | ep_addToBlackList => addToBlackList (arg args 0) (arg args 1)
  | ep_removeFromBlackList => removeFromBlackList (arg args 0)
  | ep_getBalance => getBalance (arg args 0)
  | ep_smtpListEmails => smtpListEmails (arg args 0) (arg args 1) (arg args 2) (arg args 3)
  | ep_smtpGetEmailInfoById => smtpGetEmailInfoById (arg args 0)
  | ep_smtpUnsubscribeEmails => smtpUnsubscribeEmails (arg args 0)
  | ep_smtpRemoveFromUnsubscribe => smtpRemoveFromUnsubscribe (arg args 0)
  | ep_smtpListIP => smtpListIP
  | ep_smtpListAllowedDomains => smtpListAllowedDomains
  | ep_smtpAddDomain => smtpAddDomain (arg args 0)
  | ep_smtpVerifyDomain => smtpVerifyDomain (arg args 0)
  | ep_smtpSendMail => smtpSendMail (arg args 0)
  | ep_smsGetBlackList => smsGetBlackList
  | ep_smsAddPhones => smsAddPhones (arg args 0) (arg args 1)
  | ep_smsAddPhonesWithVariables => smsAddPhonesWithVariables (arg args 0)
  | ep_smsRemovePhones => smsRemovePhones (arg args 0)
  | ep_smsGetPhoneInfo => smsGetPhoneInfo (arg args 0)
  | ep_smsUpdatePhonesVariables => smsUpdatePhonesVariables (arg args 0)
  | ep_smsGetPhonesInfoFromBlacklist => smsGetPhonesInfoFromBlacklist (arg args 0)
  | ep_smsAddPhonesToBlacklist => smsAddPhonesToBlacklist (arg args 0)
  | ep_smsDeletePhonesFromBlacklist => smsDeletePhonesFromBlacklist (arg args 0)
  | ep_smsAddCampaign => smsAddCampaign (arg args 0) (arg args 1) (arg args 2) (arg args 3)
  | ep_smsSend => smsSend (arg args 0) (arg args 1) (arg args 2) (arg args 3)
  | ep_smsGetListCampaigns => smsGetListCampaigns (arg args 0) (arg args 1)
  | ep_smsGetCampaignInfo => smsGetCampaignInfo (arg args 0)
  | ep_smsCancelCampaign => smsCancelCampaign (arg args 0)
  | ep_smsGetCampaignCost => smsGetCampaignCost (arg args 0) (arg args 1) (arg args 2) (arg args 3)
  | ep_smsDeleteCampaign => smsDeleteCampaign (arg args 0)
  end.

End WithRuntime.

(** The argument positions that a method compares with [undefined] on their
    own ([x === undefined], alone or in a disjunction) before anything else
    can fail. *)
Definition guarded_args (e : Endpoint) : list nat :=
  (match e with
  | ep_createAddressBook => [0]
  | ep_editAddressBook => [0; 1]
  | ep_removeAddressBook => [0]
  | ep_getEmailTemplate => [0]
  | ep_getBookInfo => [0]
  | ep_getAddressBookEmails => [0]
  | ep_addAddressBookEmails => [0; 1]
  | ep_removeAddressBookEmails => [0; 1]
  | ep_getEmailInfo => [0]
  | ep_updateEmailVariables => [0; 1; 2]
  | ep_campaignCost => [0; 1; 2; 3]
  | ep_getCampaignInfo => [0]
  | ep_campaignStatByCountries => [0]
  | ep_campaignStatByReferrals => [0]
  | ep_createCampaign => [0; 1; 2; 3]
  | ep_cancelCampaign => [0]
  | ep_addSender => [0; 1]
  | ep_removeSender => [0]
  | ep_activateSender => [0; 1]
  | ep_getSenderActivationMail => [0]
  | ep_getEmailGlobalInfo => [0]
  | ep_removeEmailFromAllBooks => [0]
  | ep_emailStatByCampaigns => [0]
  | ep_addToBlackList => [0]
  | ep_removeFromBlackList => [0]
  | ep_smtpGetEmailInfoById => [0]
  | ep_smtpUnsubscribeEmails => [0]
  | ep_smtpRemoveFromUnsubscribe => [0]
  | ep_smtpAddDomain => [0]
  | ep_smtpVerifyDomain => [0]
  | ep_smtpSendMail => [0]
  | ep_smsAddPhones => [0]
  | ep_smsAddPhonesWithVariables => [0]
  | ep_smsRemovePhones => [0]
  | ep_smsGetPhoneInfo => [0]
  | ep_smsUpdatePhonesVariables => [0]
  | ep_smsGetPhonesInfoFromBlacklist => [0]
  | ep_smsAddPhonesToBlacklist => [0]
  | ep_smsDeletePhonesFromBlacklist => [0]
  | ep_smsAddCampaign => [0; 1; 2; 3]
  | ep_smsSend => [0; 1]
  | ep_smsGetCampaignInfo => [0]
  | ep_smsCancelCampaign => [0]
  | ep_smsGetCampaignCost => [0; 1; 2; 3]
  | ep_smsDeleteCampaign => [0]
  | _ => []
  end)%nat.


(** The argument positions that a method passes to [JSON.stringify], with
    the payload field that receives the text. *)
Definition json_list_arg (e : Endpoint) : option (nat * string) :=
  match e with
  | ep_addAddressBookEmails => Some (1%nat, "emails")
  | ep_removeAddressBookEmails => Some (1%nat, "emails")
  | ep_campaignCost => Some (6%nat, "emails")
  | ep_createCampaign => Some (6%nat, "emails")
  | ep_addToBlackList => Some (0%nat, "emails")
  | ep_removeFromBlackList => Some (0%nat, "emails")
  | ep_smtpUnsubscribeEmails => Some (0%nat, "emails")
  | ep_smtpRemoveFromUnsubscribe => Some (0%nat, "emails")
  | ep_smsAddPhones => Some (0%nat, "phones")
  | ep_smsAddPhonesWithVariables => Some (0%nat, "phones")
  | ep_smsRemovePhones => Some (0%nat, "phones")
  | ep_smsUpdatePhonesVariables => Some (0%nat, "phones")
  | ep_smsGetPhonesInfoFromBlacklist => Some (0%nat, "phones")
  | ep_smsAddPhonesToBlacklist => Some (0%nat, "phones")
  | ep_smsDeletePhonesFromBlacklist => Some (0%nat, "phones")
  | ep_smsAddCampaign => Some (3%nat, "phones")
  | ep_smsSend => Some (3%nat, "phones")
  | ep_smsGetCampaignCost => Some (3%nat, "phones")
  | _ => None
  end.

End Client.

(** ** The legacy module [api/sendpulse.js] *)

Module Legacy.

Definition API_URL : string := "https://api.sendpulse.com".

(** The module-level variables, with the clock and the events so far. *)
Record Machine : Type := mkMachine {
  API_USER_ID : JSVal;
  API_SECRET : JSVal;
  TOKEN : JSVal;
  TOKEN_STORAGE : JSObject;
  clock : Z;
  trace : list Event
}.

(** The module as loaded. *)
Definition loaded (now : Z) : Machine :=
  {| API_USER_ID := JStr ""; API_SECRET := JStr ""; TOKEN := JStr "";
     TOKEN_STORAGE := []; clock := now; trace := [] |}.

Definition M : Type -> Type := Async Machine.

Definition emit (e : Event) : M unit :=
  fun m =>
    (Ok tt,
     {| API_USER_ID := API_USER_ID m; API_SECRET := API_SECRET m;
        TOKEN := TOKEN m; TOKEN_STORAGE := TOKEN_STORAGE m;
        clock := clock m; trace := (trace m ++ [e])%list |}).

Definition read {A} (f : Machine -> A) : M A := fun m => (Ok (f m), m).

Definition set_credentials (client_id secret : JSVal) : M unit :=
  fun m =>
    (Ok tt,
     {| API_USER_ID := client_id; API_SECRET := secret;
        TOKEN := TOKEN m; TOKEN_STORAGE := TOKEN_STORAGE m;
        clock := clock m; trace := trace m |}).

Definition set_TOKEN (t : JSVal) : M unit :=
  fun m =>
    (Ok tt,
     {| API_USER_ID := API_USER_ID m; API_SECRET := API_SECRET m;
        TOKEN := t; TOKEN_STORAGE := TOKEN_STORAGE m;
        clock := clock m; trace := trace m |}).

Definition set_TOKEN_STORAGE (k : string) (t : JSVal) : M unit :=
  fun m =>
    (Ok tt,
     {| API_USER_ID := API_USER_ID m; API_SECRET := API_SECRET m;
        TOKEN := TOKEN m; TOKEN_STORAGE := obj_set (TOKEN_STORAGE m) k t;
        clock := clock m; trace := trace m |}).

Section WithRuntime.

Context {RT : Runtime}.

(** [md5(API_USER_ID + '::' + API_SECRET)] *)
Definition hashName (m : Machine) : string :=
  md5_hex (ToString (API_USER_ID m) ++ "::" ++ ToString (API_SECRET m)).

Definition axios (r : Request) : M JSVal :=
  fun m =>
    let (latency, result) := axios_request (trace m) (clock m) r in
    let m' := {| API_USER_ID := API_USER_ID m; API_SECRET := API_SECRET m;
                 TOKEN := TOKEN m; TOKEN_STORAGE := TOKEN_STORAGE m;
                 clock := clock m + latency;
                 trace := (trace m ++ [EvRequest r])%list |} in
    match result with
    | Resolved body => (Ok body, m')
    | Failed reason => (Throw (Rejected reason), m')
    end.

(** [v.length] used as a condition. *)
Definition has_length (v : JSVal) : M bool :=
  len <- lift (js_length v) ;;
  ret (truthy len).

(** [sendRequest(path, method, data, useToken)] *)
Definition sendRequest (path : string) (method : JSVal) (data : JSVal)
    (useToken : bool) : M JSVal :=
  let headers : JSObject := [] in
  let headers := obj_set headers "Content-Type" (JStr "application/json") in
  len <- lift (Buffer_byteLength (JSON_stringify data)) ;;
  let headers := obj_set headers "Content-Length" len in
  token <- read TOKEN ;;
  present <- (if useToken then has_length token else ret false) ;;
  let headers :=
    if present
    then obj_set headers "Authorization" (JStr ("Bearer " ++ ToString token))
    else headers in
  let method := if is_undefined method then JStr "POST" else method in
  axios {| method := method; url := API_URL ++ "/" ++ path;
           data := data; headers := headers |}.

(** [getToken()] *)
Definition getToken : M unit :=
  emit EvGetToken ;;;
  id <- read API_USER_ID ;;
  secret <- read API_SECRET ;;
  data <- sendRequest "oauth/access_token" (JStr "POST")
            (JObj [ ("grant_type", JStr "client_credentials");
                    ("client_id", id);
                    ("client_secret", secret) ]) false ;;
  access_token <- lift (get_prop data "access_token") ;;
  set_TOKEN access_token ;;;
  h <- read hashName ;;
  set_TOKEN_STORAGE h access_token.

(** [init(client_id, secret)] *)
Definition init (client_id secret : JSVal) : M unit :=
  set_credentials client_id secret ;;;
  h <- read hashName ;;
  storage <- read TOKEN_STORAGE ;;
  (if truthy (obj_get storage h) then set_TOKEN (obj_get storage h)
   else ret tt) ;;;
  token <- read TOKEN ;;
  present <- has_length token ;;
  if (present : bool) then ret tt else getToken.

(** [(x === undefined) || (!x.length)] *)
Definition undefined_or_empty (x : JSVal) : M bool :=
  if is_undefined x then ret true
  else nonempty <- has_length x ;; ret (negb nonempty).

Definition createAddressBook (bookName : JSVal) : M JSVal :=
  empty <- undefined_or_empty bookName ;;
  if (empty : bool) then throw (Error "Empty book name")
  else
    let data := JObj [("bookName", bookName)] in
    sendRequest "addressbooks" (JStr "POST") data true.

Definition editAddressBook (id bookName : JSVal) : M JSVal :=
  empty <- (if is_undefined id then ret true else undefined_or_empty bookName) ;;
  if (empty : bool) then throw (Error "Empty book name or book id")
  else
    let data := JObj [("name", bookName)] in
    sendRequest ("addressbooks/" ++ ToString id) (JStr "PUT") data true.

Definition removeAddressBook (id : JSVal) : M JSVal :=
  if is_undefined id then throw (Error "Empty book id")
  else sendRequest ("addressbooks/" ++ ToString id) (JStr "DELETE") (JObj []) true.

(** [currency.toUpperCase()]: only the empty string is both falsy and a
    string; every other falsy value has no such method. *)
Definition toUpperCase_of_falsy (currency : JSVal) : Outcome string :=
  match currency with
  | JStr s => Ok s
  | _ => Throw TypeError
  end.

(** [getBalance(currency)] *)
Definition getBalance (currency : JSVal) : M JSVal :=
  path <- (if truthy currency then ret "balance"
           else upper <- lift (toUpperCase_of_falsy currency) ;;
                ret ("balance/" ++ upper)) ;;
  sendRequest path (JStr "GET") (JObj []) true.

Definition smsAddPhones (addressbook_id phones : JSVal) : M JSVal :=
  empty <- (if is_undefined addressbook_id then ret true
            else undefined_or_empty phones) ;;
  if (empty : bool) then throw (Error "Empty phones or book id")
  else
    let data := JObj [ ("addressBookId", addressbook_id);
                       ("phones", JSON_stringify phones) ] in
    sendRequest "sms/numbers" (JStr "POST") data true.

Definition smsRemovePhones (addressbook_id phones : JSVal) : M JSVal :=
  empty <- (if is_undefined addressbook_id then ret true
            else undefined_or_empty phones) ;;
  if (empty : bool) then throw (Error "Empty phones or book id")
  else
    let data := JObj [ ("addressBookId", addressbook_id);
                       ("phones", JSON_stringify phones) ] in
    sendRequest "sms/numbers" (JStr "DELETE") data true.

Definition smsGetPhonesInfoFromBlacklist (phones : JSVal) : M JSVal :=
  empty <- undefined_or_empty phones ;;
  if (empty : bool) then throw (Error "Empty phones")
  else
    let data := JObj [("phones", JSON_stringify phones)] in
    sendRequest "sms/black_list/by_numbers" (JStr "GET") data true.

Definition smsAddPhonesToBlacklist (phones comment : JSVal) : M JSVal :=
  empty <- undefined_or_empty phones ;;
  if (empty : bool) then throw (Error "Empty phones")
  else
    let data := JObj [ ("phones", JSON_stringify phones);
                       ("description", comment) ] in
    sendRequest "sms/black_list" (JStr "POST") data true.

Definition smsDeletePhonesFromBlacklist (phones : JSVal) : M JSVal :=
  empty <- undefined_or_empty phones ;;
  if (empty : bool) then throw (Error "Empty phones")
  else
    let data := JObj [("phones", JSON_stringify phones)] in
    sendRequest "sms/black_list" (JStr "DELETE") data true.

Definition smsSend (sender_name phones body date transliterate route : JSVal)
  : M JSVal :=
  if is_undefined sender_name then throw (Error "Empty sender name")
  else
    empty <- undefined_or_empty phones ;;
    if (empty : bool) then throw (Error "Empty phones")
    else if is_undefined body then throw (Error "Empty sms text")
    else
      let data := JObj [ ("sender", sender_name);
                         ("phones", JSON_stringify phones);
                         ("body", body); ("date", date);
                         ("transliterate", transliterate);
                         ("route", route) ] in
      sendRequest "sms/send" (JStr "POST") data true.

Definition smsGetCampaignCost
    (sender_name body addressbook_id phones : JSVal) : M JSVal :=
  if is_undefined sender_name then throw (Error "Empty sender name")
  else if is_undefined body then throw (Error "Empty sms text")
  else
    empty <- (if is_undefined addressbook_id then ret true
              else undefined_or_empty phones) ;;
    if (empty : bool) then throw (Error "Empty book id or phones")
    else
      let data : JSObject :=
        [ ("sender", sender_name); ("body", body);
          ("addressBookId", addressbook_id) ] in
      nonempty <- has_length phones ;;
      let data := if nonempty
                  then obj_set data "phones" (JSON_stringify phones)
                  else data in
      sendRequest "sms/campaigns/cost" (JStr "GET") (JObj data) true.

(** [Object.keys(v).length] *)
Definition Object_keys_length (v : JSVal) : Outcome JSVal :=
  match v with
  | JUndefined | JNull => Throw TypeError
  | _ => Ok (JNum (Fin (Z.of_nat (List.length (own_properties v)))))
  end.

(** [(x === undefined) || (!Object.keys(x).length)] *)
Definition undefined_or_no_keys (x : JSVal) : M bool :=
  if is_undefined x then ret true
  else n <- lift (Object_keys_length x) ;; ret (negb (truthy n)).

Definition smsAddPhonesWithVariables (addressbook_id phones : JSVal) : M JSVal :=
  empty <- (if is_undefined addressbook_id then ret true
            else undefined_or_no_keys phones) ;;
  if (empty : bool) then throw (Error "Empty phones or book id")
  else
    let data := JObj [ ("addressBookId", addressbook_id);
                       ("phones", JSON_stringify phones) ] in
    sendRequest "sms/numbers/variables" (JStr "POST") data true.

Definition smsUpdatePhonesVariables (addressbook_id phones variables : JSVal)
  : M JSVal :=
  if is_undefined addressbook_id then throw (Error "Empty book id")
  else
    empty <- undefined_or_empty phones ;;
    if (empty : bool) then throw (Error "Empty phones")
    else
      empty <- undefined_or_no_keys variables ;;
      if (empty : bool) then throw (Error "Empty variables")
      else
        let data := JObj [ ("addressBookId", addressbook_id);
                           ("phones", JSON_stringify phones);
                           ("variables", JSON_stringify variables) ] in
        sendRequest "sms/numbers" (JStr "PUT") data true.

(** The wrappers that pass a list of phones to [JSON.stringify], as a
    table: the method, the position of the list among its arguments. *)
Inductive PhonesEndpoint : Type :=
  | ep_smsAddPhones
  | ep_smsAddPhonesWithVariables
  | ep_smsRemovePhones
  | ep_smsUpdatePhonesVariables
  | ep_smsGetPhonesInfoFromBlacklist
  | ep_smsAddPhonesToBlacklist
  | ep_smsDeletePhonesFromBlacklist
  | ep_smsSend
  | ep_smsGetCampaignCost.

Definition arg (args : list JSVal) (i : nat) : JSVal := nth i args JUndefined.

Definition call (e : PhonesEndpoint) (args : list JSVal) : M JSVal :=
  match e with
  | ep_smsAddPhones => smsAddPhones (arg args 0) (arg args 1)
  | ep_smsAddPhonesWithVariables =>
      smsAddPhonesWithVariables (arg args 0) (arg args 1)
  | ep_smsRemovePhones => smsRemovePhones (arg args 0) (arg args 1)
  | ep_smsUpdatePhonesVariables =>
      smsUpdatePhonesVariables (arg args 0) (arg args 1) (arg args 2)
  | ep_smsGetPhonesInfoFromBlacklist =>
      smsGetPhonesInfoFromBlacklist (arg args 0)
  | ep_smsAddPhonesToBlacklist =>
      smsAddPhonesToBlacklist (arg args 0) (arg args 1)
  | ep_smsDeletePhonesFromBlacklist =>
      smsDeletePhonesFromBlacklist (arg args 0)
  | ep_smsSend =>
      smsSend (arg args 0) (arg args 1) (arg args 2) (arg args 3)
        (arg args 4) (arg args 5)
  | ep_smsGetCampaignCost =>
      smsGetCampaignCost (arg args 0) (arg args 1) (arg args 2) (arg args 3)
  end.

Definition raw_methods : list string := ["POST"; "GET"; "DELETE"; "PUT"; "PATCH"].

(** [sendRawRequest(path, method, data = {})], exported as [sendRequest] *)
Definition sendRawRequest (path : string) (method data : JSVal) : M JSVal :=
  let data := if is_undefined data then JObj [] else data in
  if negb (includes raw_methods method)
  then throw (Error ("Unknown method: " ++ ToString method))
  else sendRequest path method data true.

End WithRuntime.

Definition phones_arg (e : PhonesEndpoint) : nat :=
  match e with
  | ep_smsAddPhones | ep_smsAddPhonesWithVariables | ep_smsRemovePhones
  | ep_smsUpdatePhonesVariables | ep_smsSend => 1
  | ep_smsGetPhonesInfoFromBlacklist | ep_smsAddPhonesToBlacklist
  | ep_smsDeletePhonesFromBlacklist => 0
  | ep_smsGetCampaignCost => 3
  end.

(** The other argument positions that these wrappers compare with
    [undefined] before they dispatch. *)
Definition required_args (e : PhonesEndpoint) : list nat :=
  match e with
  | ep_smsAddPhones | ep_smsAddPhonesWithVariables | ep_smsRemovePhones
  | ep_smsUpdatePhonesVariables => [0]
  | ep_smsSend => [0; 2]
  | ep_smsGetCampaignCost => [0; 1; 2]
  | ep_smsGetPhonesInfoFromBlacklist | ep_smsAddPhonesToBlacklist
  | ep_smsDeletePhonesFromBlacklist => []
  end%nat.

(** The argument positions of which a wrapper demands an own key besides
    ([x === undefined || !Object.keys(x).length]). *)
Definition keyed_args (e : PhonesEndpoint) : list nat :=
  match e with
  | ep_smsUpdatePhonesVariables => [2]
  | _ => []
  end%nat.

End Legacy.

(** ** Observations used in the statements *)

Import Client.

(** A machine whose client was just constructed. *)
Definition fresh (client_id client_secret : JSVal) (now : Z) : Machine :=
  {| this := new_SendPulseClient client_id client_secret None;
     clock := now;
     trace := [] |}.

(** The machine after [e] is recorded. *)
Definition logged (m : Machine) (e : Event) : Machine :=
  {| this := this m; clock := clock m; trace := (trace m ++ [e])%list |}.

Definition with_token (m : Machine) (t : TokenData) : Machine :=
  {| this := {| clientId := clientId (this m);
                clientSecret := clientSecret (this m);
                apiUrl := apiUrl (this m);
                token := Some t |};
     clock := clock m;
     trace := trace m |}.

(** The headers of a request sent without and with a bearer token. *)
Definition plain_headers (len : JSVal) : JSObject :=
  [("Content-Type", JStr "application/json"); ("Content-Length", len)].

Definition bearer_headers (len : JSVal) (t : TokenData) : JSObject :=
  [ ("Content-Type", JStr "application/json"); ("Content-Length", len);
    ("Authorization", JStr ("Bearer " ++ ToString (access_token t))) ].

(** The request that [getToken] sends for the client [c], once its URL is
    resolved to [href]. *)
Definition token_request (c : SendPulseClient) (href : string) : Request :=
  {| method := JStr "POST";
     url := href;
     data := credentials c;
     headers :=
       plain_headers
         (match Buffer_byteLength (JSON_stringify (credentials c)) with
          | Ok len => len
          | Throw _ => JUndefined
          end) |}.

(** The token that [getToken] stores when the response [body] is processed
    at time [now]. *)
Definition token_of_response {RT : Runtime} (body : JSVal) (now : Z) : TokenData :=
  {| access_token := match get_prop body "access_token" with
                     | Ok v => v
                     | Throw _ => JUndefined
                     end;
     expires_at :=
       js_add (Fin now)
         (js_mul (js_sub (ToNumber (match get_prop body "expires_in" with
                                    | Ok v => v
                                    | Throw _ => JUndefined
                                    end)) (Fin 60)) (Fin 1000)) |}.

(** An authorized call made [pause] milliseconds after the previous one
    completed: [sendRequest(path, verb, payload, true)]. *)
Record AuthorizedCall : Type := mkCall {
  pause : Z;
  path : string;
  verb : JSVal;
  payload : JSObject
}.

Definition perform {RT : Runtime} (c : AuthorizedCall) (m : Machine) : Machine :=
  snd (sendRequest (path c) (verb c) (JObj (payload c)) true (elapse (pause c) m)).

(** Calls made one after the other, each completing before the next. *)
Fixpoint perform_all {RT : Runtime} (cs : list AuthorizedCall) (m : Machine) : Machine :=
  match cs with
  | [] => m
  | c :: cs' => perform_all cs' (perform c m)
  end.



(** ** Concrete runtimes, used to run the client on examples *)

(** A transport where the token endpoint answers with [token_body] and every
    other endpoint with an empty object; each exchange takes 5 ms. *)
Definition answering (token_body : JSVal) : Runtime :=
  {| axios_request := fun _ _ r =>
       if (url r =? "https://api.sendpulse.com/oauth/access_token")%string
       then (5, Resolved token_body)
       else (5, Resolved (JObj []));
     URL_href := fun path base => Some (base ++ "/" ++ path);
     StringToNumber := fun _ => NaN;
     Buffer_base64 := fun _ => None;
     md5_hex := fun s => s |}.

(** The token endpoint of the end-to-end scenario. *)
Definition T1_3600 : JSVal :=
  JObj [("access_token", JStr "T1"); ("expires_in", JNum (Fin 3600))].

(** A token response without [expires_in]. *)
Definition T1_no_expiry : JSVal := JObj [("access_token", JStr "T1")].

(** A transport that rejects every request. *)
Definition unreachable : Runtime :=
  {| axios_request := fun _ _ _ => (5, Failed (JStr "ECONNREFUSED"));
     URL_href := fun path base => Some (base ++ "/" ++ path);
     StringToNumber := fun _ => NaN;
     Buffer_base64 := fun _ => None;
     md5_hex := fun s => s |}.

(** The end-to-end scenario: the client for id 'abc' and secret 'xyz',
    constructed at time 1000. *)
Definition scenario : Machine := fresh (JStr "abc") (JStr "xyz") 1000.

(** The scenario after its token was fetched from [T1_3600] in 5 ms. *)
Definition scenario_ready : Machine :=
  {| this := {| clientId := JStr "abc"; clientSecret := JStr "xyz";
                apiUrl := "https://api.sendpulse.com";
                token := Some {| access_token := JStr "T1";
                                 expires_at := Fin 3541005 |} |};
     clock := 1005;
     trace := [ EvGetToken;
                EvRequest
                  (token_request (this scenario)
                     "https://api.sendpulse.com/oauth/access_token") ] |}.

(** The request of [listAddressBooks()] in the scenario. *)
Definition scenario_request : Request :=
  {| method := JStr "GET";
     url := "https://api.sendpulse.com/addressbooks";
     data := JObj [];
     headers := [ ("Content-Type", JStr "application/json");
                  ("Content-Length", JNum (Fin 2));
                  ("Authorization", JStr "Bearer T1") ] |}.



(** The scenario after a token fetch that the transport rejected. *)
Definition unreachable_after_fetch : Machine :=
  {| this := this scenario;
     clock := 1005;
     trace := [ EvGetToken;
                EvRequest
                  (token_request (this scenario)
                     "https://api.sendpulse.com/oauth/access_token") ] |}.

(** A token response whose lifetime is within the safety margin. *)
Definition T1_short : JSVal :=
  JObj [("access_token", JStr "T1"); ("expires_in", JNum (Fin 30))].

(** The legacy module as loaded at time 0, holding the token [t]. *)
Definition legacy_holding (t : JSVal) : Legacy.Machine :=
  {| Legacy.API_USER_ID := JStr ""; Legacy.API_SECRET := JStr "";
     Legacy.TOKEN := t; Legacy.TOKEN_STORAGE := [];
     Legacy.clock := 0; Legacy.trace := [] |}.

(** *** Observations on what a call adds to the trace *)

(** The events of [after] that come after those of [before]. *)
Definition added (before after : list Event) : list Event :=
  skipn (List.length before) after.

(** A request declares its payload: it is sent as JSON, with the byte length
    of the JSON text of its body. *)
Definition declares_payload (e : Event) : Prop :=
  match e with
  | EvGetToken => True
  | EvRequest r =>
      obj_get (headers r) "Content-Type" = JStr "application/json" /\
      Buffer_byteLength (JSON_stringify (data r)) =
        Ok (obj_get (headers r) "Content-Length")
  end.

(** A request carries its bearer token, or is a request of credentials. *)
Definition authorized_or_credentials (e : Event) : Prop :=
  match e with
  | EvGetToken => True
  | EvRequest r =>
      (exists t, obj_get (headers r) "Authorization" = JStr ("Bearer " ++ t)) \/
      (obj_has (headers r) "Authorization" = false /\
       method r = JStr "POST" /\
       obj_get (own_properties (data r)) "grant_type" = JStr "client_credentials")
  end.

(** The payload has a JSON text. *)
Definition serialisable (data : JSVal) : bool :=
  match json_text data with Some _ => true | None => false end.

(** The credentials and the base URL of a client. *)
Definition configuration (c : SendPulseClient) : JSVal * JSVal * string :=
  (clientId c, clientSecret c, apiUrl c).

(** *** Tables used in the statements about endpoint methods *)

(** The methods that take a list or a single string in their first
    argument ([Array.isArray(x) && x.length], else [typeof x === 'string']),
    with the payload field. *)
Definition list_or_string_field (e : Endpoint) : option string :=
  match e with
  | ep_addToBlackList | ep_removeFromBlackList
  | ep_smtpUnsubscribeEmails | ep_smtpRemoveFromUnsubscribe => Some "emails"
  | ep_smsAddPhones | ep_smsRemovePhones | ep_smsGetPhonesInfoFromBlacklist
  | ep_smsAddPhonesToBlacklist | ep_smsDeletePhonesFromBlacklist => Some "phones"
  | _ => None
  end.

(** The methods whose arguments are all optional filters: their path and
    the payload fields of their arguments, in order. *)
Definition filter_fields (e : Endpoint) : option (string * list string) :=
  match e with
  | ep_listCampaigns => Some ("campaigns", ["limit"; "offset"])
  | ep_smsGetListCampaigns => Some ("sms/campaigns", ["limit"; "offset"])
  | ep_smtpListEmails => Some ("smtp/emails", ["limit"; "offset"; "from"; "to"])
  | ep_getBalance => Some ("balance", ["currency"])
  | _ => None
  end.

(** The fields paired with the arguments that are not [undefined]. *)
Fixpoint given (fields : list string) (args : list JSVal) : JSObject :=
  match fields with
  | [] => []
  | k :: fields' =>
      ((if is_undefined (hd JUndefined args) then []
        else [(k, hd JUndefined args)])
       ++ given fields' (tl args))%list
  end.

(** The two methods that refuse an empty list of phones. *)
Definition needs_phones (e : Endpoint) : bool :=
  match e with
  | ep_smsAddCampaign | ep_smsGetCampaignCost => true
  | _ => false
  end.

(** *** Observations on flattened payloads *)

(** [k] is [p] followed by a bracketed suffix. *)
Definition bracketed (p k : string) : Prop :=
  exists rest, k = (p ++ "[" ++ rest ++ "]")%string.

(** The test by which [serializeArray] descends into a value:
    [typeof value === 'object' && !(value instanceof Date)]. *)
Definition descends (value : JSVal) : bool :=
  typeof_object value && negb (instanceof_Date value).

(** A flattened entry: [serializeArray] would not descend into its value,
    which is thus no array, no plain object and not [null]; under a prefix
    its key is bracketed. *)
Definition flattened (prefix : option string) (kv : string * JSVal) : Prop :=
  descends (snd kv) = false /\
  forall p, prefix = Some p -> bracketed p (fst kv).

(** An entry of the payload of [smtpSendMail]: its value is [null] or one
    into which [serializeArray] would not descend, and its key is none of
    the names that the method renames. *)
Definition smtp_entry (kv : string * JSVal) : Prop :=
  (descends (snd kv) = false \/ snd kv = JNull) /\
  fst kv <> "html" /\ fst kv <> "text" /\ fst kv <> "subject".

(** *** Observations on the legacy module *)

(** The request that the legacy [getToken] sends. *)
Definition legacy_token_request (m : Legacy.Machine) : Request :=
  let body := JObj [ ("grant_type", JStr "client_credentials");
                     ("client_id", Legacy.API_USER_ID m);
                     ("client_secret", Legacy.API_SECRET m) ] in
  {| method := JStr "POST";
     url := Legacy.API_URL ++ "/" ++ "oauth/access_token";
     data := body;
     headers :=
       plain_headers
         (match Buffer_byteLength (JSON_stringify body) with
          | Ok len => len
          | Throw _ => JUndefined
          end) |}.

(** The module after [init] stored the credentials, with the token [t]. *)
Definition legacy_configured (m : Legacy.Machine) (id secret t : JSVal)
  : Legacy.Machine :=
  {| Legacy.API_USER_ID := id; Legacy.API_SECRET := secret;
     Legacy.TOKEN := t; Legacy.TOKEN_STORAGE := Legacy.TOKEN_STORAGE m;
     Legacy.clock := Legacy.clock m; Legacy.trace := Legacy.trace m |}.

(** The module-level variables of the legacy module. *)
Definition legacy_variables (m : Legacy.Machine)
  : JSVal * JSVal * JSVal * JSObject :=
  (Legacy.API_USER_ID m, Legacy.API_SECRET m, Legacy.TOKEN m,
   Legacy.TOKEN_STORAGE m).

(** ** [serialize] of the legacy module

    The PHP serialisation that the legacy wrappers apply to lists of emails
    and to mail descriptions.  [None] marks a value on which this
    development does not follow the code: an object with an own property
    named [constructor] (on which [_getType] inspects the text of that
    property), or with a key of digits that is not an exact integer of the
    model (from 2^53 on).  On every other value the result is the text or
    the thrown error. *)

Module Serialize.

(** The UTF-16 code units of a string of the model. *)
Definition units (s : string) : list N :=
  map N_of_ascii (list_ascii_of_string s).

(** The loop of [_utf8Size] from position [i] on, [str] being the code units
    from [i] and [size] the count so far.  A high surrogate reads the unit
    after it as well ([charCodeAt(++i)]); a unit out of place resets the
    count. *)
Fixpoint utf8Size_loop (str : list N) (size : Z) : Z :=
  match str with
  | [] => size
  | code :: rest =>
      if (code <? 128)%N then utf8Size_loop rest (size + 1)
      else if (code <? 2048)%N then utf8Size_loop rest (size + 2)
      else if (code <? 55296)%N then utf8Size_loop rest (size + 3)
      else if (code <? 56320)%N then
        match rest with
        | lo :: rest' =>
            if ((56320 <=? lo) && (lo <=? 57343))%N
            then utf8Size_loop rest' (size + 4)
            else utf8Size_loop rest' 0
        | [] => 0
        end
      else if (code <? 57344)%N then utf8Size_loop rest 0
      else utf8Size_loop rest (size + 3)
  end.

(** [_utf8Size(str)] *)
Definition _utf8Size (str : list N) : Z := utf8Size_loop str 0.

(** [_getType(inp)] *)
Definition _getType (inp : JSVal) : option string :=
  match inp with
  | JUndefined => Some "undefined"
  | JNull => Some "null"
  | JBool _ => Some "boolean"
  | JNum _ => Some "number"
  | JStr _ => Some "string"
  | JArr _ => Some "array"
  | JObj o => if obj_has o "constructor" then None else Some "object"
  | JDate _ _ _ => Some "object"
  end.

(** [case 'string'], with the final [';'] *)
Definition serialize_string (s : string) : string :=
  "s:" ++ Number_toString (Fin (_utf8Size (units s))) ++ ":" ++ dquote ++ s
  ++ dquote ++ ";".

(** [case 'number'], with the final [';']: [Math.round(x) === x] holds of
    every integer and not of [NaN]. *)
Definition serialize_number (n : JSNum) : string :=
  (match n with Fin _ => "i" | NaN => "d" end) ++ ":" ++ Number_toString n ++ ";".

(** [serialize(okey)] for
    [okey = key.match(/^[0-9]+$/) ? parseInt(key, 10) : key] *)
Definition serialize_key (key : string) : option string :=
  match key with
  | EmptyString => Some (serialize_string key)
  | String _ _ =>
      match digits_value key 0 with
      | Some n =>
          if (n <? 9007199254740992)%N
          then Some (serialize_number (Fin (Z.of_N n)))
          else None
      | None => Some (serialize_string key)
      end
  end.

(** [serialize(mixed_value)] *)
Fixpoint serialize (mixed_value : JSVal) : option (Outcome string) :=
  match mixed_value with
  | JUndefined | JNull => Some (Ok "N;")
  | JBool b => Some (Ok ("b:" ++ (if b then "1" else "0") ++ ";"))
  | JNum n => Some (Ok (serialize_number n))
  | JStr s => Some (Ok (serialize_string s))
  | JArr l =>
      (* the keys of an array are its indices *)
      (fix loop (i : nat) (l : list JSVal) (vals : string) (count : nat)
         : option (Outcome string) :=
         match l with
         | [] =>
             Some (Ok ("a:" ++ Number_toString (Fin (Z.of_nat count)) ++ ":{"
                       ++ vals ++ "}"))
         | value :: l' =>
             match serialize value with
             | None => None
             | Some (Throw e) => Some (Throw e)
             | Some (Ok t) =>
                 loop (S i) l'
                   (vals ++ serialize_number (Fin (Z.of_nat i)) ++ t)
                   (S count)
             end
         end) 0%nat l "" 0%nat
  | JObj o =>
      if obj_has o "constructor" then None
      else if obj_has o "hasOwnProperty" then Some (Throw TypeError)
      else
        (fix loop (o : list (string * JSVal)) (vals : string) (count : nat)
           : option (Outcome string) :=
           match o with
           | [] =>
               Some (Ok ("a:" ++ Number_toString (Fin (Z.of_nat count)) ++ ":{"
                         ++ vals ++ "}"))
           | (key, value) :: o' =>
               match _getType value, serialize_key key with
               | None, _ | _, None => None
               | Some _, Some k =>
                   match serialize value with
                   | None => None
                   | Some (Throw e) => Some (Throw e)
                   | Some (Ok t) => loop o' (vals ++ k ++ t) (S count)
                   end
               end
           end) o "" 0%nat
  | JDate _ _ _ =>
      (* an object without enumerable properties *)
      Some (Ok "a:0:{}")
  end.

(** *** Reading back a serialised list of strings

    The fragment of PHP's [unserialize] that reads an array of strings:
    [a:n:{i:0;s:len:"...";...}], each string taken by its length in
    bytes. *)

Definition is_digit (c : ascii) : bool :=
  ((48 <=? N_of_ascii c) && (N_of_ascii c <=? 57))%N.

(** The numeral at the head of a text and the text after it. *)
Fixpoint read_digits (s : string) (acc : N) : N * string :=
  match s with
  | EmptyString => (acc, s)
  | String c s' =>
      if is_digit c then read_digits s' (acc * 10 + (N_of_ascii c - 48))%N
      else (acc, s)
  end.

Definition read_number (s : string) : option (N * string) :=
  match s with
  | EmptyString => None
  | String c _ => if is_digit c then Some (read_digits s 0) else None
  end.

(** The text after the prefix [p]. *)
Fixpoint expect (p s : string) : option string :=
  match p with
  | EmptyString => Some s
  | String a p' =>
      match s with
      | String b s' => if Ascii.eqb a b then expect p' s' else None
      | EmptyString => None
      end
  end.

(** The characters that make up [n] bytes, and the text after them. *)
Fixpoint take_bytes (n : Z) (s : string) : option (string * string) :=
  if n =? 0 then Some (EmptyString, s)
  else
    match s with
    | EmptyString => None
    | String c s' =>
        let w := if Nat.ltb (nat_of_ascii c) 128 then 1 else 2 in
        if w <=? n then prepend c (take_bytes (n - w) s') else None
    end.

(** [count] entries [i:k;s:len:"...";], and the text after them. *)
Fixpoint unserialize_items (count : nat) (s : string)
  : option (list string * string) :=
  match count with
  | O => Some ([], s)
  | S count' =>
      match expect "i:" s with
      | None => None
      | Some s1 =>
          match read_number s1 with
          | None => None
          | Some (_, s2) =>
              match expect ";s:" s2 with
              | None => None
              | Some s3 =>
                  match read_number s3 with
                  | None => None
                  | Some (len, s4) =>
                      match expect (":" ++ dquote) s4 with
                      | None => None
                      | Some s5 =>
                          match take_bytes (Z.of_N len) s5 with
                          | None => None
                          | Some (item, s6) =>
                              match expect (dquote ++ ";") s6 with
                              | None => None
                              | Some s7 =>
                                  match unserialize_items count' s7 with
                                  | None => None
                                  | Some (items, s8) => Some (item :: items, s8)
                                  end
                              end
                          end
                      end
                  end
              end
          end
      end
  end.

Definition unserialize_strings (s : string) : option (list string) :=
  match expect "a:" s with
  | None => None
  | Some s1 =>
      match read_number s1 with
      | None => None
      | Some (n, s2) =>
          match expect ":{" s2 with
          | None => None
          | Some s3 =>
              match unserialize_items (N.to_nat n) s3 with
              | Some (items, "}"%string) => Some items
              | _ => None
              end
          end
      end
  end.

(** The number of bytes that UTF-8 spends on a code unit that is not a
    surrogate. *)
Definition utf8_width (code : N) : Z :=
  if (code <? 128)%N then 1 else if (code <? 2048)%N then 2 else 3.

Definition is_surrogate (code : N) : bool :=
  ((55296 <=? code) && (code <? 57344))%N.

Fixpoint utf8_widths (str : list N) : Z :=
  match str with
  | [] => 0
  | code :: rest => utf8_width code + utf8_widths rest
  end.

(** The text of the entries of a list of strings from index [i] on. *)
Fixpoint entries_text (i : nat) (l : list string) : string :=
  match l with
  | [] => ""
  | x :: l' =>
      serialize_number (Fin (Z.of_nat i)) ++ serialize_string x
      ++ entries_text (S i) l'
  end.

End Serialize.

(** ** The legacy wrappers that serialise a list of emails

    [addEmails], [removeEmails], [smtpUnsubscribeEmails] and
    [smtpRemoveFromUnsubscribe] send [{emails: serialize(emails)}].  A call
    is [None] where [serialize] is. *)

Module LegacyMail.

Import Serialize.

Section WithRuntime.

Context {RT : Runtime}.

Definition Call : Type :=
  Legacy.Machine -> option (Outcome JSVal * Legacy.Machine).

(** [var data = {emails: serialize(emails)};
    return sendRequest(path, method, data, true)] *)
Definition send_serialized (path method : string) (emails : JSVal) : Call :=
  fun m =>
    match serialize emails with
    | None => None
    | Some (Throw e) => Some (Throw e, m)
    | Some (Ok t) =>
        Some (Legacy.sendRequest path (JStr method)
                (JObj [("emails", JStr t)]) true m)
    end.

(** [(id === undefined) || (emails === undefined) || (!emails.length)] *)
Definition no_id_or_emails (id emails : JSVal) : Legacy.M bool :=
  if is_undefined id then ret true else Legacy.undefined_or_empty emails.

Definition addEmails (id emails : JSVal) : Call :=
  fun m =>
    match no_id_or_emails id emails m with
    | (Throw e, m') => Some (Throw e, m')
    | (Ok true, m') => Some (Throw (Error "Empty email or book id"), m')
    | (Ok false, m') =>
        send_serialized ("addressbooks/" ++ ToString id ++ "/emails") "POST"
          emails m'
    end.

Definition removeEmails (id emails : JSVal) : Call :=
  fun m =>
    match no_id_or_emails id emails m with
    | (Throw e, m') => Some (Throw e, m')
    | (Ok true, m') => Some (Throw (Error "Empty email or book id"), m')
    | (Ok false, m') =>
        send_serialized ("addressbooks/" ++ ToString id ++ "/emails") "DELETE"
          emails m'
    end.

Definition smtpUnsubscribeEmails (emails : JSVal) : Call :=
  fun m =>
    if is_undefined emails then Some (Throw (Error "Empty emails"), m)
    else send_serialized "smtp/unsubscribe" "POST" emails m.

Definition smtpRemoveFromUnsubscribe (emails : JSVal) : Call :=
  fun m =>
    if is_undefined emails then Some (Throw (Error "Empty emails"), m)
    else send_serialized "smtp/unsubscribe" "DELETE" emails m.

End WithRuntime.

End LegacyMail.

(** * Properties *)

Section Properties.

Context {RT : Runtime}.

(** ** The dispatch core *)

Lemma byteLength_object (o : JSObject) :
  exists n, Buffer_byteLength (JSON_stringify (JObj o)) = Ok (JNum (Fin n)).
Proof.
  unfold JSON_stringify. simpl json_text. cbv beta iota.
  eexists. reflexivity.
Qed.

(** [prepareRequest], step by step. *)
Lemma prepareRequest_unfold refresh path method data useToken m :
  prepareRequest refresh path method data useToken m =
  match Buffer_byteLength (JSON_stringify data) with
  | Throw e => (Throw e, m)
  | Ok len =>
      let method' := if is_undefined method then JStr "POST" else method in
      if useToken then
        match (if token_stale (token (this m)) (clock m)
               then refresh m else (Ok tt, m)) with
        | (Throw e, m1) => (Throw e, m1)
        | (Ok _, m1) =>
            match token (this m1) with
            | None => (Throw TypeError, m1)
            | Some t =>
                match URL_href path (apiUrl (this m1)) with
                | None => (Throw TypeError, m1)
                | Some href =>
                    (Ok {| method := method'; url := href; data := data;
                           headers := bearer_headers len t |}, m1)
                end
            end
        end
      else
        match URL_href path (apiUrl (this m)) with
        | None => (Throw TypeError, m)
        | Some href =>
            (Ok {| method := method'; url := href; data := data;
                   headers := plain_headers len |}, m)
        end
  end.
Proof.
  unfold prepareRequest, bind, lift, ret, throw, this_token, Date_now,
    new_URL_href.
  destruct (Buffer_byteLength (JSON_stringify data)) as [len|e]; [|reflexivity].
  destruct useToken.
  - destruct (token_stale (token (this m)) (clock m)).
    + destruct (refresh m) as [[[]|e] m1]; [|reflexivity].
      destruct (token (this m1)) as [t|]; [|reflexivity].
      destruct (URL_href path (apiUrl (this m1))); reflexivity.
    + destruct (token (this m)) as [t|]; [|reflexivity].
      destruct (URL_href path (apiUrl (this m))); reflexivity.
  - destruct (URL_href path (apiUrl (this m))); reflexivity.
Qed.

(** [getToken], step by step. *)
Lemma getToken_unfold m :
  getToken m =
  let m0 := logged m EvGetToken in
  match URL_href "oauth/access_token" (apiUrl (this m)) with
  | None => (Throw TypeError, m0)
  | Some href =>
      let req := token_request (this m) href in
      let (latency, result) := axios_request (trace m0) (clock m) req in
      let m1 := elapse latency (logged m0 (EvRequest req)) in
      match result with
      | Failed reason => (Throw (Rejected reason), m1)
      | Resolved body =>
          match get_prop body "access_token" with
          | Throw e => (Throw e, m1)
          | Ok _ => (Ok tt, with_token m1 (token_of_response body (clock m1)))
          end
      end
  end.
Proof.
  unfold getToken, bind at 1. unfold emit at 1.
  unfold bind at 1. unfold sendRequest_with, bind at 1.
  rewrite prepareRequest_unfold.
  cbn [this clock trace].
  destruct (byteLength_object
              [("grant_type", JStr "client_credentials");
               ("client_id", clientId (this m));
               ("client_secret", clientSecret (this m))]) as [n Hn].
  unfold token_request, credentials. rewrite Hn.
  cbn [is_undefined].
  destruct (URL_href "oauth/access_token" (apiUrl (this m))) as [href|];
    [|reflexivity].
  unfold axios. cbn [this clock trace logged].
  destruct (axios_request _ _ _) as [latency [body|reason]]; [|reflexivity].
  unfold bind, lift, Date_now, set_token, with_token, token_of_response, elapse.
  cbn [this clock trace].
  destruct body; reflexivity.
Qed.

Lemma fetches_app tr1 tr2 : fetches (tr1 ++ tr2) = (fetches tr1 + fetches tr2)%nat.
Proof. unfold fetches. now rewrite filter_app, length_app. Qed.

Lemma requests_app tr1 tr2 :
  requests (tr1 ++ tr2) = (requests tr1 + requests tr2)%nat.
Proof. unfold requests. now rewrite filter_app, length_app. Qed.

Lemma sendRequest_unfold path method data useToken m :
  sendRequest path method data useToken m =
  match prepareRequest getToken path method data useToken m with
  | (Ok r, m1) => axios r m1
  | (Throw e, m1) => (Throw e, m1)
  end.
Proof. reflexivity. Qed.

Lemma axios_unfold r m :
  axios r m =
  let (latency, result) := axios_request (trace m) (clock m) r in
  (match result with
   | Resolved body => Ok body
   | Failed reason => Throw (Rejected reason)
   end, elapse latency (logged m (EvRequest r))).
Proof.
  unfold axios, elapse, logged.
  destruct (axios_request _ _ _) as [latency [body|reason]]; reflexivity.
Qed.

Lemma axios_this r m : this (snd (axios r m)) = this m.
Proof.
  rewrite axios_unfold. now destruct (axios_request _ _ _).
Qed.

Lemma axios_trace r m : trace (snd (axios r m)) = (trace m ++ [EvRequest r])%list.
Proof.
  rewrite axios_unfold. now destruct (axios_request _ _ _).
Qed.

(** What a token fetch leaves behind, whatever its outcome: one more fetch
    in the trace, at most one more request, and the client untouched when
    it fails. *)
Lemma getToken_effect m :
  let (out, m') := getToken m in
  fetches (trace m') = S (fetches (trace m)) /\
  (requests (trace m') <= S (requests (trace m)))%nat /\
  (forall e, out = Throw e -> this m' = this m) /\
  (out = Ok tt -> exists t, token (this m') = Some t).
Proof.
  rewrite getToken_unfold. cbv zeta.
  destruct (URL_href _ _) as [href|];
    [destruct (axios_request _ _ _) as [latency [body|reason]];
     [destruct (get_prop body "access_token")|]|];
    cbn [with_token elapse logged this clock trace token];
    rewrite !fetches_app, ?requests_app; cbn;
    (split; [lia|split; [lia|split]]);
    try discriminate; eauto.
Qed.

(** An authorized dispatch whose token is still good sends its request at
    once; one whose token is absent or expired fetches first. *)
Lemma prepareRequest_valid path method o m :
  token_stale (token (this m)) (clock m) = false ->
  exists r, prepareRequest getToken path method (JObj o) true m = (r, m).
Proof.
  intros Hv. rewrite prepareRequest_unfold.
  destruct (byteLength_object o) as [n ->]. cbv zeta. rewrite Hv.
  destruct (token (this m)) as [t|]; [|eauto].
  destruct (URL_href path (apiUrl (this m))); eauto.
Qed.

Lemma sendRequest_valid path method o m :
  token_stale (token (this m)) (clock m) = false ->
  let m' := snd (sendRequest path method (JObj o) true m) in
  this m' = this m /\ fetches (trace m') = fetches (trace m).
Proof.
  intros Hv. cbv zeta. rewrite sendRequest_unfold.
  destruct (prepareRequest_valid path method o m Hv) as [[r|e] ->].
  - rewrite axios_this, axios_trace, fetches_app. cbn. split; [reflexivity|lia].
  - split; reflexivity.
Qed.

Lemma sendRequest_stale path method o m :
  token_stale (token (this m)) (clock m) = true ->
  fetches (trace (snd (sendRequest path method (JObj o) true m))) =
  S (fetches (trace m)).
Proof.
  intros Hs. rewrite sendRequest_unfold, prepareRequest_unfold.
  destruct (byteLength_object o) as [n ->]. cbv zeta. rewrite Hs.
  pose proof (getToken_effect m) as H.
  destruct (getToken m) as [[[]|e] m1]; destruct H as (Hf & _ & _ & _).
  - destruct (token (this m1)) as [t|]; [|exact Hf].
    destruct (URL_href path (apiUrl (this m1))); [|exact Hf].
    rewrite axios_trace, fetches_app. cbn. lia.
  - exact Hf.
Qed.

(** C6. A dispatch with [useToken = false] triggers no token fetch and
    leaves the client, hence its token and the token's expiry, unchanged,
    in every token state. *)
Theorem unauthorized_dispatch_never_fetches :
  forall (path : string) (method data : JSVal) (m : Machine),
    let m' := snd (sendRequest path method data false m) in
    filter is_fetch (trace m') = filter is_fetch (trace m) /\
    fetches (trace m') = fetches (trace m) /\
    token (this m') = token (this m) /\
    this m' = this m.
Proof.
  intros path method data m. cbv zeta.
  rewrite sendRequest_unfold, prepareRequest_unfold.
  destruct (Buffer_byteLength (JSON_stringify data)) as [len|e]; cbv zeta;
    [destruct (URL_href path (apiUrl (this m)))|]; cbn [snd];
    rewrite ?axios_this, ?axios_trace; unfold fetches;
    rewrite ?filter_app; cbn; rewrite ?app_nil_r; auto.
Qed.

(** ** The token lifecycle *)

(** C1, as the code has it.  An authorized dispatch that gets as far as
    issuing its HTTP request sends the header [Authorization: Bearer <token>]
    with the token the client holds at that moment.  If the client held no
    token, or the clock had reached the expiry of the held one, the token
    fetch ran first and the held token was replaced by the one of the
    response; that token is sent without a check of its own, and when the
    response gives its lifetime as a number [N] of seconds it is expired
    already exactly when [N <= 60].  Otherwise the held token passed the
    expiry check and is the one sent. *)
Theorem authorized_request_carries_current_token :
  forall (path : string) (method data : JSVal) (m m1 : Machine) (req : Request),
    prepareRequest getToken path method data true m = (Ok req, m1) ->
    sendRequest path method data true m = axios req m1 /\
    trace (snd (sendRequest path method data true m)) =
      (trace m1 ++ [EvRequest req])%list /\
    exists tok,
      token (this m1) = Some tok /\
      token (this (snd (sendRequest path method data true m))) = Some tok /\
      obj_get (headers req) "Authorization" =
        JStr ("Bearer " ++ ToString (access_token tok)) /\
      if token_stale (token (this m)) (clock m)
      then exists href latency body,
          URL_href "oauth/access_token" (apiUrl (this m)) = Some href /\
          axios_request (trace m ++ [EvGetToken]) (clock m)
            (token_request (this m) href) = (latency, Resolved body) /\
          trace m1 =
            (trace m ++ [EvGetToken; EvRequest (token_request (this m) href)])%list /\
          clock m1 = clock m + latency /\
          tok = token_of_response body (clock m1) /\
          forall N : Z,
            get_prop body "expires_in" = Ok (JNum (Fin N)) ->
            safe_integer (clock m1) ->
            safe_integer ((N - 60) * 1000) ->
            safe_integer (clock m1 + (N - 60) * 1000) ->
            token_stale (Some tok) (clock m1) = (N <=? 60)
      else m1 = m /\ token (this m) = Some tok /\
           js_ge (Fin (clock m)) (expires_at tok) = false.
Proof.
  intros path method data m m1 req Hprep.
  assert (Hsend : sendRequest path method data true m = axios req m1)
    by (rewrite sendRequest_unfold, Hprep; reflexivity).
  split; [exact Hsend|]. rewrite Hsend, axios_trace, axios_this.
  split; [reflexivity|].
  rewrite prepareRequest_unfold in Hprep.
  destruct (Buffer_byteLength (JSON_stringify data)) as [len|e];
    [|discriminate]. cbv zeta in Hprep.
  destruct (token_stale (token (this m)) (clock m)) eqn:Hstale.
  - rewrite getToken_unfold in Hprep. cbv zeta in Hprep.
    destruct (URL_href "oauth/access_token" (apiUrl (this m))) as [href|];
      [|discriminate].
    destruct (axios_request _ _ _) as [latency [body|reason]] eqn:Hax;
      [|discriminate].
    destruct (get_prop body "access_token"); [|discriminate].
    cbn [with_token elapse logged this clock trace token apiUrl] in Hprep.
    destruct (URL_href path (apiUrl (this m))); [|discriminate].
    injection Hprep as <- <-.
    eexists. cbn [this token headers bearer_headers obj_get clock trace].
    split; [reflexivity|]. split; [reflexivity|]. split; [reflexivity|].
    exists href, latency, body.
    split; [reflexivity|]. split; [exact Hax|].
    split; [cbn [with_token elapse logged trace]; now rewrite <- app_assoc|].
    split; [reflexivity|]. split; [reflexivity|].
    intros N Hexp _ _ _.
    unfold token_stale, token_of_response. cbn [expires_at].
    rewrite Hexp.
    cbn [ToNumber js_sub js_mul js_add js_ge with_token elapse logged clock].
    rewrite Z.geb_leb.
    destruct (Z.leb_spec N 60) as [Hle|Hgt];
      [apply Z.leb_le|apply Z.leb_gt]; lia.
  - destruct (token (this m)) as [t|] eqn:Htok; [|discriminate].
    destruct (URL_href path (apiUrl (this m))); [|discriminate].
    injection Hprep as <- <-.
    exists t. cbn [headers bearer_headers obj_get]. repeat split; auto.
Qed.

(** In the TypeScript client a failed token fetch leaves the client as it
    was; it made one attempt; the authorized call that triggered it fails
    with the same error, without sending its own request. *)
Lemma failed_fetch_client m e m' :
  getToken m = (Throw e, m') ->
  this m' = this m /\
  fetches (trace m') = S (fetches (trace m)) /\
  (requests (trace m') <= S (requests (trace m)))%nat /\
  forall path method payload,
    token_stale (token (this m)) (clock m) = true ->
    sendRequest path method (JObj payload) true m = (Throw e, m').
Proof.
  intros Hg. pose proof (getToken_effect m) as H. rewrite Hg in H.
  destruct H as (Hf & Hr & Hthis & _).
  split; [eauto|]. split; [exact Hf|]. split; [exact Hr|].
  intros path method payload Hs.
  rewrite sendRequest_unfold, prepareRequest_unfold.
  destruct (byteLength_object payload) as [n ->]. cbv zeta.
  now rewrite Hs, Hg.
Qed.

(** In the legacy module a failed [getToken] leaves [TOKEN] and the token
    cache as they were, after one attempt. *)
Lemma failed_fetch_legacy lm e lm' :
  Legacy.getToken lm = (Throw e, lm') ->
  Legacy.TOKEN lm' = Legacy.TOKEN lm /\
  Legacy.TOKEN_STORAGE lm' = Legacy.TOKEN_STORAGE lm /\
  fetches (Legacy.trace lm') = S (fetches (Legacy.trace lm)) /\
  (requests (Legacy.trace lm') <= S (requests (Legacy.trace lm)))%nat.
Proof.
  unfold Legacy.getToken, Legacy.sendRequest, bind, Legacy.emit, Legacy.read,
    lift, ret.
  cbn [Legacy.API_USER_ID Legacy.API_SECRET Legacy.TOKEN Legacy.TOKEN_STORAGE
       Legacy.clock Legacy.trace].
  match goal with
  | |- context [Buffer_byteLength (JSON_stringify (JObj ?o))] =>
      destruct (byteLength_object o) as [n ->]
  end.
  unfold Legacy.axios.
  cbn [Legacy.API_USER_ID Legacy.API_SECRET Legacy.TOKEN Legacy.TOKEN_STORAGE
       Legacy.clock Legacy.trace is_undefined].
  destruct (axios_request _ _ _) as [latency [body|reason]].
  - destruct (get_prop body "access_token"); [discriminate|].
    intros H; injection H as <- <-.
    cbn [Legacy.TOKEN Legacy.TOKEN_STORAGE Legacy.trace].
    rewrite !fetches_app, !requests_app. cbn. repeat split; lia.
  - intros H; injection H as <- <-.
    cbn [Legacy.TOKEN Legacy.TOKEN_STORAGE Legacy.trace].
    rewrite !fetches_app, !requests_app. cbn. repeat split; lia.
Qed.

Lemma init_of_loaded_module id secret now :
  Legacy.init id secret (Legacy.loaded now) =
  Legacy.getToken
    {| Legacy.API_USER_ID := id; Legacy.API_SECRET := secret;
       Legacy.TOKEN := JStr ""; Legacy.TOKEN_STORAGE := [];
       Legacy.clock := now; Legacy.trace := [] |}.
Proof. reflexivity. Qed.

(** C4. If the token fetch fails, the held token and its expiry are as they
    were, the error is the outcome of the authorized operation that
    triggered the fetch, and the fetch was attempted once.  In the
    TypeScript client the operation is any authorized [sendRequest] on an
    absent or expired token; in the legacy module it is [init]. *)
Theorem failed_fetch_leaves_token :
  (forall (m m' : Machine) (e : JSError),
      getToken m = (Throw e, m') ->
      token (this m') = token (this m) /\
      this m' = this m /\
      fetches (trace m') = S (fetches (trace m)) /\
      (requests (trace m') <= S (requests (trace m)))%nat /\
      forall path method payload,
        token_stale (token (this m)) (clock m) = true ->
        sendRequest path method (JObj payload) true m = (Throw e, m')) /\
  (forall (lm lm' : Legacy.Machine) (e : JSError),
      Legacy.getToken lm = (Throw e, lm') ->
      Legacy.TOKEN lm' = Legacy.TOKEN lm /\
      Legacy.TOKEN_STORAGE lm' = Legacy.TOKEN_STORAGE lm /\
      fetches (Legacy.trace lm') = S (fetches (Legacy.trace lm)) /\
      (requests (Legacy.trace lm') <= S (requests (Legacy.trace lm)))%nat) /\
  (forall (id secret : JSVal) (now : Z) (lm' : Legacy.Machine) (e : JSError),
      Legacy.getToken
        {| Legacy.API_USER_ID := id; Legacy.API_SECRET := secret;
           Legacy.TOKEN := JStr ""; Legacy.TOKEN_STORAGE := [];
           Legacy.clock := now; Legacy.trace := [] |} = (Throw e, lm') ->
      Legacy.init id secret (Legacy.loaded now) = (Throw e, lm') /\
      Legacy.TOKEN lm' = JStr "").
Proof.
  split; [|split].
  - intros m m' e Hg.
    destruct (failed_fetch_client m e m' Hg) as (Hthis & Hf & Hr & Hprop).
    split; [now rewrite Hthis|]. auto.
  - intros lm lm' e Hg. exact (failed_fetch_legacy lm e lm' Hg).
  - intros id secret now lm' e Hg.
    rewrite init_of_loaded_module. split; [exact Hg|].
    now destruct (failed_fetch_legacy _ _ _ Hg) as (-> & _).
Qed.

Lemma stale_before tok e now :
  expires_at tok = Fin e -> now < e -> token_stale (Some tok) now = false.
Proof.
  intros He Hlt. unfold token_stale, js_ge. rewrite He.
  rewrite Z.geb_leb. now apply Z.leb_gt.
Qed.

Lemma stale_from tok e now :
  expires_at tok = Fin e -> e <= now -> token_stale (Some tok) now = true.
Proof.
  intros He Hle. unfold token_stale, js_ge. rewrite He.
  rewrite Z.geb_leb. now apply Z.leb_le.
Qed.

(** C2. A token fetched at time [t] (the clock when the response is
    processed) from a response with [expires_in = N] expires at
    [t + (N - 60)] seconds.  Checked 61 seconds before the reported end of
    life it is still valid and no fetch happens; checked 59 seconds before,
    it is expired and the call fetches again.  The clock is in
    milliseconds; [t], the margin in milliseconds and the two instants of
    the checks are safe integers, on which the arithmetic of the code is
    exact. *)
Theorem token_expiry_margin :
  forall (m : Machine) (href : string) (latency N : Z) (body : JSVal),
    URL_href "oauth/access_token" (apiUrl (this m)) = Some href ->
    axios_request (trace m ++ [EvGetToken]) (clock m)
      (token_request (this m) href) = (latency, Resolved body) ->
    get_prop body "expires_in" = Ok (JNum (Fin N)) ->
    safe_integer (clock m + latency) ->
    safe_integer ((N - 60) * 1000) ->
    safe_integer (clock m + latency + (N - 61) * 1000) ->
    safe_integer (clock m + latency + (N - 59) * 1000) ->
    exists m' tok,
      getToken m = (Ok tt, m') /\
      token (this m') = Some tok /\
      clock m' = clock m + latency /\
      expires_at tok = Fin (clock m' + (N - 60) * 1000) /\
      token_stale (Some tok) (clock m' + (N - 61) * 1000) = false /\
      token_stale (Some tok) (clock m' + (N - 59) * 1000) = true /\
      (forall path method payload,
          fetches (trace (snd (sendRequest path method (JObj payload) true
                                 (elapse ((N - 61) * 1000) m')))) =
          fetches (trace m')) /\
      (forall path method payload,
          fetches (trace (snd (sendRequest path method (JObj payload) true
                                 (elapse ((N - 59) * 1000) m')))) =
          S (fetches (trace m'))).
Proof.
  intros m href latency N body Hurl Hax Hexp _ _ _ _.
  assert (Hbody : exists v, get_prop body "access_token" = Ok v)
    by (destruct body; try discriminate; cbn; eauto).
  destruct Hbody as [v Hv].
  pose proof (getToken_unfold m) as Hg. cbv zeta in Hg.
  rewrite Hurl in Hg. cbn [logged trace clock] in Hg. rewrite Hax, Hv in Hg.
  set (t := clock m + latency).
  set (tok := token_of_response body t).
  assert (Hat : expires_at tok = Fin (t + (N - 60) * 1000))
    by (unfold tok, token_of_response; cbn [expires_at]; now rewrite Hexp).
  eexists. exists tok. split; [exact Hg|].
  cbn [with_token elapse logged this clock trace token]. fold t.
  split; [reflexivity|]. split; [reflexivity|]. split; [exact Hat|].
  assert (Hbefore : token_stale (Some tok) (t + (N - 61) * 1000) = false)
    by (apply (stale_before _ _ _ Hat); lia).
  assert (Hafter : token_stale (Some tok) (t + (N - 59) * 1000) = true)
    by (apply (stale_from _ _ _ Hat); lia).
  split; [exact Hbefore|]. split; [exact Hafter|].
  split; intros path0 method0 payload0.
  - apply (sendRequest_valid path0 method0 payload0). exact Hbefore.
  - apply (sendRequest_stale path0 method0 payload0). exact Hafter.
Qed.




(** ** The endpoint methods *)

Ltac unfold_endpoints :=
  unfold call, listAddressBooks, createAddressBook, editAddressBook, removeAddressBook, listEmailTemplates, getEmailTemplate, getBookInfo, getAddressBookEmails, addAddressBookEmails, removeAddressBookEmails, getEmailInfo, updateEmailVariables, campaignCost, listCampaigns, getCampaignInfo, campaignStatByCountries, campaignStatByReferrals, createCampaign, cancelCampaign, listSenders, addSender, removeSender, activateSender, getSenderActivationMail, getEmailGlobalInfo, removeEmailFromAllBooks, emailStatByCampaigns, getBlackList, addToBlackList, removeFromBlackList, getBalance, smtpListEmails, smtpGetEmailInfoById, smtpUnsubscribeEmails, smtpRemoveFromUnsubscribe, smtpListIP, smtpListAllowedDomains, smtpAddDomain, smtpVerifyDomain, smtpSendMail, smsGetBlackList, smsAddPhones, smsAddPhonesWithVariables, smsRemovePhones, smsGetPhoneInfo, smsUpdatePhonesVariables, smsGetPhonesInfoFromBlacklist, smsAddPhonesToBlacklist, smsDeletePhonesFromBlacklist, smsAddCampaign, smsSend, smsGetListCampaigns, smsGetCampaignInfo, smsCancelCampaign, smsGetCampaignCost, smsDeleteCampaign.

Ltac unfold_async :=
  unfold has_length, base64; unfold bind, lift, ret, throw.

(** Case analysis on the tests a method makes on its arguments. *)
Ltac split_tests :=
  repeat
    (match goal with
     | |- context [is_undefined ?v] =>
         lazymatch v with
         | JUndefined => fail
         | _ => destruct (is_undefined v) eqn:?
         end
     | |- context [js_length ?v] => destruct (js_length v) eqn:?
     | |- context [truthy ?v] => destruct (truthy v) eqn:?
     | |- context [Buffer_base64 ?v] => destruct (Buffer_base64 v) eqn:?
     end; cbn [andb orb negb fst snd]).

(** The tests [x === undefined] on the arguments that are known to be
    given, [Hg] saying so of the positions of a table. *)
Ltac use_guards Hg :=
  repeat match goal with
         | |- context [is_undefined (?get ?args ?k)] =>
             rewrite (Hg k ltac:(cbn; auto 10))
         end.

(** Every endpoint method either throws before anything is sent, leaving the
    machine as it was, or is one authorized dispatch of a payload object. *)
Lemma call_dispatches (e : Endpoint) (args : list JSVal) :
  (exists err, forall m, call e args m = (Throw err, m)) \/
  (exists p mt d, forall m, call e args m = sendRequest p mt (JObj d) true m).
Proof.
  destruct e; unfold_endpoints; unfold_async; split_tests;
    solve [ left; eexists; intros; reflexivity
          | right; do 3 eexists; intros; reflexivity ].
Qed.

Lemma nonempty_length_truthy (l : list JSVal) :
  l <> [] -> truthy (JNum (Fin (Z.of_nat (List.length l)))) = true.
Proof.
  destruct l as [|x l]; [congruence|]. intros _. cbn [truthy List.length].
  apply negb_true_iff, Z.eqb_neq. lia.
Qed.


(** In the TypeScript client a method that passes an argument to
    [JSON.stringify], called with a non-empty array [l] in that place and
    with the arguments it compares with [undefined] given, dispatches a
    payload whose field is [JSON.stringify(l)]. *)
Lemma json_list_payload_client e i field args l :
  json_list_arg e = Some (i, field) ->
  arg args i = JArr l ->
  l <> [] ->
  (forall k, In k (guarded_args e) -> is_undefined (arg args k) = false) ->
  exists p mt d,
    (forall m, call e args m = sendRequest p mt (JObj d) true m) /\
    obj_get d field = JSON_stringify (JArr l).
Proof.
  intros Htab Harg Hne Hg. pose proof (nonempty_length_truthy l Hne) as Hlen.
  destruct e; cbn [json_list_arg] in Htab; try discriminate;
    injection Htab as <- <-; cbn [guarded_args] in Hg;
    unfold_endpoints; rewrite Harg; use_guards Hg;
    unfold_async; unfold array_nonempty;
    cbn [is_undefined Array_isArray js_length typeof_string andb orb negb];
    rewrite ?Hlen; cbn [andb orb negb]; split_tests;
    do 3 eexists; (split; [intros; reflexivity|reflexivity]).
Qed.

Ltac unfold_legacy :=
  unfold Legacy.call, Legacy.smsAddPhones, Legacy.smsAddPhonesWithVariables,
    Legacy.smsRemovePhones, Legacy.smsUpdatePhonesVariables,
    Legacy.smsGetPhonesInfoFromBlacklist, Legacy.smsAddPhonesToBlacklist,
    Legacy.smsDeletePhonesFromBlacklist, Legacy.smsSend,
    Legacy.smsGetCampaignCost;
  unfold Legacy.undefined_or_empty, Legacy.undefined_or_no_keys;
  unfold Legacy.has_length; unfold bind, lift, ret, throw.

Ltac split_legacy_tests :=
  repeat
    (match goal with
     | |- context [is_undefined ?v] =>
         lazymatch v with
         | JUndefined => fail
         | _ => destruct (is_undefined v) eqn:?
         end
     | |- context [js_length ?v] => destruct (js_length v) eqn:?
     | |- context [Legacy.Object_keys_length ?v] =>
         destruct (Legacy.Object_keys_length v) eqn:?
     | |- context [truthy ?v] => destruct (truthy v) eqn:?
     end; cbn [andb orb negb fst snd]).

(** A computation that resolves without touching the state. *)
Lemma bind_ok {S A B : Type} (c : Async S A) (k : A -> Async S B) (a : A)
    (m : S) :
  c m = (Ok a, m) -> bind c k m = k a m.
Proof. intros H. unfold bind. now rewrite H. Qed.

(** A non-empty array passes the test [x === undefined || !x.length]. *)
Lemma nonempty_array_passes (l : list JSVal) (m : Legacy.Machine) :
  l <> [] -> Legacy.undefined_or_empty (JArr l) m = (Ok false, m).
Proof.
  intros Hne. unfold Legacy.undefined_or_empty, Legacy.has_length, bind, lift, ret.
  cbn [is_undefined js_length]. now rewrite (nonempty_length_truthy l Hne).
Qed.

Lemma nonempty_array_has_length (l : list JSVal) (m : Legacy.Machine) :
  l <> [] -> Legacy.has_length (JArr l) m = (Ok true, m).
Proof.
  intros Hne. unfold Legacy.has_length, bind, lift, ret.
  cbn [js_length]. now rewrite (nonempty_length_truthy l Hne).
Qed.

(** A value with an own key passes the test
    [x === undefined || !Object.keys(x).length]. *)
Lemma own_key_passes (v : JSVal) (m : Legacy.Machine) :
  own_properties v <> [] -> Legacy.undefined_or_no_keys v m = (Ok false, m).
Proof.
  intros Hkeys. unfold Legacy.undefined_or_no_keys, bind, lift, ret.
  assert (Hlen : truthy (JNum (Fin (Z.of_nat
                   (List.length (own_properties v))))) = true).
  { destruct (own_properties v) as [|kv o]; [congruence|].
    cbn [List.length truthy]. apply negb_true_iff, Z.eqb_neq. lia. }
  destruct v; cbn [own_properties] in Hkeys; try congruence;
    cbn [is_undefined Legacy.Object_keys_length]; now rewrite Hlen.
Qed.

(** The same in the legacy module, for the wrappers that encode a list of
    phones: with the arguments they compare with [undefined] given, and an
    own key in the argument of which they demand one. *)
Lemma json_list_payload_legacy e args l :
  Legacy.arg args (Legacy.phones_arg e) = JArr l ->
  l <> [] ->
  (forall k, In k (Legacy.required_args e) ->
             is_undefined (Legacy.arg args k) = false) ->
  (forall k, In k (Legacy.keyed_args e) ->
             own_properties (Legacy.arg args k) <> []) ->
  exists p mt d,
    (forall m, Legacy.call e args m =
               Legacy.sendRequest p mt (JObj d) true m) /\
    obj_get d "phones" = JSON_stringify (JArr l).
Proof.
  intros Harg Hne Hg Hk.
  assert (Hkeys : own_properties (JArr l) <> [])
    by (destruct l; [congruence|discriminate]).
  destruct e; cbn [Legacy.phones_arg] in Harg;
    cbn [Legacy.required_args] in Hg; cbn [Legacy.keyed_args] in Hk;
    unfold Legacy.call, Legacy.smsAddPhones, Legacy.smsAddPhonesWithVariables,
      Legacy.smsRemovePhones, Legacy.smsUpdatePhonesVariables,
      Legacy.smsGetPhonesInfoFromBlacklist, Legacy.smsAddPhonesToBlacklist,
      Legacy.smsDeletePhonesFromBlacklist, Legacy.smsSend,
      Legacy.smsGetCampaignCost;
    rewrite Harg; use_guards Hg;
    do 3 eexists;
    (split;
     [ intros m;
       repeat first
         [ rewrite (bind_ok _ _ _ m (nonempty_array_passes l m Hne))
         | rewrite (bind_ok _ _ _ m (nonempty_array_has_length l m Hne))
         | rewrite (bind_ok _ _ _ m (own_key_passes _ m Hkeys))
         | rewrite (bind_ok _ _ _ m
                      (own_key_passes _ m (Hk 2%nat (or_introl eq_refl))))
         | progress cbv beta iota ];
       reflexivity
     | reflexivity ]).
Qed.

(** *** The encoding of a list of strings can be read back *)

Lemma string_app_assoc (a b c : string) : ((a ++ b) ++ c = a ++ (b ++ c))%string.
Proof. induction a as [|x a IH]; cbn; [reflexivity|now rewrite IH]. Qed.

Lemma string_app_length (a b : string) :
  String.length (a ++ b) = (String.length a + String.length b)%nat.
Proof. induction a as [|x a IH]; cbn; [reflexivity|now rewrite IH]. Qed.

Lemma json_unescape_char (c : ascii) (tail : string) :
  json_unescape (json_escape_char c ++ tail) = prepend c (json_unescape tail).
Proof. destruct c as [[] [] [] [] [] [] [] []]; reflexivity. Qed.

Lemma json_unescape_escape (s rest : string) :
  json_unescape (json_escape s ++ dquote ++ rest) = Some (s, rest).
Proof.
  induction s as [|c s IH]; [reflexivity|].
  cbn [json_escape]. rewrite string_app_assoc, json_unescape_char, IH.
  reflexivity.
Qed.

Lemma json_parse_items_quoted (l : list string) :
  forall (x : string) (fuel : nat),
    (List.length (x :: l) <= fuel)%nat ->
    json_parse_items fuel (String.concat "," (map json_quote (x :: l)) ++ "]")
    = Some (x :: l).
Proof.
  induction l as [|y l IH]; intros x fuel Hfuel;
    (destruct fuel as [|fuel]; [cbn in Hfuel; lia|]).
  - cbn [map String.concat]. unfold json_quote at 1.
    rewrite !string_app_assoc.
    change (dquote ++ json_escape x ++ dquote ++ "]")%string
      with (String (ascii_of_nat 34) (json_escape x ++ dquote ++ "]")).
    cbn [json_parse_items]. rewrite json_unescape_escape. reflexivity.
  - change (String.concat "," (map json_quote (x :: y :: l)))
      with (json_quote x ++ "," ++ String.concat "," (map json_quote (y :: l)))%string.
    unfold json_quote at 1. rewrite !string_app_assoc.
    change (dquote ++ ?t)%string with (String (ascii_of_nat 34) t).
    cbn [json_parse_items].
    change (Nat.eqb (nat_of_ascii (ascii_of_nat 34)) 34) with true.
    cbv iota. rewrite json_unescape_escape.
    change ("," ++ ?t)%string with (String (ascii_of_nat 44) t).
    cbv iota beta.
    change (Nat.eqb (nat_of_ascii (ascii_of_nat 44)) 44) with true.
    cbv iota. rewrite IH; [reflexivity|]. cbn in Hfuel |- *. lia.
Qed.

Lemma json_quoted_length (l : list string) :
  (List.length l <=
   String.length (String.concat "," (map json_quote l) ++ "]"))%nat.
Proof.
  rewrite string_app_length. cbn [String.length].
  enough (List.length l <=
          S (String.length (String.concat "," (map json_quote l))))%nat by lia.
  induction l as [|x l IH]; [cbn; lia|].
  destruct l as [|y l]; [cbn; lia|].
  change (String.concat "," (map json_quote (x :: y :: l)))
    with (json_quote x ++ "," ++ String.concat "," (map json_quote (y :: l)))%string.
  rewrite !string_app_length. cbn [List.length String.length] in *. lia.
Qed.

(** [JSON.stringify] of an array of strings is read back as the same list,
    element by element and in the same order. *)
Lemma JSON_parse_stringify_strings (l : list string) :
  JSON_parse_strings (JSON_stringify (JArr (map JStr l))) = Some l.
Proof.
  unfold JSON_stringify. cbn [json_text].
  rewrite map_map. cbn [json_text].
  change (map (fun x : string => json_quote x) l) with (map json_quote l).
  destruct l as [|x l]; [reflexivity|].
  change ("[" ++ ?t)%string with (String (ascii_of_nat 91) t).
  cbn [JSON_parse_strings].
  change (Nat.eqb (nat_of_ascii (ascii_of_nat 91)) 91) with true. cbv iota.
  pose proof (json_parse_items_quoted l x _ (json_quoted_length (x :: l))) as H.
  revert H.
  destruct (String.concat "," (map json_quote (x :: l)) ++ "]")%string
    as [|q [|q' t]] eqn:E; intros H.
  - cbn in H. discriminate.
  - destruct (Nat.eqb (nat_of_ascii q) 93) eqn:Hq; [|exact H].
    cbn [json_parse_items String.length] in H.
    destruct (Nat.eqb (nat_of_ascii q) 34) eqn:Hq'.
    + apply Nat.eqb_eq in Hq, Hq'. congruence.
    + discriminate.
  - exact H.
Qed.

(** C7. A wrapper that JSON-encodes a list, given a non-empty array and
    the other arguments that it demands, sends to the dispatch a payload
    whose field is the JSON text of exactly that array; [json_text] writes
    the elements in the order of the array, and the text of an array of
    strings is read back as the same list.  The arguments demanded are those
    the wrapper compares with [undefined] ([guarded_args] in the TypeScript
    client, [required_args] in the legacy module, where [keyed_args] must
    have an own key besides).  For [smsAddPhones] the whole dispatch is
    given, in both variants. *)
Theorem json_list_payload :
  (forall (e : Endpoint) (i : nat) (field : string) (args l : list JSVal),
      json_list_arg e = Some (i, field) ->
      arg args i = JArr l ->
      l <> [] ->
      (forall k, In k (guarded_args e) -> is_undefined (arg args k) = false) ->
      exists p mt d,
        (forall m, call e args m = sendRequest p mt (JObj d) true m) /\
        obj_get d field = JSON_stringify (JArr l)) /\
  (forall (e : Legacy.PhonesEndpoint) (args l : list JSVal),
      Legacy.arg args (Legacy.phones_arg e) = JArr l ->
      l <> [] ->
      (forall k, In k (Legacy.required_args e) ->
                 is_undefined (Legacy.arg args k) = false) ->
      (forall k, In k (Legacy.keyed_args e) ->
                 own_properties (Legacy.arg args k) <> []) ->
      exists p mt d,
        (forall m, Legacy.call e args m =
                   Legacy.sendRequest p mt (JObj d) true m) /\
        obj_get d "phones" = JSON_stringify (JArr l)) /\
  (forall (l : list JSVal) (comment : JSVal) (m : Machine),
      l <> [] ->
      smsAddPhones (JArr l) comment m =
      sendRequest "sms/black_list/add" (JStr "POST")
        (JObj (if is_undefined comment
               then [("phones", JSON_stringify (JArr l))]
               else [("phones", JSON_stringify (JArr l)); ("comment", comment)]))
        true m) /\
  (forall (l : list JSVal) (addressbook_id : JSVal) (lm : Legacy.Machine),
      l <> [] ->
      is_undefined addressbook_id = false ->
      Legacy.smsAddPhones addressbook_id (JArr l) lm =
      Legacy.sendRequest "sms/numbers" (JStr "POST")
        (JObj [ ("addressBookId", addressbook_id);
                ("phones", JSON_stringify (JArr l)) ])
        true lm) /\
  (forall l : list JSVal,
      JSON_stringify (JArr l) =
      JStr ("[" ++ String.concat ","
                     (map (fun x => match json_text x with
                                    | Some t => t
                                    | None => "null"
                                    end) l) ++ "]")) /\
  (forall l : list string,
      JSON_parse_strings (JSON_stringify (JArr (map JStr l))) = Some l).
Proof.
  split; [exact json_list_payload_client|].
  split; [exact json_list_payload_legacy|].
  split; [|split; [|split; [|exact JSON_parse_stringify_strings]]].
  - intros l comment m Hne.
    unfold smsAddPhones, array_nonempty.
    cbn [is_undefined Array_isArray js_length andb].
    rewrite (nonempty_length_truthy l Hne).
    destruct comment; reflexivity.
  - intros l addressbook_id lm Hne Hid.
    unfold Legacy.smsAddPhones, Legacy.undefined_or_empty, Legacy.has_length,
      bind, lift, ret, throw.
    rewrite Hid. cbn [is_undefined js_length].
    now rewrite (nonempty_length_truthy l Hne).
  - intros l. reflexivity.
Qed.

(** C8. The raw dispatch accepts exactly the verbs POST, GET, DELETE, PUT
    and PATCH, which it forwards to the authorized dispatch; any other verb,
    HEAD among them, is refused with 'Unknown method: ...' before anything
    is sent.  Both variants. *)
Theorem raw_dispatch_verbs :
  (forall (path : string) (method data : JSVal) (m : Machine),
      sendRequestRaw path method data m =
      if includes raw_methods method
      then sendRequest path method
             (if is_undefined data then JObj [] else data) true m
      else (Throw (Error ("Unknown method: " ++ ToString method)), m)) /\
  (forall (path : string) (method data : JSVal) (lm : Legacy.Machine),
      Legacy.sendRawRequest path method data lm =
      if includes Legacy.raw_methods method
      then Legacy.sendRequest path method
             (if is_undefined data then JObj [] else data) true lm
      else (Throw (Error ("Unknown method: " ++ ToString method)), lm)) /\
  (forall v : JSVal,
      includes raw_methods v = true <->
      In v [JStr "POST"; JStr "GET"; JStr "DELETE"; JStr "PUT"; JStr "PATCH"]) /\
  Legacy.raw_methods = raw_methods /\
  (forall (path : string) (data : JSVal) (m : Machine),
      sendRequestRaw path (JStr "HEAD") data m =
      (Throw (Error "Unknown method: HEAD"), m)) /\
  (forall (path : string) (data : JSVal) (m : Machine),
      sendRequestRaw path (JStr "PATCH") data m =
      sendRequest path (JStr "PATCH")
        (if is_undefined data then JObj [] else data) true m).
Proof.
  split; [|split; [|split; [|split; [|split]]]].
  - intros path method data m. unfold sendRequestRaw.
    destruct (includes raw_methods method); reflexivity.
  - intros path method data lm. unfold Legacy.sendRawRequest.
    destruct (includes Legacy.raw_methods method); reflexivity.
  - intros v. split.
    + destruct v; cbn [includes]; try discriminate.
      unfold raw_methods. cbn [existsb]. rewrite !orb_true_iff, !String.eqb_eq.
      intros [->|[->|[->|[->|[->|H]]]]]; try discriminate H; cbn; auto 10.
    + cbn [In]. intros [<-|[<-|[<-|[<-|[<-|[]]]]]]; reflexivity.
  - reflexivity.
  - reflexivity.
  - reflexivity.
Qed.

(** A token whose expiry is [NaN] passes every expiry check. *)
Lemma perform_all_nan cs :
  forall m tok,
    token (this m) = Some tok -> expires_at tok = NaN ->
    this (perform_all cs m) = this m /\
    fetches (trace (perform_all cs m)) = fetches (trace m).
Proof.
  induction cs as [|c cs IH]; intros m tok Ht He; cbn [perform_all].
  - split; reflexivity.
  - assert (Hv : token_stale (token (this (elapse (pause c) m)))
                   (clock (elapse (pause c) m)) = false).
    { cbn [elapse this clock]. rewrite Ht. unfold token_stale, js_ge.
      now rewrite He. }
    destruct (sendRequest_valid (path c) (verb c) (payload c) _ Hv)
      as [Hthis Hf].
    fold (perform c m) in Hthis, Hf. cbn [elapse this trace] in Hthis, Hf.
    assert (Ht' : token (this (perform c m)) = Some tok) by now rewrite Hthis.
    destruct (IH (perform c m) tok Ht' He) as [Hthis' Hf'].
    split; [now rewrite Hthis'|now rewrite Hf'].
Qed.

(** C9, as the code has it.  When the response of the token endpoint has no
    [expires_in], the fetch succeeds all the same: the returned token is
    stored with the expiry [NaN].  No later expiry check finds it expired,
    so the authorized calls that follow never fetch again and keep
    presenting it. *)
Theorem missing_expires_in_gives_unexpiring_token :
  forall (m : Machine) (href : string) (latency : Z) (body : JSVal),
    URL_href "oauth/access_token" (apiUrl (this m)) = Some href ->
    axios_request (trace m ++ [EvGetToken]) (clock m)
      (token_request (this m) href) = (latency, Resolved body) ->
    get_prop body "expires_in" = Ok JUndefined ->
    exists m' tok,
      getToken m = (Ok tt, m') /\
      token (this m') = Some tok /\
      get_prop body "access_token" = Ok (access_token tok) /\
      expires_at tok = NaN /\
      (forall now, token_stale (Some tok) now = false) /\
      forall cs : list AuthorizedCall,
        fetches (trace (perform_all cs m')) = fetches (trace m') /\
        token (this (perform_all cs m')) = Some tok.
Proof.
  intros m href latency body Hurl Hax Hexp.
  assert (Hbody : exists v, get_prop body "access_token" = Ok v)
    by (destruct body; try discriminate; cbn; eauto).
  destruct Hbody as [v Hv].
  pose proof (getToken_unfold m) as Hg. cbv zeta in Hg.
  rewrite Hurl in Hg. cbn [logged trace clock] in Hg. rewrite Hax, Hv in Hg.
  set (tok := token_of_response body (clock m + latency)).
  assert (Hat : expires_at tok = NaN)
    by (unfold tok, token_of_response; cbn [expires_at]; now rewrite Hexp).
  eexists. exists tok. split; [exact Hg|].
  cbn [with_token elapse logged this clock trace token].
  split; [reflexivity|].
  split; [unfold tok, token_of_response; cbn [access_token]; now rewrite Hv|].
  split; [exact Hat|].
  split; [intros now; unfold token_stale, js_ge; now rewrite Hat|].
  intros cs.
  match goal with
  | |- context [perform_all cs ?m'] =>
      destruct (perform_all_nan cs m' tok eq_refl Hat) as [Hthis Hf]
  end.
  split; [exact Hf|now rewrite Hthis].
Qed.

(** C10. In the legacy module [getBalance()] without a currency throws a
    [TypeError] before anything is sent, and [getBalance(currency)] with a
    truthy currency asks for the plain path 'balance'.  The currency never
    reaches the path: the only other path is 'balance/', for the empty
    string. *)
Theorem legacy_getBalance_ignores_currency :
  (forall lm : Legacy.Machine,
      Legacy.getBalance JUndefined lm = (Throw TypeError, lm)) /\
  (forall (currency : JSVal) (lm : Legacy.Machine),
      truthy currency = true ->
      Legacy.getBalance currency lm =
      Legacy.sendRequest "balance" (JStr "GET") (JObj []) true lm) /\
  (forall (currency : JSVal) (lm : Legacy.Machine),
      Legacy.getBalance currency lm = (Throw TypeError, lm) \/
      Legacy.getBalance currency lm =
      Legacy.sendRequest "balance" (JStr "GET") (JObj []) true lm \/
      (currency = JStr "" /\
       Legacy.getBalance currency lm =
       Legacy.sendRequest "balance/" (JStr "GET") (JObj []) true lm)).
Proof.
  split; [reflexivity|]. split.
  - intros currency lm Ht. unfold Legacy.getBalance, bind, ret.
    now rewrite Ht.
  - intros currency lm. unfold Legacy.getBalance, bind, ret, lift.
    destruct (truthy currency) eqn:Ht; [right; left; reflexivity|].
    destruct currency as [| |b|n|s|l|o|t x i]; cbn [Legacy.toUpperCase_of_falsy];
      try (left; reflexivity).
    destruct s; [right; right; split; reflexivity|discriminate].
Qed.

End Properties.

(** ** The properties on concrete runs

    The end-to-end scenario: a client for id 'abc' and secret 'xyz',
    constructed at time 1000, with a token endpoint that answers
    [{access_token: 'T1', expires_in: 3600}] after 5 ms. *)

Lemma authorized_request_carries_current_token_witness :
  exists tok,
    token (this scenario_ready) = Some tok /\
    obj_get (headers scenario_request) "Authorization" =
      JStr ("Bearer " ++ ToString (access_token tok)) /\
    trace (snd (sendRequest (RT := answering T1_3600)
                  "addressbooks" (JStr "GET") (JObj []) true scenario)) =
      (trace scenario_ready ++ [EvRequest scenario_request])%list /\
    token_stale (Some tok) (clock scenario_ready) = false.
Proof.
  destruct (authorized_request_carries_current_token
              (RT := answering T1_3600)
              "addressbooks" (JStr "GET") (JObj [])
              scenario scenario_ready scenario_request eq_refl)
    as (_ & Htrace & tok & Htok & _ & Hheader & Hfetched).
  exists tok. split; [exact Htok|]. split; [exact Hheader|].
  split; [exact Htrace|].
  destruct Hfetched as (href & latency & body & Hurl & Hax & _ & _ & _ & Hfresh).
  injection Hurl as <-. vm_compute in Hax. injection Hax as <- <-.
  apply (Hfresh 3600); [reflexivity| | |];
    unfold safe_integer; simpl; lia.
Defined.

Lemma token_expiry_margin_witness :
  exists m' tok,
    getToken (RT := answering T1_3600) scenario = (Ok tt, m') /\
    token (this m') = Some tok /\
    clock m' = 1005 /\
    expires_at tok = Fin (clock m' + (3600 - 60) * 1000) /\
    token_stale (Some tok) (clock m' + (3600 - 61) * 1000) = false /\
    token_stale (Some tok) (clock m' + (3600 - 59) * 1000) = true.
Proof.
  destruct (token_expiry_margin (RT := answering T1_3600)
              scenario "https://api.sendpulse.com/oauth/access_token"
              5 3600 T1_3600 eq_refl eq_refl eq_refl)
    as (m' & tok & Hg & Ht & Hc & He & Hvalid & Hexpired & _);
    try (unfold safe_integer; simpl; lia).
  exists m', tok. repeat split; assumption.
Defined.


Lemma failed_fetch_leaves_token_witness :
  token (this unreachable_after_fetch) = None /\
  sendRequest (RT := unreachable) "addressbooks" (JStr "GET") (JObj []) true
    scenario =
  (Throw (Rejected (JStr "ECONNREFUSED")), unreachable_after_fetch).
Proof.
  destruct (proj1 (failed_fetch_leaves_token (RT := unreachable))
              scenario unreachable_after_fetch
              (Rejected (JStr "ECONNREFUSED")) eq_refl)
    as (Htok & _ & _ & _ & Hcall).
  split; [exact Htok|].
  exact (Hcall "addressbooks" (JStr "GET") [] eq_refl).
Defined.


Lemma json_list_payload_witness :
  (exists p mt d,
      (forall m,
          call (RT := answering T1_3600) ep_smsAddCampaign
            [JStr "sender"; JStr "hello"; JStr "17";
             JArr [JStr "+1"; JStr "+2"]] m =
          sendRequest (RT := answering T1_3600) p mt (JObj d) true m) /\
      obj_get d "phones" = JSON_stringify (JArr [JStr "+1"; JStr "+2"])) /\
  (exists p mt d,
      (forall m,
          Legacy.call (RT := answering T1_3600) Legacy.ep_smsUpdatePhonesVariables
            [JStr "17"; JArr [JStr "+1"; JStr "+2"];
             JObj [("name", JStr "n")]] m =
          Legacy.sendRequest (RT := answering T1_3600) p mt (JObj d) true m) /\
      obj_get d "phones" = JSON_stringify (JArr [JStr "+1"; JStr "+2"])).
Proof.
  split.
  - apply (proj1 (json_list_payload (RT := answering T1_3600))
             ep_smsAddCampaign 3%nat "phones"
             [JStr "sender"; JStr "hello"; JStr "17";
              JArr [JStr "+1"; JStr "+2"]] [JStr "+1"; JStr "+2"]).
    + reflexivity.
    + reflexivity.
    + discriminate.
    + simpl. intros k [<-|[<-|[<-|[<-|[]]]]]; reflexivity.
  - apply (proj1 (proj2 (json_list_payload (RT := answering T1_3600)))
             Legacy.ep_smsUpdatePhonesVariables
             [JStr "17"; JArr [JStr "+1"; JStr "+2"];
              JObj [("name", JStr "n")]] [JStr "+1"; JStr "+2"]).
    + reflexivity.
    + discriminate.
    + simpl. intros k [<-|[]]. reflexivity.
    + simpl. intros k [<-|[]]. discriminate.
Defined.

Lemma raw_dispatch_verbs_witness :
  includes raw_methods (JStr "PATCH") = true /\
  includes raw_methods (JStr "HEAD") = false.
Proof.
  destruct (raw_dispatch_verbs (RT := answering T1_3600))
    as (_ & _ & Hiff & _).
  split.
  - apply (proj2 (Hiff (JStr "PATCH"))). simpl. do 4 right. left. reflexivity.
  - reflexivity.
Defined.

Lemma missing_expires_in_gives_unexpiring_token_witness :
  exists m' tok,
    getToken (RT := answering T1_no_expiry) scenario = (Ok tt, m') /\
    token (this m') = Some tok /\
    expires_at tok = NaN.
Proof.
  destruct (missing_expires_in_gives_unexpiring_token
              (RT := answering T1_no_expiry)
              scenario "https://api.sendpulse.com/oauth/access_token"
              5 T1_no_expiry eq_refl eq_refl eq_refl)
    as (m' & tok & Hg & Ht & _ & He & _).
  exists m', tok. repeat split; assumption.
Defined.

Lemma legacy_getBalance_ignores_currency_witness :
  Legacy.getBalance (RT := answering T1_3600) (JStr "usd") (Legacy.loaded 0) =
  Legacy.sendRequest (RT := answering T1_3600)
    "balance" (JStr "GET") (JObj []) true (Legacy.loaded 0).
Proof.
  apply (proj1 (proj2 (legacy_getBalance_ignores_currency
                         (RT := answering T1_3600)))).
  reflexivity.
Defined.

(** C1, as the claim states it, fails: the token that a call has just
    fetched is sent whatever its expiry.  With a token endpoint that reports
    a lifetime of 30 seconds the first call of the scenario sends
    [Bearer T1], a token that the expiry check finds expired at that very
    moment and at the end of the call. *)
Lemma fresh_token_is_sent_though_expired :
  exists (req : Request) (m1 : Machine) (tok : TokenData),
    prepareRequest (RT := answering T1_short) (getToken (RT := answering T1_short))
      "addressbooks" (JStr "GET") (JObj []) true scenario = (Ok req, m1) /\
    sendRequest (RT := answering T1_short)
      "addressbooks" (JStr "GET") (JObj []) true scenario =
      axios (RT := answering T1_short) req m1 /\
    token (this m1) = Some tok /\
    obj_get (headers req) "Authorization" =
      JStr ("Bearer " ++ ToString (access_token tok)) /\
    obj_get (headers req) "Authorization" = JStr "Bearer T1" /\
    token_stale (Some tok) (clock m1) = true /\
    token_stale (Some tok)
      (clock (snd (sendRequest (RT := answering T1_short)
                     "addressbooks" (JStr "GET") (JObj []) true scenario))) = true.
Proof.
  do 3 eexists. split; [vm_compute; reflexivity|].
  repeat split.
Qed.


(** C9, as the claim states it, fails: a token response without
    [expires_in] is accepted, the token is held with the expiry [NaN], and a
    call made a year later presents it without fetching. *)
Lemma missing_expires_in_is_not_an_error :
  let fetched := getToken (RT := answering T1_no_expiry) scenario in
  fst fetched = Ok tt /\
  token (this (snd fetched)) =
    Some {| access_token := JStr "T1"; expires_at := NaN |} /\
  let later :=
    listAddressBooks (RT := answering T1_no_expiry)
      (elapse 31536000000 (snd fetched)) in
  fst later = Ok (JObj []) /\
  fetches (trace (snd later)) = 1%nat /\
  exists r,
    last (trace (snd later)) EvGetToken = EvRequest r /\
    obj_get (headers r) "Authorization" = JStr "Bearer T1".
Proof.
  cbv zeta. split; [reflexivity|]. split; [reflexivity|].
  split; [reflexivity|]. split; [reflexivity|].
  eexists. split; [vm_compute; reflexivity|reflexivity].
Qed.

(** The end-to-end scenario of the specification: [listAddressBooks()] on
    the new client sends one request to the token endpoint, then one
    authorized [GET addressbooks] with [Authorization: Bearer T1]. *)
Example end_to_end_scenario :
  trace (snd (listAddressBooks (RT := answering T1_3600) scenario)) =
  [ EvGetToken;
    EvRequest (token_request (this scenario)
                 "https://api.sendpulse.com/oauth/access_token");
    EvRequest scenario_request ].
Proof. reflexivity. Qed.

(** [smsAddPhones(['+1', '+2'])] posts the JSON text of the array, which
    reads back as the two numbers in their order. *)
Example smsAddPhones_scenario :
  exists r,
    last (trace (snd (smsAddPhones (RT := answering T1_3600)
                        (JArr [JStr "+1"; JStr "+2"]) JUndefined scenario)))
      EvGetToken = EvRequest r /\
    JSON_parse_strings (obj_get (own_properties (data r)) "phones") =
      Some ["+1"; "+2"].
Proof. eexists. split; [vm_compute; reflexivity|reflexivity]. Qed.

(** [serializeArray] keeps a nested [Date] as it is; [smtpSendMail] drops
    one that is a field of the email itself, where [serializeArray] is
    applied to it and finds no property. *)
Example serializeArray_keeps_a_Date :
  let d := JDate (Fin 0) "Thu Jan 01 1970 00:00:00 GMT+0000"
             "1970-01-01T00:00:00.000Z" in
  serializeArray (JObj [("at", d); ("n", JNum (Fin 1))]) (Some "p") =
    [("p[at]", d); ("p[n]", JNum (Fin 1))] /\
  smtpSendMail (RT := answering T1_3600)
    (JObj [("subject", JStr "s"); ("at", d);
           ("to", JArr [JObj [("since", d)]])]) scenario =
  sendRequest (RT := answering T1_3600) "smtp/emails" (JStr "POST")
    (JObj [("subj", JStr "s"); ("to[0][since]", d)]) true scenario.
Proof. split; reflexivity. Qed.

(** The legacy module does not reject every empty argument either: an id is
    only compared with [undefined], so [removeAddressBook('')] sends
    [DELETE addressbooks/]. *)
Example legacy_removeAddressBook_empty_id :
  Legacy.removeAddressBook (RT := answering T1_3600) (JStr "") (Legacy.loaded 0) =
  Legacy.sendRequest (RT := answering T1_3600)
    "addressbooks/" (JStr "DELETE") (JObj []) true (Legacy.loaded 0).
Proof. reflexivity. Qed.

(** Nor does the TypeScript client test every declared argument:
    [campaignCost] with [body] left [undefined] is dispatched. *)
Example campaignCost_without_body :
  campaignCost (RT := answering T1_3600)
    (JStr "n") (JStr "s") (JStr "f") (JStr "fn") JUndefined (JStr "7") JUndefined
    scenario =
  sendRequest (RT := answering T1_3600) "campaigns" (JStr "GET")
    (JObj [ ("name", JStr "n"); ("subject", JStr "s"); ("from", JStr "f");
            ("fromName", JStr "fn"); ("body", JUndefined);
            ("addressBookId", JStr "7") ])
    true scenario.
Proof. reflexivity. Qed.

(** * Further properties of the code *)

Section MoreProperties.

Context {RT : Runtime}.

(** The tactics of the case analyses on endpoint methods. *)
Ltac unfold_endpoints :=
  unfold call, listAddressBooks, createAddressBook, editAddressBook, removeAddressBook, listEmailTemplates, getEmailTemplate, getBookInfo, getAddressBookEmails, addAddressBookEmails, removeAddressBookEmails, getEmailInfo, updateEmailVariables, campaignCost, listCampaigns, getCampaignInfo, campaignStatByCountries, campaignStatByReferrals, createCampaign, cancelCampaign, listSenders, addSender, removeSender, activateSender, getSenderActivationMail, getEmailGlobalInfo, removeEmailFromAllBooks, emailStatByCampaigns, getBlackList, addToBlackList, removeFromBlackList, getBalance, smtpListEmails, smtpGetEmailInfoById, smtpUnsubscribeEmails, smtpRemoveFromUnsubscribe, smtpListIP, smtpListAllowedDomains, smtpAddDomain, smtpVerifyDomain, smtpSendMail, smsGetBlackList, smsAddPhones, smsAddPhonesWithVariables, smsRemovePhones, smsGetPhoneInfo, smsUpdatePhonesVariables, smsGetPhonesInfoFromBlacklist, smsAddPhonesToBlacklist, smsDeletePhonesFromBlacklist, smsAddCampaign, smsSend, smsGetListCampaigns, smsGetCampaignInfo, smsCancelCampaign, smsGetCampaignCost, smsDeleteCampaign.

Ltac unfold_async :=
  unfold has_length, base64; unfold bind, lift, ret, throw.

Ltac split_tests :=
  repeat
    (match goal with
     | |- context [is_undefined ?v] =>
         lazymatch v with
         | JUndefined => fail
         | _ => destruct (is_undefined v) eqn:?
         end
     | |- context [js_length ?v] => destruct (js_length v) eqn:?
     | |- context [truthy ?v] => destruct (truthy v) eqn:?
     | |- context [Buffer_base64 ?v] => destruct (Buffer_base64 v) eqn:?
     end; cbn [andb orb negb fst snd]).


(** ** What a dispatch adds to the trace *)

Lemma added_app (old new : list Event) : added old (old ++ new) = new.
Proof.
  unfold added. rewrite skipn_app, skipn_all, Nat.sub_diag. reflexivity.
Qed.

Lemma token_request_declares c href :
  declares_payload (EvRequest (token_request c href)).
Proof.
  unfold declares_payload, token_request, credentials.
  cbn [headers data plain_headers obj_get].
  match goal with
  | |- context [Buffer_byteLength (JSON_stringify (JObj ?o))] =>
      destruct (byteLength_object o) as [n ->]
  end.
  split; reflexivity.
Qed.

Lemma token_request_credentials c href :
  authorized_or_credentials (EvRequest (token_request c href)).
Proof. right. repeat split. Qed.

(** The events of one [getToken]. *)
Lemma getToken_events m :
  exists new,
    trace (snd (getToken m)) = (trace m ++ new)%list /\
    Forall declares_payload new /\
    Forall authorized_or_credentials new /\
    fetches new = 1%nat /\
    (requests new <= 1)%nat /\
    configuration (this (snd (getToken m))) = configuration (this m).
Proof.
  rewrite getToken_unfold. cbv zeta.
  destruct (URL_href _ _) as [href|].
  - exists [EvGetToken; EvRequest (token_request (this m) href)].
    assert (Hd := token_request_declares (this m) href).
    assert (Hc := token_request_credentials (this m) href).
    destruct (axios_request _ _ _) as [latency [body|reason]];
      [destruct (get_prop body "access_token")|];
      cbn [snd with_token elapse logged this clock trace configuration
           clientId clientSecret apiUrl];
      rewrite <- app_assoc; cbn [app];
      (split; [reflexivity|]);
      (split; [repeat constructor; exact Hd|]);
      (split; [repeat constructor; exact Hc|]);
      (split; [reflexivity|]); (split; [cbn; lia|reflexivity]).
  - exists [EvGetToken]. cbn [snd logged this clock trace].
    split; [reflexivity|]. split; [repeat constructor|].
    split; [repeat constructor|]. split; [reflexivity|].
    split; [cbn; lia|reflexivity].
Qed.

Lemma byteLength_serialisable data :
  (exists len, Buffer_byteLength (JSON_stringify data) = Ok len /\
               serialisable data = true) \/
  (Buffer_byteLength (JSON_stringify data) = Throw TypeError /\
   serialisable data = false).
Proof.
  unfold JSON_stringify, serialisable.
  destruct (json_text data); cbn; eauto.
Qed.

(** The request that [sendRequest] prepares. *)
Lemma prepared_request refresh path method data useToken m r m1 :
  prepareRequest refresh path method data useToken m = (Ok r, m1) ->
  declares_payload (EvRequest r) /\
  (useToken = true -> authorized_or_credentials (EvRequest r)) /\
  (useToken = false -> obj_has (headers r) "Authorization" = false).
Proof.
  rewrite prepareRequest_unfold.
  destruct (Buffer_byteLength (JSON_stringify data)) as [len|e] eqn:Hlen;
    [|discriminate].
  cbv zeta. destruct useToken.
  - destruct (if token_stale _ _ then _ else _) as [[[]|e] m2]; [|discriminate].
    destruct (token (this m2)) as [t|]; [|discriminate].
    destruct (URL_href path _); [|discriminate].
    intros H; injection H as <- <-.
    split; [split; [reflexivity|exact Hlen]|].
    split; [|discriminate]. intros _. left. eexists. reflexivity.
  - destruct (URL_href path _); [|discriminate].
    intros H; injection H as <- <-.
    split; [split; [reflexivity|exact Hlen]|].
    split; [discriminate|reflexivity].
Qed.

Lemma prepared_state path method data useToken m :
  let m1 := snd (prepareRequest getToken path method data useToken m) in
  exists new,
    trace m1 = (trace m ++ new)%list /\
    Forall declares_payload new /\
    Forall authorized_or_credentials new /\
    fetches new =
      (if useToken && serialisable data &&
          token_stale (token (this m)) (clock m) then 1 else 0)%nat /\
    (requests new <= fetches new)%nat /\
    configuration (this m1) = configuration (this m) /\
    (fetches new = 0%nat -> this m1 = this m) /\
    (fst (prepareRequest getToken path method data useToken m) = Throw TypeError
     \/ serialisable data = true).
Proof.
  cbv zeta. rewrite prepareRequest_unfold.
  destruct (byteLength_serialisable data) as [(len & -> & ->)|[-> ->]].
  2:{ exists []. rewrite app_nil_r, andb_false_r. cbn.
      repeat split; auto. }
  cbv zeta. rewrite andb_true_r.
  assert (Hnil : forall m0 : Machine,
             trace m0 = (trace m0 ++ [])%list /\
             Forall declares_payload [] /\
             Forall authorized_or_credentials [] /\
             fetches [] = 0%nat /\ (requests [] <= fetches [])%nat /\
             configuration (this m0) = configuration (this m0) /\
             (fetches [] = 0%nat -> this m0 = this m0))
    by (intros m0; rewrite app_nil_r; repeat split; auto).
  destruct useToken; cbn [andb].
  - destruct (token_stale (token (this m)) (clock m)).
    + destruct (getToken_events m) as (new & Htrace & Hd & Hc & Hf & Hr & Hcfg).
      exists new.
      destruct (getToken m) as [[[]|e] m2]; cbn [snd] in *.
      * destruct (token (this m2)) as [t|];
          [destruct (URL_href path _)|]; cbn [snd fst];
          (repeat split; auto; try lia; rewrite Hf; discriminate).
      * repeat split; auto; try lia; rewrite Hf; discriminate.
    + exists [].
      destruct (token (this m)) as [t|];
        [destruct (URL_href path _)|]; cbn [snd fst];
        destruct (Hnil m) as (? & ? & ? & ? & ? & ? & ?); repeat split; auto.
  - exists [].
    destruct (URL_href path _); cbn [snd fst];
      destruct (Hnil m) as (? & ? & ? & ? & ? & ? & ?); repeat split; auto.
Qed.

(** The events of one dispatch. *)
Lemma sendRequest_events path method data useToken m :
  let m' := snd (sendRequest path method data useToken m) in
  exists new,
    trace m' = (trace m ++ new)%list /\
    Forall declares_payload new /\
    (useToken = true -> Forall authorized_or_credentials new) /\
    fetches new =
      (if useToken && serialisable data &&
          token_stale (token (this m)) (clock m) then 1 else 0)%nat /\
    (requests new <= S (fetches new))%nat /\
    configuration (this m') = configuration (this m) /\
    (fetches new = 0%nat -> this m' = this m).
Proof.
  cbv zeta. rewrite sendRequest_unfold.
  pose proof (prepared_state path method data useToken m) as Hs.
  cbv zeta in Hs.
  destruct Hs as (new & Htrace & Hd & Hc & Hf & Hr & Hcfg & Hthis & _).
  destruct (prepareRequest getToken path method data useToken m)
    as [[r|e] m1] eqn:Hp; cbn [snd] in *.
  - destruct (prepared_request _ _ _ _ _ _ _ _ Hp) as (Hrd & Hrc & _).
    exists (new ++ [EvRequest r])%list.
    rewrite axios_trace, axios_this, Htrace, <- app_assoc.
    rewrite fetches_app, requests_app. cbn [fetches requests filter is_fetch
      is_request List.length].
    rewrite Nat.add_0_r.
    split; [reflexivity|].
    split; [apply Forall_app; split;
            [exact Hd|constructor; [exact Hrd|constructor]]|].
    split; [intros Hu; apply Forall_app; split;
            [exact Hc|constructor; [exact (Hrc Hu)|constructor]]|].
    split; [exact Hf|]. split; [lia|]. split; [exact Hcfg|exact Hthis].
  - exists new. split; [exact Htrace|]. split; [exact Hd|].
    split; [intros _; exact Hc|]. split; [exact Hf|]. split; [lia|].
    split; [exact Hcfg|exact Hthis].
Qed.

(** The events of one endpoint method. *)
Lemma call_events e args m :
  let m' := snd (call e args m) in
  exists new,
    trace m' = (trace m ++ new)%list /\
    Forall declares_payload new /\
    Forall authorized_or_credentials new /\
    (fetches new <= 1)%nat /\
    (requests new <= S (fetches new))%nat /\
    (token_stale (token (this m)) (clock m) = false -> fetches new = 0%nat) /\
    configuration (this m') = configuration (this m) /\
    (fetches new = 0%nat -> this m' = this m).
Proof.
  cbv zeta.
  destruct (call_dispatches e args) as [[err H]|(p & mt & d & H)]; rewrite H.
  - exists []. cbn [snd]. rewrite app_nil_r. repeat split; auto.
  - destruct (sendRequest_events p mt (JObj d) true m)
      as (new & Htrace & Hd & Hc & Hf & Hr & Hcfg & Hthis).
    exists new. split; [exact Htrace|]. split; [exact Hd|].
    split; [exact (Hc eq_refl)|].
    split; [rewrite Hf; destruct (_ && _ && _); lia|].
    split; [exact Hr|].
    split; [intros Hv; rewrite Hf, Hv, andb_false_r; reflexivity|].
    split; [exact Hcfg|exact Hthis].
Qed.

(** X1. Every request that [sendRequest] sends, the token request included,
    declares its payload: [Content-Type] is [application/json] and
    [Content-Length] is the byte length of the JSON text of the body. *)
Theorem every_request_declares_its_payload :
  forall (path : string) (method data : JSVal) (useToken : bool) (m : Machine),
    Forall declares_payload
      (added (trace m) (trace (snd (sendRequest path method data useToken m)))).
Proof.
  intros path method data useToken m.
  destruct (sendRequest_events path method data useToken m)
    as (new & -> & Hd & _).
  now rewrite added_app.
Qed.

(** X2. An endpoint method, and the raw dispatch, never send a request
    without a bearer token, the request of credentials to the token endpoint
    (a POST with no [Authorization] header) apart. *)
Theorem endpoint_requests_are_authorized :
  (forall (e : Endpoint) (args : list JSVal) (m : Machine),
      Forall authorized_or_credentials
        (added (trace m) (trace (snd (call e args m))))) /\
  (forall (path : string) (method data : JSVal) (m : Machine),
      Forall authorized_or_credentials
        (added (trace m) (trace (snd (sendRequestRaw path method data m))))).
Proof.
  split.
  - intros e args m.
    destruct (call_events e args m) as (new & -> & _ & Hc & _).
    now rewrite added_app.
  - intros path method data m. unfold sendRequestRaw.
    destruct (negb (includes raw_methods method)).
    + cbn [snd throw]. unfold added. rewrite skipn_all. constructor.
    + destruct (sendRequest_events path method
                  (if is_undefined data then JObj [] else data) true m)
        as (new & -> & _ & Hc & _).
      rewrite added_app. exact (Hc eq_refl).
Qed.

(** X3. An endpoint method only appends to the trace, and what it appends
    is at most one token fetch with its request and one request of its own:
    no retry and no second attempt.  With a token that is still good it
    sends at most its own request. *)
Theorem endpoint_call_is_bounded :
  forall (e : Endpoint) (args : list JSVal) (m : Machine),
    let m' := snd (call e args m) in
    let new := added (trace m) (trace m') in
    trace m' = (trace m ++ new)%list /\
    (fetches new <= 1)%nat /\
    (requests new <= 2)%nat /\
    (List.length new <= 3)%nat /\
    (token_stale (token (this m)) (clock m) = false ->
     fetches new = 0%nat /\ (requests new <= 1)%nat).
Proof.
  intros e args m. cbv zeta.
  destruct (call_events e args m) as (new & -> & _ & _ & Hf & Hr & Hv & _).
  rewrite added_app.
  assert (Hlen : List.length new = (fetches new + requests new)%nat).
  { unfold fetches, requests. clear.
    induction new as [|[|r] new IH]; cbn; [reflexivity| |]; lia. }
  split; [reflexivity|]. split; [exact Hf|]. split; [lia|]. split; [lia|].
  intros Hvalid. specialize (Hv Hvalid). split; [exact Hv|lia].
Qed.

(** X4. An authorized dispatch fetches the token exactly when its payload
    has a JSON text and the token is absent or expired.  A payload without
    JSON text ([undefined]) makes the call throw a [TypeError] before the
    token is looked at: nothing is fetched or sent, even with an expired
    token. *)
Theorem fetch_exactly_when_stale :
  forall (path : string) (method data : JSVal) (m : Machine),
    let m' := snd (sendRequest path method data true m) in
    fetches (trace m') =
      (fetches (trace m) +
       (if serialisable data && token_stale (token (this m)) (clock m)
        then 1 else 0))%nat /\
    (serialisable data = false ->
     sendRequest path method data true m = (Throw TypeError, m)).
Proof.
  intros path method data m. cbv zeta. split.
  - destruct (sendRequest_events path method data true m)
      as (new & -> & _ & _ & Hf & _).
    rewrite fetches_app, Hf. reflexivity.
  - intros Hs. rewrite sendRequest_unfold, prepareRequest_unfold.
    destruct (byteLength_serialisable data) as [(len & _ & H)|[-> _]];
      [congruence|reflexivity].
Qed.

(** X5. The client's credentials and base URL are never changed by a token
    fetch, a dispatch or an endpoint method, and the held token changes only
    in a call that fetched. *)
Theorem configuration_is_readonly :
  (forall m : Machine,
      configuration (this (snd (getToken m))) = configuration (this m)) /\
  (forall (path : string) (method data : JSVal) (useToken : bool) (m : Machine),
      let m' := snd (sendRequest path method data useToken m) in
      configuration (this m') = configuration (this m) /\
      (fetches (trace m') = fetches (trace m) -> token (this m') = token (this m))) /\
  (forall (e : Endpoint) (args : list JSVal) (m : Machine),
      let m' := snd (call e args m) in
      configuration (this m') = configuration (this m) /\
      (fetches (trace m') = fetches (trace m) -> token (this m') = token (this m))).
Proof.
  split; [|split].
  - intros m. now destruct (getToken_events m) as (new & _ & _ & _ & _ & _ & H).
  - intros path method data useToken m. cbv zeta.
    destruct (sendRequest_events path method data useToken m)
      as (new & Htrace & _ & _ & _ & _ & Hcfg & Hthis).
    split; [exact Hcfg|]. rewrite Htrace, fetches_app. intros Hf.
    rewrite Hthis; [reflexivity|lia].
  - intros e args m. cbv zeta.
    destruct (call_events e args m)
      as (new & Htrace & _ & _ & _ & _ & _ & Hcfg & Hthis).
    split; [exact Hcfg|]. rewrite Htrace, fetches_app. intros Hf.
    rewrite Hthis; [reflexivity|lia].
Qed.

(** ** The expiry margin on short-lived tokens *)

Lemma getToken_stores m href latency body v :
  URL_href "oauth/access_token" (apiUrl (this m)) = Some href ->
  axios_request (trace m ++ [EvGetToken]) (clock m)
    (token_request (this m) href) = (latency, Resolved body) ->
  get_prop body "expires_in" = Ok v ->
  exists m',
    getToken m = (Ok tt, m') /\
    clock m' = clock m + latency /\
    token (this m') = Some (token_of_response body (clock m')) /\
    expires_at (token_of_response body (clock m')) =
      js_add (Fin (clock m')) (js_mul (js_sub (ToNumber v) (Fin 60)) (Fin 1000)).
Proof.
  intros Hurl Hax Hexp.
  assert (Hbody : exists a, get_prop body "access_token" = Ok a)
    by (destruct body; try discriminate; cbn; eauto).
  destruct Hbody as [a Ha].
  pose proof (getToken_unfold m) as Hg. cbv zeta in Hg.
  rewrite Hurl in Hg. cbn [logged trace clock] in Hg. rewrite Hax, Ha in Hg.
  eexists. split; [exact Hg|].
  cbn [with_token elapse logged this clock trace token].
  split; [reflexivity|]. split; [reflexivity|].
  unfold token_of_response. cbn [expires_at]. now rewrite Hexp.
Qed.

(** X6. A token whose reported lifetime is 60 seconds or less is expired
    from the moment it is stored: the safety margin uses it up.  The next
    authorized call, however soon, fetches again. *)
Theorem short_lived_token_is_stale_at_once :
  forall (m : Machine) (href : string) (latency N : Z) (body : JSVal),
    URL_href "oauth/access_token" (apiUrl (this m)) = Some href ->
    axios_request (trace m ++ [EvGetToken]) (clock m)
      (token_request (this m) href) = (latency, Resolved body) ->
    get_prop body "expires_in" = Ok (JNum (Fin N)) ->
    N <= 60 ->
    exists m' tok,
      getToken m = (Ok tt, m') /\
      token (this m') = Some tok /\
      (forall d, 0 <= d -> token_stale (Some tok) (clock m' + d) = true) /\
      (forall c : AuthorizedCall,
          0 <= pause c ->
          fetches (trace (perform c m')) = S (fetches (trace m'))).
Proof.
  intros m href latency N body Hurl Hax Hexp HN.
  destruct (getToken_stores m href latency body _ Hurl Hax Hexp)
    as (m' & Hg & Hclock & Htok & Hat).
  cbn [ToNumber js_sub js_mul js_add] in Hat.
  exists m', (token_of_response body (clock m')).
  split; [exact Hg|]. split; [exact Htok|].
  assert (Hstale : forall d, 0 <= d ->
            token_stale (Some (token_of_response body (clock m')))
              (clock m' + d) = true)
    by (intros d Hd; apply (stale_from _ _ _ Hat); lia).
  split; [exact Hstale|].
  intros c Hc. unfold perform.
  rewrite (sendRequest_stale (path c) (verb c) (payload c)); [reflexivity|].
  cbn [elapse this clock]. rewrite Htok. exact (Hstale _ Hc).
Qed.

(** ** Arguments of the endpoint methods *)

(** X7. The methods that take a list or a single string: a string is sent
    as the JSON text of a one-element array, which reads back as that
    string; an empty array, and any value that is neither an array nor a
    string, is not refused: the call is dispatched without the field. *)
Theorem single_string_is_sent_as_a_list :
  forall (e : Endpoint) (field : string) (args : list JSVal),
    list_or_string_field e = Some field ->
    (forall s : string,
        arg args 0 = JStr s ->
        exists p mt d,
          (forall m, call e args m = sendRequest p mt (JObj d) true m) /\
          obj_get d field = JSON_stringify (JArr [JStr s]) /\
          JSON_parse_strings (obj_get d field) = Some [s]) /\
    (array_nonempty (arg args 0) = false ->
     typeof_string (arg args 0) = false ->
     is_undefined (arg args 0) = false ->
     exists p mt d,
       (forall m, call e args m = sendRequest p mt (JObj d) true m) /\
       obj_has d field = false).
Proof.
  intros e field args Htab. split.
  - intros s Harg.
    pose proof (JSON_parse_stringify_strings [s]) as Hback.
    cbn [map] in Hback.
    destruct e; cbn [list_or_string_field] in Htab; try discriminate;
      injection Htab as <-;
      unfold_endpoints; rewrite Harg; unfold_async; unfold array_nonempty;
      cbn [is_undefined Array_isArray typeof_string andb]; split_tests;
      do 3 eexists; (split; [intros; reflexivity|]);
      (split; [reflexivity|exact Hback]).
  - intros Harr Hstr Hund.
    destruct e; cbn [list_or_string_field] in Htab; try discriminate;
      injection Htab as <-;
      unfold_endpoints; rewrite Hund, Harr, Hstr; unfold_async; split_tests;
      do 3 eexists; (split; [intros; reflexivity|reflexivity]).
Qed.

(** X8. The listing methods never refuse their arguments: the payload holds
    exactly the arguments that are not [undefined], under their field
    names and in the order of the parameters. *)
Theorem optional_filters_are_left_out :
  forall (e : Endpoint) (p : string) (fields : list string) (args : list JSVal)
         (m : Machine),
    filter_fields e = Some (p, fields) ->
    call e args m =
    sendRequest p (JStr "GET") (JObj (given fields args)) true m.
Proof.
  intros e p fields args m Htab.
  destruct e; cbn [filter_fields] in Htab; try discriminate;
    injection Htab as <- <-; unfold_endpoints; unfold arg;
    destruct args as [|a0 [|a1 [|a2 [|a3 rest]]]]; cbn [nth given hd tl];
    repeat match goal with
           | |- context [is_undefined ?v] =>
               lazymatch v with
               | JUndefined => fail
               | _ => destruct (is_undefined v) eqn:?
               end
           end; reflexivity.
Qed.

(** X9. [smsAddCampaign] and [smsGetCampaignCost] do refuse an empty list
    of phones: with the other arguments given, a [phones] whose [length] is
    falsy (an empty array, an empty string, a number) fails before anything
    is sent; [null], which has no [length], throws a [TypeError]. *)
Theorem empty_phones_are_refused :
  forall (e : Endpoint) (args : list JSVal) (m : Machine),
    needs_phones e = true ->
    is_undefined (arg args 0) = false ->
    is_undefined (arg args 1) = false ->
    is_undefined (arg args 2) = false ->
    is_undefined (arg args 3) = false ->
    match js_length (arg args 3) with
    | Ok len =>
        truthy len = false ->
        call e args m = (Throw (Error "Empty book id or phones"), m)
    | Throw _ => call e args m = (Throw TypeError, m)
    end.
Proof.
  intros e args m Htab H0 H1 H2 H3.
  destruct e; cbn [needs_phones] in Htab; try discriminate;
    unfold_endpoints; rewrite H0, H1, H2, H3; unfold_async;
    destruct (js_length (arg args 3)) as [len|err] eqn:Hlen.
  all: try (intros Hfalsy; rewrite Hfalsy; reflexivity).
  all: destruct (arg args 3); try discriminate;
    cbn [js_length] in Hlen; injection Hlen as <-; reflexivity.
Qed.

(** ** Flattening of nested parameters *)

Lemma JSVal_nested_ind (P : JSVal -> Prop) :
  P JUndefined -> P JNull -> (forall b, P (JBool b)) -> (forall n, P (JNum n)) ->
  (forall s, P (JStr s)) ->
  (forall l, Forall P l -> P (JArr l)) ->
  (forall o, Forall (fun kv => P (snd kv)) o -> P (JObj o)) ->
  (forall t x i, P (JDate t x i)) ->
  forall v, P v.
Proof.
  intros Hu Hn Hb Hnum Hs Ha Ho Hd.
  fix IH 1. intros [| |b|n|s|l|o|t x i];
    [exact Hu|exact Hn|apply Hb|apply Hnum|apply Hs| | |apply Hd].
  - apply Ha. induction l as [|x l IHl]; constructor; [apply IH|exact IHl].
  - apply Ho. induction o as [|[k x] o IHo]; constructor; [apply IH|exact IHo].
Qed.

(** Assignments keep a property of the entries. *)
Lemma obj_set_Forall (Q : string * JSVal -> Prop) o k v :
  Forall Q o -> Q (k, v) -> Forall Q (obj_set o k v).
Proof.
  intros Ho Hv. unfold obj_set.
  destruct (obj_has o k).
  - induction Ho as [|[k' v'] o Hkv Ho IH]; cbn; [constructor|].
    destruct (k' =? k)%string; constructor; auto.
  - destruct (array_index k) as [i|].
    + induction Ho as [|[k' v'] o Hkv Ho IH]; cbn.
      * constructor; [exact Hv|constructor].
      * destruct (array_index k') as [j|]; [destruct (j <? i)%N|];
          repeat (constructor; auto).
    + apply Forall_app. split; [exact Ho|constructor; [exact Hv|constructor]].
Qed.

Lemma Object_assign_Forall (Q : string * JSVal -> Prop) source :
  forall target,
    Forall Q target -> Forall Q source -> Forall Q (Object_assign target source).
Proof.
  unfold Object_assign.
  induction source as [|[k v] source IH]; intros target Ht Hs; cbn;
    [exact Ht|].
  inversion Hs; subst. apply IH; [|assumption]. now apply obj_set_Forall.
Qed.

Lemma bracketed_name p key : bracketed p (p ++ "[" ++ key ++ "]").
Proof. exists key. reflexivity. Qed.

Lemma bracketed_nested p key k :
  bracketed (p ++ "[" ++ key ++ "]") k -> bracketed p k.
Proof.
  intros [rest ->]. exists (key ++ "][" ++ rest)%string.
  rewrite !string_app_assoc. reflexivity.
Qed.

Lemma flattened_nested prefix key kv :
  flattened (Some (match prefix with
                   | Some p => p ++ "[" ++ key ++ "]"
                   | None => key
                   end)%string) kv ->
  flattened prefix kv.
Proof.
  intros [Hv Hk]. split; [exact Hv|].
  intros p ->. apply (bracketed_nested p key). now apply Hk.
Qed.

Lemma flattened_scalar prefix key v :
  descends v = false ->
  flattened prefix (match prefix with
                    | Some p => p ++ "[" ++ key ++ "]"
                    | None => key
                    end%string, v).
Proof.
  intros Hv. split; [exact Hv|]. intros p ->. apply bracketed_name.
Qed.

Lemma serializeArray_flattened :
  forall (params : JSVal) (prefix : option string),
    Forall (flattened prefix) (serializeArray params prefix).
Proof.
  induction params as [| |b|n|s|l IHl|o IHo|t x i] using JSVal_nested_ind;
    intros prefix; try (cbn; constructor).
  - cbn [serializeArray].
    generalize (@nil (string * JSVal))
      (Forall_nil (flattened prefix)) 0%nat.
    induction s as [|c s IHs]; intros acc Hacc i; cbn; [exact Hacc|].
    apply IHs. apply obj_set_Forall; [exact Hacc|].
    now apply flattened_scalar.
  - cbn [serializeArray].
    generalize (@nil (string * JSVal))
      (Forall_nil (flattened prefix)) 0%nat.
    induction IHl as [|x l Hx Hl IH]; intros acc Hacc i; [exact Hacc|].
    apply IH. destruct (typeof_object x && negb (instanceof_Date x)) eqn:Hobj.
    + apply Object_assign_Forall; [exact Hacc|].
      eapply Forall_impl; [|apply Hx]. intros kv. apply flattened_nested.
    + apply obj_set_Forall; [exact Hacc|]. now apply flattened_scalar.
  - cbn [serializeArray].
    generalize (@nil (string * JSVal)) (Forall_nil (flattened prefix)).
    induction IHo as [|[k x] o Hx Ho IH]; intros acc Hacc; [exact Hacc|].
    apply IH. cbn [snd] in Hx.
    destruct (typeof_object x && negb (instanceof_Date x)) eqn:Hobj.
    + apply Object_assign_Forall; [exact Hacc|].
      eapply Forall_impl; [|apply Hx]. intros kv. apply flattened_nested.
    + apply obj_set_Forall; [exact Hacc|]. now apply flattened_scalar.
Qed.

(** X10. [serializeArray] flattens completely: it would descend into no
    value of its result, that is, none passes the test
    [typeof value === 'object' && !(value instanceof Date)].  So no value is
    an array, a plain object or [null] (a nested [null] is dropped; a [Date]
    is the one object that is kept as a value), and under a prefix every key
    is the prefix followed by a bracketed suffix. *)
Theorem serializeArray_is_flat :
  forall (params : JSVal) (prefix : option string),
    Forall (flattened prefix) (serializeArray params prefix) /\
    Forall (fun kv => Array_isArray (snd kv) = false /\ snd kv <> JNull /\
                      forall o, snd kv <> JObj o)
      (serializeArray params prefix).
Proof.
  intros params prefix.
  pose proof (serializeArray_flattened params prefix) as H.
  split; [exact H|].
  eapply Forall_impl; [|exact H].
  intros [k v] [Hv _]. cbn [snd] in *.
  destruct v; try discriminate Hv; repeat split; intros; discriminate.
Qed.

Lemma digits_value_bracket (s : string) :
  forall acc, digits_value (s ++ "]") acc = None.
Proof.
  induction s as [|c s IH]; intros acc; [reflexivity|].
  cbn [append digits_value]. destruct (_ && _)%bool; [apply IH|reflexivity].
Qed.

Lemma array_index_bracket (s : string) : array_index (s ++ "]") = None.
Proof.
  destruct s as [|c s]; [reflexivity|].
  unfold array_index. cbn [append].
  destruct (_ && _)%bool; [reflexivity|].
  change (String c (s ++ "]"))%string with (String c s ++ "]")%string.
  now rewrite digits_value_bracket.
Qed.

Lemma string_app_inv_head (a b c : string) :
  (a ++ b = a ++ c)%string -> b = c.
Proof.
  induction a as [|x a IH]; cbn; [auto|]. intros H. injection H. exact IH.
Qed.

Lemma string_app_inv_bracket (b c : string) :
  (b ++ "]" = c ++ "]")%string -> b = c.
Proof.
  revert c. induction b as [|x b IH]; intros [|y c]; cbn; intros H;
    [reflexivity| | |].
  - injection H as _ H. destruct c; discriminate H.
  - injection H as _ H. destruct b; discriminate H.
  - injection H as -> H. f_equal. now apply IH.
Qed.

Lemma bracket_name_inj (p k k' : string) :
  (p ++ "[" ++ k ++ "]" = p ++ "[" ++ k' ++ "]")%string -> k = k'.
Proof.
  intros H. apply string_app_inv_head in H. injection H as H.
  now apply string_app_inv_bracket.
Qed.

Lemma obj_has_app (a b : JSObject) (k : string) :
  obj_has (a ++ b)%list k = obj_has a k || obj_has b k.
Proof. unfold obj_has. apply existsb_app. Qed.

(** X11. On an object whose values are scalars and whose keys are distinct,
    [serializeArray] with a prefix keeps the entries in their order and
    renames each key [k] to [prefix[k]]. *)
Theorem serializeArray_of_flat_object :
  forall (o : JSObject) (p : string),
    NoDup (map fst o) ->
    Forall (fun kv => typeof_object (snd kv) = false) o ->
    serializeArray (JObj o) (Some p) =
    map (fun kv => (p ++ "[" ++ fst kv ++ "]", snd kv))%string o.
Proof.
  intros o p Hnodup Hflat. cbn [serializeArray].
  enough (H : forall acc,
             (forall kv, In kv o ->
                obj_has acc (p ++ "[" ++ fst kv ++ "]")%string = false) ->
             (fix loop (o0 : list (string * JSVal)) (result : JSObject)
                {struct o0} : JSObject :=
                match o0 with
                | [] => result
                | (key, value) :: o' =>
                    loop o'
                      (if typeof_object value && negb (instanceof_Date value)
                       then Object_assign result
                              (serializeArray value
                                 (Some (p ++ "[" ++ key ++ "]")%string))
                       else obj_set result (p ++ "[" ++ key ++ "]")%string value)
                end) o acc =
             (acc ++ map (fun kv => (p ++ "[" ++ fst kv ++ "]", snd kv))%string o)%list)
    by (apply (H []); reflexivity).
  induction o as [|[k x] o IH]; intros acc Hacc; cbn [map];
    [now rewrite app_nil_r|].
  inversion Hnodup as [|? ? Hk Hnodup']; subst.
  inversion Hflat as [|? ? Hx Hflat']; subst. cbn [snd fst] in Hx |- *.
  rewrite Hx. cbn [andb].
  assert (Hset : obj_set acc (p ++ "[" ++ k ++ "]")%string x =
                 (acc ++ [((p ++ "[" ++ k ++ "]")%string, x)])%list).
  { unfold obj_set.
    pose proof (Hacc (k, x) (or_introl eq_refl)) as Hfresh.
    cbn [fst] in Hfresh. rewrite Hfresh.
    change (p ++ "[" ++ k ++ "]")%string with (p ++ ("[" ++ k) ++ "]")%string.
    rewrite <- string_app_assoc, array_index_bracket. reflexivity. }
  rewrite Hset, (IH Hnodup' Hflat'), <- app_assoc; [reflexivity|].
  intros kv Hin. rewrite obj_has_app, (Hacc kv (or_intror Hin)).
  cbn [obj_has existsb fst orb]. rewrite orb_false_r.
  apply String.eqb_neq. intros Heq. apply bracket_name_inj in Heq.
  apply Hk. rewrite Heq. now apply in_map.
Qed.

Lemma no_bracket_neq (c : string) :
  forallb (fun a => negb (Ascii.eqb a "["%char)) (list_ascii_of_string c) = true ->
  forall p t : string, (p ++ String "["%char t)%string <> c.
Proof.
  induction c as [|a c IH]; intros Hc [|x p] t; cbn; try discriminate.
  - intros H. injection H as <- _. cbn in Hc. discriminate Hc.
  - intros H. injection H as _ H. cbn in Hc.
    apply andb_true_iff in Hc. destruct Hc as [_ Hc]. exact (IH Hc p t H).
Qed.

Lemma bracketed_is_renamed p k :
  bracketed p k -> k <> "html" /\ k <> "text" /\ k <> "subject".
Proof.
  intros [rest ->]. repeat split; apply no_bracket_neq; reflexivity.
Qed.

Lemma smtpSendMail_step_entries data kv :
  Forall smtp_entry data -> Forall smtp_entry (smtpSendMail_step data kv).
Proof.
  intros Hd. destruct kv as [key v]. unfold smtpSendMail_step.
  set (name := if ((key =? "html") || (key =? "text"))%string
               then (key ++ "_body")%string
               else if (key =? "subject")%string then "subj" else key).
  assert (Hname : name <> "html" /\ name <> "text" /\ name <> "subject").
  { unfold name.
    destruct (String.eqb_spec key "html") as [->|H1];
      [repeat split; discriminate|].
    destruct (String.eqb_spec key "text") as [->|H2];
      [repeat split; discriminate|].
    destruct (String.eqb_spec key "subject") as [->|H3];
      [repeat split; discriminate|].
    cbn [orb]. auto. }
  destruct (typeof_object v && _) eqn:Hobj.
  - apply Object_assign_Forall; [exact Hd|].
    eapply Forall_impl; [|apply (serializeArray_flattened v (Some name))].
    intros [k x] [Hx Hk]. split; [left; exact Hx|].
    exact (bracketed_is_renamed name k (Hk name eq_refl)).
  - apply obj_set_Forall; [exact Hd|]. split; [|exact Hname].
    cbn [snd]. destruct v; cbn in Hobj |- *; auto; discriminate.
Qed.

Lemma smtp_entries_have_no_plain_name d k :
  Forall smtp_entry d ->
  k = "html" \/ k = "text" \/ k = "subject" ->
  obj_has d k = false.
Proof.
  intros Hd Hk. unfold obj_has.
  induction Hd as [|[k' v] d Hkv Hd IH]; [reflexivity|].
  destruct Hkv as (_ & H1 & H2 & H3).
  cbn [existsb fst] in *. rewrite IH, orb_false_r.
  apply String.eqb_neq. destruct Hk as [-> | [-> | ->]]; assumption.
Qed.

(** X12. [smtpSendMail] always dispatches a flat payload: every value is
    [null] or one into which [serializeArray] would not descend, so none is
    an array or a plain object (nested ones are flattened into bracketed
    keys; a [Date] below the top level is the one object that is kept), and
    no field keeps the name [html], [text] or [subject], which are sent as
    [html_body], [text_body] and [subj]. *)
Theorem smtpSendMail_payload_is_flat :
  forall (email : JSVal) (m : Machine),
    is_undefined email = false ->
    exists d,
      smtpSendMail email m =
        sendRequest "smtp/emails" (JStr "POST") (JObj d) true m /\
      Forall smtp_entry d /\
      obj_has d "html" = false /\
      obj_has d "text" = false /\
      obj_has d "subject" = false.
Proof.
  intros email m Hdef. unfold smtpSendMail. rewrite Hdef.
  eexists. split; [reflexivity|].
  assert (H : forall kvs acc,
             Forall smtp_entry acc ->
             Forall smtp_entry (fold_left smtpSendMail_step kvs acc)).
  { induction kvs as [|kv kvs IH]; intros acc Hacc; cbn; [exact Hacc|].
    apply IH. now apply smtpSendMail_step_entries. }
  specialize (H (own_properties email) [] (Forall_nil _)).
  split; [exact H|].
  repeat split; apply (smtp_entries_have_no_plain_name _ _ H); auto.
Qed.

(** ** The legacy module *)

Lemma obj_get_app_fresh (o : JSObject) (k : string) (v : JSVal) :
  obj_has o k = false -> obj_get (o ++ [(k, v)])%list k = v.
Proof.
  unfold obj_has. induction o as [|[k' v'] o IH]; cbn [existsb app obj_get fst].
  - intros _. now rewrite String.eqb_refl.
  - intros H. apply orb_false_iff in H. destruct H as [Hk Ho].
    rewrite Hk. exact (IH Ho).
Qed.

(** A property that was assigned is read back. *)
Lemma obj_get_set_same (o : JSObject) (k : string) (v : JSVal) :
  obj_get (obj_set o k v) k = v.
Proof.
  unfold obj_set. destruct (obj_has o k) eqn:Hhas.
  - unfold obj_has in Hhas.
    induction o as [|[k' v'] o IH]; [discriminate|].
    cbn [existsb fst obj_replace] in *.
    destruct (k' =? k)%string eqn:Hk; cbn [obj_get].
    + now rewrite String.eqb_refl.
    + rewrite Hk. exact (IH Hhas).
  - destruct (array_index k) as [i|]; [|now apply obj_get_app_fresh].
    unfold obj_has in Hhas.
    induction o as [|[k' v'] o IH]; cbn [obj_insert_index obj_get].
    + now rewrite String.eqb_refl.
    + cbn [existsb fst] in Hhas. apply orb_false_iff in Hhas.
      destruct Hhas as [Hk Ho].
      destruct (array_index k') as [j|]; [destruct (j <? i)%N|];
        cbn [obj_get]; rewrite ?String.eqb_refl, ?Hk; auto.
Qed.

(** The other properties are as they were. *)
Lemma obj_get_set_other (o : JSObject) (k k' : string) (v : JSVal) :
  k' <> k -> obj_get (obj_set o k v) k' = obj_get o k'.
Proof.
  intros Hne. apply String.eqb_neq in Hne.
  assert (Hne' : (k =? k')%string = false)
    by (rewrite String.eqb_sym; exact Hne).
  unfold obj_set. destruct (obj_has o k).
  - induction o as [|[k0 v0] o IH]; [reflexivity|]. cbn [obj_replace].
    destruct (k0 =? k)%string eqn:Hk; cbn [obj_get].
    + apply String.eqb_eq in Hk. subst k0. now rewrite Hne'.
    + now rewrite IH.
  - destruct (array_index k) as [i|].
    + induction o as [|[k0 v0] o IH]; cbn [obj_insert_index obj_get].
      * now rewrite Hne'.
      * destruct (array_index k0) as [j|]; [destruct (j <? i)%N|];
          cbn [obj_get]; rewrite ?Hne', ?IH; reflexivity.
    + induction o as [|[k0 v0] o IH]; cbn [app obj_get].
      * now rewrite Hne'.
      * now rewrite IH.
Qed.

(** The legacy [sendRequest], step by step. *)
Lemma legacy_sendRequest_unfold path method data useToken m :
  Legacy.sendRequest path method data useToken m =
  match Buffer_byteLength (JSON_stringify data) with
  | Throw e => (Throw e, m)
  | Ok len =>
      match (if useToken then js_length (Legacy.TOKEN m) else Ok JUndefined) with
      | Throw e => (Throw e, m)
      | Ok l =>
          Legacy.axios
            {| method := if is_undefined method then JStr "POST" else method;
               url := Legacy.API_URL ++ "/" ++ path;
               data := data;
               headers :=
                 if useToken && truthy l
                 then [ ("Content-Type", JStr "application/json");
                        ("Content-Length", len);
                        ("Authorization",
                         JStr ("Bearer " ++ ToString (Legacy.TOKEN m))) ]
                 else plain_headers len |} m
      end
  end.
Proof.
  unfold Legacy.sendRequest, Legacy.has_length, Legacy.read, bind, lift, ret.
  destruct (Buffer_byteLength (JSON_stringify data)) as [len|e]; [|reflexivity].
  destruct useToken; [|reflexivity].
  destruct (js_length (Legacy.TOKEN m)) as [l|e]; [|reflexivity].
  destruct (truthy l); reflexivity.
Qed.

Lemma legacy_axios_unfold r m :
  Legacy.axios r m =
  let (latency, result) := axios_request (Legacy.trace m) (Legacy.clock m) r in
  (match result with
   | Resolved body => Ok body
   | Failed reason => Throw (Rejected reason)
   end,
   {| Legacy.API_USER_ID := Legacy.API_USER_ID m;
      Legacy.API_SECRET := Legacy.API_SECRET m;
      Legacy.TOKEN := Legacy.TOKEN m;
      Legacy.TOKEN_STORAGE := Legacy.TOKEN_STORAGE m;
      Legacy.clock := Legacy.clock m + latency;
      Legacy.trace := (Legacy.trace m ++ [EvRequest r])%list |}).
Proof.
  unfold Legacy.axios.
  destruct (axios_request _ _ _) as [latency [body|reason]]; reflexivity.
Qed.

(** X13. A dispatch of the legacy module never fetches or replaces the
    token: the credentials, [TOKEN] and the token cache are as they were,
    and at most one request is sent.  The token obtained by [init] or
    [getToken] is used as long as the module lives. *)
Theorem legacy_dispatch_never_refreshes :
  forall (path : string) (method data : JSVal) (useToken : bool)
         (m : Legacy.Machine),
    let m' := snd (Legacy.sendRequest path method data useToken m) in
    legacy_variables m' = legacy_variables m /\
    fetches (Legacy.trace m') = fetches (Legacy.trace m) /\
    (requests (Legacy.trace m') <= S (requests (Legacy.trace m)))%nat.
Proof.
  intros path method data useToken m. cbv zeta.
  rewrite legacy_sendRequest_unfold.
  destruct (Buffer_byteLength (JSON_stringify data)) as [len|e];
    [destruct (if useToken then _ else _) as [l|e]|];
    rewrite ?legacy_axios_unfold;
    try destruct (axios_request _ _ _) as [latency result];
    cbn [snd legacy_variables Legacy.API_USER_ID Legacy.API_SECRET Legacy.TOKEN
         Legacy.TOKEN_STORAGE Legacy.trace];
    rewrite ?fetches_app, ?requests_app; cbn; repeat split; lia.
Qed.

(** X14. What an authorized request of the legacy module carries depends on
    [TOKEN] alone: a token with a truthy [length] is sent as a bearer
    token; an empty token sends the request all the same, without
    [Authorization] header; a token that is [undefined] or [null] makes the
    call throw a [TypeError] before anything is sent. *)
Theorem legacy_authorization_follows_TOKEN :
  forall (path : string) (method : JSVal) (payload : JSObject)
         (m : Legacy.Machine),
    match js_length (Legacy.TOKEN m) with
    | Throw _ =>
        Legacy.sendRequest path method (JObj payload) true m =
        (Throw TypeError, m)
    | Ok len =>
        exists r,
          Legacy.trace (snd (Legacy.sendRequest path method (JObj payload) true m))
            = (Legacy.trace m ++ [EvRequest r])%list /\
          url r = ("https://api.sendpulse.com/" ++ path)%string /\
          data r = JObj payload /\
          obj_has (headers r) "Authorization" = truthy len /\
          (truthy len = true ->
           obj_get (headers r) "Authorization" =
             JStr ("Bearer " ++ ToString (Legacy.TOKEN m)))
    end.
Proof.
  intros path method payload m. rewrite legacy_sendRequest_unfold.
  destruct (byteLength_object payload) as [n ->].
  destruct (js_length (Legacy.TOKEN m)) as [len|e] eqn:Hlen.
  - rewrite legacy_axios_unfold.
    destruct (axios_request _ _ _) as [latency result].
    eexists. cbn [snd Legacy.trace andb].
    split; [reflexivity|]. cbn [url data headers].
    split; [reflexivity|]. split; [reflexivity|].
    destruct (truthy len); split; try reflexivity; discriminate.
  - destruct (Legacy.TOKEN m); try discriminate;
      cbn [js_length] in Hlen; injection Hlen as <-; reflexivity.
Qed.

(** The legacy [getToken], step by step. *)
Lemma legacy_getToken_unfold m :
  Legacy.getToken m =
  let req := legacy_token_request m in
  let (latency, result) :=
    axios_request (Legacy.trace m ++ [EvGetToken]) (Legacy.clock m) req in
  let tr := ((Legacy.trace m ++ [EvGetToken]) ++ [EvRequest req])%list in
  let sent t storage :=
    {| Legacy.API_USER_ID := Legacy.API_USER_ID m;
       Legacy.API_SECRET := Legacy.API_SECRET m;
       Legacy.TOKEN := t; Legacy.TOKEN_STORAGE := storage;
       Legacy.clock := Legacy.clock m + latency; Legacy.trace := tr |} in
  match result with
  | Failed reason =>
      (Throw (Rejected reason), sent (Legacy.TOKEN m) (Legacy.TOKEN_STORAGE m))
  | Resolved body =>
      match get_prop body "access_token" with
      | Throw e => (Throw e, sent (Legacy.TOKEN m) (Legacy.TOKEN_STORAGE m))
      | Ok v =>
          (Ok tt,
           sent v (obj_set (Legacy.TOKEN_STORAGE m) (Legacy.hashName m) v))
      end
  end.
Proof.
  unfold Legacy.getToken, bind at 1. unfold Legacy.emit at 1.
  unfold bind at 1. unfold Legacy.read at 1. unfold bind at 1.
  unfold Legacy.read at 1. unfold bind at 1.
  rewrite legacy_sendRequest_unfold.
  cbn [Legacy.API_USER_ID Legacy.API_SECRET Legacy.TOKEN Legacy.TOKEN_STORAGE
       Legacy.clock Legacy.trace].
  unfold legacy_token_request. cbv zeta.
  match goal with
  | |- context [Buffer_byteLength (JSON_stringify (JObj ?o))] =>
      destruct (byteLength_object o) as [n ->]
  end.
  cbn [is_undefined andb]. rewrite legacy_axios_unfold.
  cbn [Legacy.API_USER_ID Legacy.API_SECRET Legacy.TOKEN Legacy.TOKEN_STORAGE
       Legacy.clock Legacy.trace].
  destruct (axios_request _ _ _) as [latency [body|reason]]; [|reflexivity].
  unfold bind, lift, Legacy.set_TOKEN, Legacy.read, Legacy.set_TOKEN_STORAGE,
    Legacy.hashName.
  destruct (get_prop body "access_token"); reflexivity.
Qed.

(** X15. A successful legacy [getToken] stores what the response has under
    [access_token] in [TOKEN] and in the cache under the MD5 key of the
    credentials, and leaves the other cache entries alone.  It does not
    look at the value: when the response has no [access_token] the call
    still succeeds, [TOKEN] is [undefined], and from then on every
    authorized request and every [init] throws a [TypeError] before
    anything is sent. *)
Theorem legacy_getToken_stores_and_caches :
  forall (m : Legacy.Machine) (latency : Z) (body v : JSVal),
    axios_request (Legacy.trace m ++ [EvGetToken]) (Legacy.clock m)
      (legacy_token_request m) = (latency, Resolved body) ->
    get_prop body "access_token" = Ok v ->
    exists m',
      Legacy.getToken m = (Ok tt, m') /\
      Legacy.TOKEN m' = v /\
      obj_get (Legacy.TOKEN_STORAGE m') (Legacy.hashName m') = v /\
      (forall k, k <> Legacy.hashName m ->
                 obj_get (Legacy.TOKEN_STORAGE m') k =
                 obj_get (Legacy.TOKEN_STORAGE m) k) /\
      Legacy.API_USER_ID m' = Legacy.API_USER_ID m /\
      Legacy.API_SECRET m' = Legacy.API_SECRET m /\
      (v = JUndefined \/ v = JNull ->
       (forall path method payload,
           Legacy.sendRequest path method (JObj payload) true m' =
           (Throw TypeError, m')) /\
       fst (Legacy.init (Legacy.API_USER_ID m) (Legacy.API_SECRET m) m') =
         Throw TypeError /\
       Legacy.trace
         (snd (Legacy.init (Legacy.API_USER_ID m) (Legacy.API_SECRET m) m')) =
         Legacy.trace m').
Proof.
  intros m latency body v Hax Hv.
  pose proof (legacy_getToken_unfold m) as Hg. cbv zeta in Hg.
  rewrite Hax, Hv in Hg.
  eexists. split; [exact Hg|].
  cbn [Legacy.TOKEN Legacy.TOKEN_STORAGE Legacy.API_USER_ID Legacy.API_SECRET].
  split; [reflexivity|].
  split; [unfold Legacy.hashName;
          cbn [Legacy.API_USER_ID Legacy.API_SECRET];
          apply obj_get_set_same|].
  split; [intros k Hk; now apply obj_get_set_other|].
  split; [reflexivity|]. split; [reflexivity|].
  intros Hbad. split.
  - intros path method payload. rewrite legacy_sendRequest_unfold.
    destruct (byteLength_object payload) as [n ->].
    cbn [Legacy.TOKEN]. destruct Hbad as [-> | ->]; reflexivity.
  - unfold Legacy.init, bind, Legacy.set_credentials, Legacy.read,
      Legacy.has_length, lift, ret, Legacy.set_TOKEN, Legacy.hashName.
    cbn [Legacy.TOKEN Legacy.TOKEN_STORAGE Legacy.API_USER_ID
         Legacy.API_SECRET Legacy.clock Legacy.trace].
    rewrite obj_get_set_same.
    destruct Hbad as [-> | ->]; split; reflexivity.
Qed.

(** X16. The legacy [init] sends nothing when a token is at hand: it takes
    the cached token of the new credentials if there is one, and otherwise
    keeps the token it already holds, even one obtained for other
    credentials.  Only a token without a truthy [length] makes it fetch. *)
Theorem legacy_init_keeps_a_held_token :
  forall (id secret : JSVal) (m : Legacy.Machine) (len : JSVal),
    let cached :=
      obj_get (Legacy.TOKEN_STORAGE m)
        (md5_hex (ToString id ++ "::" ++ ToString secret)) in
    let t := if truthy cached then cached else Legacy.TOKEN m in
    js_length t = Ok len ->
    (truthy len = true ->
     Legacy.init id secret m = (Ok tt, legacy_configured m id secret t)) /\
    (truthy len = false ->
     Legacy.init id secret m =
     Legacy.getToken (legacy_configured m id secret t)).
Proof.
  intros id secret m len. cbv zeta. intros Hlen.
  unfold Legacy.init, Legacy.has_length.
  unfold bind, Legacy.set_credentials, Legacy.read,
    lift, ret, Legacy.set_TOKEN, Legacy.hashName, legacy_configured.
  cbn [Legacy.TOKEN Legacy.TOKEN_STORAGE Legacy.API_USER_ID
       Legacy.API_SECRET Legacy.clock Legacy.trace].
  destruct (truthy (obj_get (Legacy.TOKEN_STORAGE m) _));
    cbn [Legacy.TOKEN Legacy.TOKEN_STORAGE Legacy.API_USER_ID
         Legacy.API_SECRET Legacy.clock Legacy.trace];
    rewrite Hlen; cbv beta iota; split; intros Ht; rewrite Ht; reflexivity.
Qed.

(** ** The PHP serialisation of the legacy module *)

Import Serialize.

Lemma utf8Size_loop_plain (a : list N) :
  Forall (fun c => is_surrogate c = false) a ->
  forall rest size,
    utf8Size_loop (a ++ rest) size = utf8Size_loop rest (size + utf8_widths a).
Proof.
  intros Ha. induction Ha as [|c a Hc Ha IH]; intros rest size.
  - cbn. now rewrite Z.add_0_r.
  - cbn [app utf8Size_loop utf8_widths]. unfold utf8_width.
    unfold is_surrogate in Hc. apply andb_false_iff in Hc.
    destruct (c <? 128)%N eqn:H1; [rewrite IH; f_equal; lia|].
    destruct (c <? 2048)%N eqn:H2; [rewrite IH; f_equal; lia|].
    destruct (c <? 55296)%N eqn:H3; [rewrite IH; f_equal; lia|].
    apply N.ltb_ge in H3.
    assert (H57 : (c <? 57344)%N = false).
    { destruct Hc as [Hc|Hc]; [|exact Hc].
      apply N.leb_gt in Hc. lia. }
    assert (H56 : (c <? 56320)%N = false).
    { apply N.ltb_ge. apply N.ltb_ge in H57. lia. }
    rewrite H56, H57, IH. f_equal. lia.
Qed.

Lemma units_have_no_surrogate (s : string) :
  Forall (fun c => is_surrogate c = false) (units s).
Proof.
  unfold units. induction s as [|c s IH]; cbn; constructor; [|exact IH].
  unfold is_surrogate. apply andb_false_iff. left. apply N.leb_gt.
  pose proof (N_ascii_bounded c). lia.
Qed.

Lemma utf8_widths_units (s : string) : utf8_widths (units s) = utf8_length s.
Proof.
  unfold units. induction s as [|c s IH]; [reflexivity|].
  cbn [list_ascii_of_string map utf8_widths utf8_length]. rewrite IH.
  f_equal. unfold utf8_width.
  pose proof (N_ascii_bounded c) as Hb.
  assert (H2 : (N_of_ascii c <? 2048)%N = true) by (apply N.ltb_lt; lia).
  rewrite H2.
  destruct (N_of_ascii c <? 128)%N eqn:H1, (Nat.ltb (nat_of_ascii c) 128) eqn:H1';
    try reflexivity; unfold nat_of_ascii in H1'.
  - apply N.ltb_lt in H1. apply Nat.ltb_ge in H1'. lia.
  - apply N.ltb_ge in H1. apply Nat.ltb_lt in H1'. lia.
Qed.

Lemma utf8Size_plain (str : list N) :
  Forall (fun c => is_surrogate c = false) str ->
  _utf8Size str = utf8_widths str.
Proof.
  intros Hstr. unfold _utf8Size.
  rewrite <- (app_nil_r str) at 1.
  rewrite (utf8Size_loop_plain str Hstr). reflexivity.
Qed.

Lemma utf8Size_units (s : string) : _utf8Size (units s) = utf8_length s.
Proof.
  rewrite (utf8Size_plain _ (units_have_no_surrogate s)).
  apply utf8_widths_units.
Qed.

(** X17. On a string without surrogates [_utf8Size] is the number of bytes
    of its UTF-8 encoding: one byte below 0x80, two below 0x800, three
    otherwise.  On the strings of the model it is the length that
    [Buffer.byteLength] reports. *)
Theorem utf8Size_counts_bytes :
  (forall str : list N,
      Forall (fun c => is_surrogate c = false) str ->
      _utf8Size str = utf8_widths str) /\
  (forall s : string, _utf8Size (units s) = utf8_length s).
Proof.
  split; [exact utf8Size_plain|exact utf8Size_units].
Qed.

(** X18. A surrogate out of place makes [_utf8Size] forget what it has
    counted: after a low surrogate that follows no high one, after a high
    surrogate and the unit that fails to pair with it, the size is that of
    the rest of the string alone; a high surrogate at the very end gives
    the size 0. *)
Theorem utf8Size_resets_on_malformed :
  forall a b : list N,
    Forall (fun c => is_surrogate c = false) a ->
    (forall lo, (56320 <= lo < 57344)%N ->
                _utf8Size (a ++ lo :: b) = _utf8Size b) /\
    (forall hi x, (55296 <= hi < 56320)%N -> ~ (56320 <= x <= 57343)%N ->
                  _utf8Size (a ++ hi :: x :: b) = _utf8Size b) /\
    (forall hi, (55296 <= hi < 56320)%N -> _utf8Size (a ++ [hi]) = 0).
Proof.
  intros a b Ha. unfold _utf8Size.
  assert (Hhigh : forall hi, (55296 <= hi < 56320)%N ->
            (hi <? 128)%N = false /\ (hi <? 2048)%N = false /\
            (hi <? 55296)%N = false /\ (hi <? 56320)%N = true).
  { intros hi Hhi. repeat split;
      try (apply N.ltb_ge; lia); apply N.ltb_lt; lia. }
  split; [|split].
  - intros lo Hlo. rewrite (utf8Size_loop_plain a Ha). cbn [utf8Size_loop].
    assert ((lo <? 128)%N = false) as -> by (apply N.ltb_ge; lia).
    assert ((lo <? 2048)%N = false) as -> by (apply N.ltb_ge; lia).
    assert ((lo <? 55296)%N = false) as -> by (apply N.ltb_ge; lia).
    assert ((lo <? 56320)%N = false) as -> by (apply N.ltb_ge; lia).
    assert ((lo <? 57344)%N = true) as -> by (apply N.ltb_lt; lia).
    reflexivity.
  - intros hi x Hhi Hx. rewrite (utf8Size_loop_plain a Ha).
    cbn [utf8Size_loop].
    destruct (Hhigh hi Hhi) as (-> & -> & -> & ->).
    destruct ((56320 <=? x) && (x <=? 57343))%N eqn:Hpair; [|reflexivity].
    apply andb_true_iff in Hpair. destruct Hpair as [H1 H2].
    apply N.leb_le in H1, H2. exfalso. apply Hx. lia.
  - intros hi Hhi. rewrite (utf8Size_loop_plain a Ha). cbn [utf8Size_loop].
    now destruct (Hhigh hi Hhi) as (-> & -> & -> & ->).
Qed.

(** *** Numerals *)

Lemma read_digits_uint_pos (d : Decimal.uint) :
  forall (a : positive) (rest : string),
    read_digits (NilEmpty.string_of_uint d ++ rest) (N.pos a) =
    read_digits rest (N.pos (Pos.of_uint_acc d a)).
Proof.
  induction d; intros a rest; cbn [NilEmpty.string_of_uint append Pos.of_uint_acc];
    [reflexivity|..];
    cbn [read_digits]; change (is_digit _) with true; cbv iota;
    rewrite <- IHd; f_equal;
    match goal with
    | |- context [N_of_ascii ?c] =>
        let v := eval vm_compute in (N_of_ascii c) in
        change (N_of_ascii c) with v
    end; lia.
Qed.

Lemma read_digits_uint (d : Decimal.uint) :
  forall rest : string,
    read_digits (NilEmpty.string_of_uint d ++ rest) 0 =
    read_digits rest (Pos.of_uint d).
Proof.
  induction d; intros rest; cbn [NilEmpty.string_of_uint append Pos.of_uint];
    [reflexivity|..];
    cbn [read_digits]; change (is_digit _) with true; cbv iota;
    first [exact (IHd rest) | apply read_digits_uint_pos].
Qed.

(** The decimal numeral of a natural number. *)
Lemma string_of_Z_nonneg (z : Z) :
  0 <= z ->
  exists d c t,
    string_of_Z z = NilEmpty.string_of_uint d /\
    Pos.of_uint d = Z.to_N z /\
    NilEmpty.string_of_uint d = String c t /\ is_digit c = true.
Proof.
  intros Hz. destruct z as [|p|p]; [| |lia].
  - exists (Decimal.D0 Decimal.Nil). do 2 eexists. repeat split.
  - exists (Pos.to_uint p).
    pose proof (DecimalPos.Unsigned.to_uint_nonnil p) as Hnil.
    pose proof (DecimalPos.Unsigned.of_to p) as Hof.
    unfold string_of_Z. cbn [Z.to_int NilZero.string_of_int Z.to_N].
    unfold NilZero.string_of_uint.
    destruct (Pos.to_uint p) eqn:E; [congruence|..];
      do 2 eexists; (split; [reflexivity|]); (split; [exact Hof|]);
      split; reflexivity.
Qed.

Lemma read_number_numeral (z : Z) (x : ascii) (rest : string) :
  0 <= z -> is_digit x = false ->
  read_number (string_of_Z z ++ String x rest) =
  Some (Z.to_N z, String x rest).
Proof.
  intros Hz Hx.
  destruct (string_of_Z_nonneg z Hz) as (d & c & t & -> & Hval & Hhead & Hc).
  unfold read_number.
  assert (Hfirst : (NilEmpty.string_of_uint d ++ String x rest)%string =
                   String c (t ++ String x rest))
    by now rewrite Hhead.
  rewrite Hfirst, Hc, <- Hfirst, read_digits_uint, Hval.
  cbn [read_digits]. now rewrite Hx.
Qed.

Lemma expect_prefix (p rest : string) : expect p (p ++ rest) = Some rest.
Proof.
  induction p as [|a p IH]; [reflexivity|].
  cbn. now rewrite Ascii.eqb_refl.
Qed.

Lemma utf8_length_nonneg (s : string) : 0 <= utf8_length s.
Proof.
  induction s as [|c s IH]; cbn [utf8_length]; [lia|].
  destruct (Nat.ltb (nat_of_ascii c) 128); lia.
Qed.

Lemma take_bytes_exact (s rest : string) :
  take_bytes (utf8_length s) (s ++ rest) = Some (s, rest).
Proof.
  induction s as [|c s IH].
  - destruct rest; reflexivity.
  - pose proof (utf8_length_nonneg s) as Hs.
    cbn [utf8_length append take_bytes].
    set (w := if Nat.ltb (nat_of_ascii c) 128 then 1 else 2).
    assert (Hw : 1 <= w) by (unfold w; destruct (Nat.ltb _ _); lia).
    assert ((w + utf8_length s =? 0) = false) as -> by (apply Z.eqb_neq; lia).
    assert ((w <=? w + utf8_length s) = true) as -> by (apply Z.leb_le; lia).
    replace (w + utf8_length s - w) with (utf8_length s) by lia.
    rewrite IH. reflexivity.
Qed.

(** *** A serialised list of strings *)

Lemma serialize_list_of_strings (l : list string) :
  serialize (JArr (map JStr l)) =
  Some (Ok ("a:" ++ string_of_Z (Z.of_nat (List.length l)) ++ ":{"
            ++ entries_text 0 l ++ "}")).
Proof.
  cbn [serialize].
  match goal with
  | |- ?loop 0%nat _ ""%string 0%nat = _ =>
      enough (H : forall i vals count,
                 loop i (map JStr l) vals count =
                 Some (Ok ("a:" ++
                           string_of_Z (Z.of_nat (count + List.length l))
                           ++ ":{" ++ vals ++ entries_text i l ++ "}")))
        by (rewrite H; reflexivity)
  end.
  induction l as [|x l IH]; intros i vals count; cbn [map List.length].
  - rewrite Nat.add_0_r. reflexivity.
  - cbn [serialize entries_text]. rewrite IH.
    rewrite !string_app_assoc.
    replace (S count + List.length l)%nat with (count + S (List.length l))%nat
      by lia.
    reflexivity.
Qed.

Lemma entry_text_shape (i : nat) (x : string) (tail : string) :
  (serialize_number (Fin (Z.of_nat i)) ++ serialize_string x ++ tail)%string =
  String "i" (String ":"
    (string_of_Z (Z.of_nat i) ++
     String ";" (String "s" (String ":"
       (string_of_Z (utf8_length x) ++
        String ":" (String (ascii_of_nat 34)
          (x ++ String (ascii_of_nat 34) (String ";" tail)))))))).
Proof.
  unfold serialize_number, serialize_string, Number_toString, dquote.
  rewrite (utf8Size_units x).
  rewrite !string_app_assoc. reflexivity.
Qed.

Lemma unserialize_entries (l : list string) :
  forall (i : nat) (rest : string),
    unserialize_items (List.length l) (entries_text i l ++ rest) = Some (l, rest).
Proof.
  induction l as [|x l IH]; intros i rest; [reflexivity|].
  cbn [List.length entries_text unserialize_items].
  rewrite !string_app_assoc, entry_text_shape.
  cbn [expect Ascii.eqb Bool.eqb]. cbv iota.
  rewrite read_number_numeral; [|lia|reflexivity].
  cbn [expect Ascii.eqb Bool.eqb]. cbv iota.
  rewrite read_number_numeral; [|apply utf8_length_nonneg|reflexivity].
  unfold dquote. cbn [append expect Ascii.eqb Bool.eqb]. cbv iota.
  rewrite Z2N.id by apply utf8_length_nonneg.
  rewrite Ascii.eqb_refl. cbv iota. rewrite take_bytes_exact.
  cbv beta iota. rewrite Ascii.eqb_refl. cbn [append]. cbv beta iota.
  rewrite IH. reflexivity.
Qed.

Lemma list_text_reads_back (l : list string) :
  unserialize_strings
    ("a:" ++ string_of_Z (Z.of_nat (List.length l)) ++ ":{"
     ++ entries_text 0 l ++ "}") = Some l.
Proof.
  unfold unserialize_strings.
  cbn [append expect Ascii.eqb Bool.eqb]. cbv iota.
  rewrite read_number_numeral; [|lia|reflexivity].
  cbn [expect Ascii.eqb Bool.eqb]. cbv iota.
  rewrite Z_N_nat, Nat2Z.id, unserialize_entries. reflexivity.
Qed.

(** X19. On a list of strings of the model, whose code units are below 256
    and so include no surrogate, the legacy [serialize] gives the PHP array
    [a:n:{i:0;s:len:"...";...}] with the byte length of every string, and the
    text reads back as the same list, whichever of these code units the
    strings contain (quotes, semicolons and braces among them). *)
Theorem serialize_list_round_trip :
  forall l : list string,
    serialize (JArr (map JStr l)) =
      Some (Ok ("a:" ++ string_of_Z (Z.of_nat (List.length l)) ++ ":{"
                ++ entries_text 0 l ++ "}")) /\
    unserialize_strings
      ("a:" ++ string_of_Z (Z.of_nat (List.length l)) ++ ":{"
       ++ entries_text 0 l ++ "}") = Some l.
Proof.
  intros l. split; [apply serialize_list_of_strings|apply list_text_reads_back].
Qed.

(** *** Arrays and objects with index keys *)

Lemma digits_value_uint_pos (d : Decimal.uint) :
  forall a : positive,
    digits_value (NilEmpty.string_of_uint d) (N.pos a) =
    Some (N.pos (Pos.of_uint_acc d a)).
Proof.
  induction d; intros a; cbn [NilEmpty.string_of_uint Pos.of_uint_acc];
    [reflexivity|..];
    cbn [digits_value];
    match goal with
    | |- context [N_of_ascii ?c] =>
        let v := eval vm_compute in (N_of_ascii c) in
        change (N_of_ascii c) with v
    end;
    match goal with
    | |- context [(?x && ?y)%bool] => change (x && y)%bool with true
    end; cbv iota; rewrite <- IHd; f_equal; lia.
Qed.

Lemma digits_value_uint (d : Decimal.uint) :
  digits_value (NilEmpty.string_of_uint d) 0 = Some (Pos.of_uint d).
Proof.
  induction d; cbn [NilEmpty.string_of_uint Pos.of_uint];
    [reflexivity|..];
    cbn [digits_value];
    match goal with
    | |- context [N_of_ascii ?c] =>
        let v := eval vm_compute in (N_of_ascii c) in
        change (N_of_ascii c) with v
    end;
    match goal with
    | |- context [(?x && ?y)%bool] => change (x && y)%bool with true
    end; cbv iota;
    first [exact IHd | apply digits_value_uint_pos].
Qed.

(** The key of the index [i] is a numeral: it is written as the integer
    [i], and it is none of the names with a special meaning. *)
Lemma index_key (i : nat) :
  (N.of_nat i < 9007199254740992)%N ->
  serialize_key (string_of_Z (Z.of_nat i)) =
    Some (serialize_number (Fin (Z.of_nat i))) /\
  (string_of_Z (Z.of_nat i) =? "constructor")%string = false /\
  (string_of_Z (Z.of_nat i) =? "hasOwnProperty")%string = false.
Proof.
  intros Hi.
  destruct (string_of_Z_nonneg (Z.of_nat i) (Nat2Z.is_nonneg i))
    as (d & c & t & Hs & Hval & Hhead & Hc).
  rewrite Hs. split; [|split].
  - unfold serialize_key. rewrite Hhead, <- Hhead, digits_value_uint, Hval.
    rewrite <- (nat_N_Z i), N2Z.id.
    apply N.ltb_lt in Hi. rewrite Hi, nat_N_Z. reflexivity.
  - rewrite Hhead. cbn. destruct (Ascii.eqb_spec c "c"); [|reflexivity].
    subst c. discriminate Hc.
  - rewrite Hhead. cbn. destruct (Ascii.eqb_spec c "h"); [|reflexivity].
    subst c. discriminate Hc.
Qed.

Lemma obj_has_indexed (k : string) (l : list JSVal) :
  forall i : nat,
    (forall j : nat, (string_of_Z (Z.of_nat j) =? k)%string = false) ->
    obj_has (indexed i l) k = false.
Proof.
  unfold obj_has. induction l as [|x l IH]; intros i Hk; [reflexivity|].
  cbn [indexed existsb fst]. now rewrite Hk, IH.
Qed.

Lemma numeral_is_no_name (j : nat) :
  (string_of_Z (Z.of_nat j) =? "constructor")%string = false /\
  (string_of_Z (Z.of_nat j) =? "hasOwnProperty")%string = false.
Proof.
  destruct (string_of_Z_nonneg (Z.of_nat j) (Nat2Z.is_nonneg j))
    as (d & c & t & -> & _ & -> & Hc).
  split; cbn.
  - destruct (Ascii.eqb_spec c "c"); [subst c; discriminate Hc|reflexivity].
  - destruct (Ascii.eqb_spec c "h"); [subst c; discriminate Hc|reflexivity].
Qed.

Lemma getType_beyond (v : JSVal) : _getType v = None -> serialize v = None.
Proof.
  destruct v; cbn [_getType]; try discriminate.
  cbn [serialize]. destruct (obj_has props "constructor"); [reflexivity|discriminate].
Qed.

(** X20. The legacy [serialize] writes an array exactly as it writes the
    object whose keys are the indices '0', '1', ...: a key made of digits is
    written as an integer, so the text does not tell the two apart. *)
Theorem serialize_array_as_indexed_object :
  forall l : list JSVal,
    (N.of_nat (List.length l) <= 9007199254740992)%N ->
    serialize (JObj (indexed 0 l)) = serialize (JArr l).
Proof.
  intros l Hlen. cbn [serialize].
  rewrite (obj_has_indexed "constructor" l 0
             (fun j => proj1 (numeral_is_no_name j))).
  rewrite (obj_has_indexed "hasOwnProperty" l 0
             (fun j => proj2 (numeral_is_no_name j))).
  match goal with
  | |- ?oloop (indexed 0 l) ""%string 0%nat = ?aloop 0%nat l ""%string 0%nat =>
      enough (H : forall i vals count,
                 (N.of_nat (i + List.length l) <= 9007199254740992)%N ->
                 oloop (indexed i l) vals count = aloop i l vals count)
        by (apply H; exact Hlen)
  end.
  clear Hlen. induction l as [|x l IH]; intros i vals count Hi; [reflexivity|].
  cbn [indexed List.length] in *.
  assert (Hkey : (N.of_nat i < 9007199254740992)%N) by lia.
  destruct (index_key i Hkey) as (-> & _ & _).
  destruct (_getType x) eqn:Htype.
  - destruct (serialize x) as [[t|e]|]; [|reflexivity|reflexivity].
    apply IH. replace (S i + List.length l)%nat with (i + S (List.length l))%nat
      by lia. exact Hi.
  - now rewrite (getType_beyond x Htype).
Qed.

(** *** The wrappers that serialise a list of emails *)

(** X21. The four legacy wrappers that serialise their emails send a list
    of strings of the model (code units below 256, hence no surrogate) as
    the text that [serialize] gives for it, which reads back as that list.  The two SMTP wrappers send an empty
    list as well; [addEmails] and [removeEmails] refuse it before anything
    is sent. *)
Theorem legacy_email_list_is_sent_serialized :
  forall (l : list string) (m : Legacy.Machine),
    exists t,
      serialize (JArr (map JStr l)) = Some (Ok t) /\
      unserialize_strings t = Some l /\
      LegacyMail.smtpUnsubscribeEmails (JArr (map JStr l)) m =
        Some (Legacy.sendRequest "smtp/unsubscribe" (JStr "POST")
                (JObj [("emails", JStr t)]) true m) /\
      LegacyMail.smtpRemoveFromUnsubscribe (JArr (map JStr l)) m =
        Some (Legacy.sendRequest "smtp/unsubscribe" (JStr "DELETE")
                (JObj [("emails", JStr t)]) true m) /\
      (forall id : JSVal,
          is_undefined id = false ->
          let p := ("addressbooks/" ++ ToString id ++ "/emails")%string in
          match l with
          | [] =>
              LegacyMail.addEmails id (JArr (map JStr l)) m =
                Some (Throw (Error "Empty email or book id"), m) /\
              LegacyMail.removeEmails id (JArr (map JStr l)) m =
                Some (Throw (Error "Empty email or book id"), m)
          | _ :: _ =>
              LegacyMail.addEmails id (JArr (map JStr l)) m =
                Some (Legacy.sendRequest p (JStr "POST")
                        (JObj [("emails", JStr t)]) true m) /\
              LegacyMail.removeEmails id (JArr (map JStr l)) m =
                Some (Legacy.sendRequest p (JStr "DELETE")
                        (JObj [("emails", JStr t)]) true m)
          end).
Proof.
  intros l m. eexists.
  split; [apply serialize_list_of_strings|].
  split; [apply list_text_reads_back|].
  unfold LegacyMail.smtpUnsubscribeEmails, LegacyMail.smtpRemoveFromUnsubscribe,
    LegacyMail.addEmails, LegacyMail.removeEmails, LegacyMail.send_serialized,
    LegacyMail.no_id_or_emails.
  rewrite serialize_list_of_strings. cbn [is_undefined].
  split; [reflexivity|]. split; [reflexivity|].
  intros id Hid. rewrite Hid.
  unfold Legacy.undefined_or_empty, Legacy.has_length, bind, lift, ret.
  cbn [is_undefined js_length].
  destruct l as [|x l]; [split; reflexivity|].
  cbn [map List.length truthy].
  replace (negb (Z.of_nat (S (List.length (map JStr l))) =? 0)) with true
    by (symmetry; apply negb_true_iff, Z.eqb_neq; lia).
  split; reflexivity.
Qed.

End MoreProperties.

(** ** The further properties on concrete runs *)

Import Serialize.

Lemma endpoint_call_is_bounded_witness :
  let new :=
    added (trace scenario_ready)
      (trace (snd (call (RT := answering T1_3600) ep_listAddressBooks []
                     scenario_ready))) in
  fetches new = 0%nat /\ (requests new <= 1)%nat.
Proof.
  destruct (endpoint_call_is_bounded (RT := answering T1_3600)
              ep_listAddressBooks [] scenario_ready)
    as (_ & _ & _ & _ & H).
  exact (H eq_refl).
Defined.

Lemma fetch_exactly_when_stale_witness :
  sendRequest (RT := answering T1_3600) "addressbooks" (JStr "GET") JUndefined
    true scenario =
  (Throw TypeError, scenario).
Proof.
  destruct (fetch_exactly_when_stale (RT := answering T1_3600)
              "addressbooks" (JStr "GET") JUndefined scenario) as [_ H].
  exact (H eq_refl).
Defined.

Lemma configuration_is_readonly_witness :
  token (this (snd (sendRequest (RT := answering T1_3600)
                      "addressbooks" (JStr "GET") (JObj []) true
                      scenario_ready))) =
  token (this scenario_ready).
Proof.
  destruct (proj1 (proj2 (configuration_is_readonly (RT := answering T1_3600)))
              "addressbooks" (JStr "GET") (JObj []) true scenario_ready)
    as [_ H].
  exact (H eq_refl).
Defined.

Lemma short_lived_token_is_stale_at_once_witness :
  exists m' tok,
    getToken (RT := answering T1_short) scenario = (Ok tt, m') /\
    token (this m') = Some tok /\
    token_stale (Some tok) (clock m' + 0) = true.
Proof.
  destruct (short_lived_token_is_stale_at_once (RT := answering T1_short)
              scenario "https://api.sendpulse.com/oauth/access_token"
              5 30 T1_short eq_refl eq_refl eq_refl)
    as (m' & tok & Hg & Ht & Hstale & _).
  - lia.
  - exists m', tok. split; [exact Hg|]. split; [exact Ht|].
    apply Hstale. lia.
Defined.

Lemma single_string_is_sent_as_a_list_witness :
  (exists p mt d,
      (forall m,
          call (RT := answering T1_3600) ep_addToBlackList [JStr "a@b.c"] m =
          sendRequest (RT := answering T1_3600) p mt (JObj d) true m) /\
      obj_get d "emails" = JSON_stringify (JArr [JStr "a@b.c"]) /\
      JSON_parse_strings (obj_get d "emails") = Some ["a@b.c"]) /\
  (exists p mt d,
      (forall m,
          call (RT := answering T1_3600) ep_addToBlackList [JArr []] m =
          sendRequest (RT := answering T1_3600) p mt (JObj d) true m) /\
      obj_has d "emails" = false).
Proof.
  split.
  - exact (proj1 (single_string_is_sent_as_a_list (RT := answering T1_3600)
                    ep_addToBlackList "emails" [JStr "a@b.c"] eq_refl)
             "a@b.c" eq_refl).
  - exact (proj2 (single_string_is_sent_as_a_list (RT := answering T1_3600)
                    ep_addToBlackList "emails" [JArr []] eq_refl)
             eq_refl eq_refl eq_refl).
Defined.

Lemma optional_filters_are_left_out_witness :
  call (RT := answering T1_3600) ep_smtpListEmails
    [JNum (Fin 10); JUndefined; JStr "2024-01-01"] scenario =
  sendRequest (RT := answering T1_3600) "smtp/emails" (JStr "GET")
    (JObj [("limit", JNum (Fin 10)); ("from", JStr "2024-01-01")]) true
    scenario.
Proof.
  exact (optional_filters_are_left_out (RT := answering T1_3600)
           ep_smtpListEmails "smtp/emails" ["limit"; "offset"; "from"; "to"]
           [JNum (Fin 10); JUndefined; JStr "2024-01-01"] scenario eq_refl).
Defined.

Lemma empty_phones_are_refused_witness :
  call (RT := answering T1_3600) ep_smsAddCampaign
    [JStr "sender"; JStr "17"; JStr "hello"; JArr []] scenario =
  (Throw (Error "Empty book id or phones"), scenario).
Proof.
  exact (empty_phones_are_refused (RT := answering T1_3600)
           ep_smsAddCampaign [JStr "sender"; JStr "17"; JStr "hello"; JArr []]
           scenario eq_refl eq_refl eq_refl eq_refl eq_refl eq_refl).
Defined.

Lemma serializeArray_of_flat_object_witness :
  serializeArray (JObj [("name", JStr "n"); ("age", JNum (Fin 7))]) (Some "to") =
  [("to[name]", JStr "n"); ("to[age]", JNum (Fin 7))].
Proof.
  apply (serializeArray_of_flat_object
           [("name", JStr "n"); ("age", JNum (Fin 7))] "to").
  - simpl. constructor.
    + simpl. intros [H|[]]. discriminate H.
    + constructor; [simpl; intros []|constructor].
  - simpl. constructor; [reflexivity|]. constructor; [reflexivity|constructor].
Defined.

Lemma smtpSendMail_payload_is_flat_witness :
  exists d,
    smtpSendMail (RT := answering T1_3600)
      (JObj [("subject", JStr "s"); ("text", JStr "hi")]) scenario =
    sendRequest (RT := answering T1_3600) "smtp/emails" (JStr "POST") (JObj d)
      true scenario /\
    obj_has d "subject" = false.
Proof.
  destruct (smtpSendMail_payload_is_flat (RT := answering T1_3600)
              (JObj [("subject", JStr "s"); ("text", JStr "hi")]) scenario
              eq_refl)
    as (d & Hcall & _ & _ & _ & Hsubject).
  exists d. split; [exact Hcall|exact Hsubject].
Defined.

Lemma legacy_authorization_follows_TOKEN_witness :
  exists r,
    Legacy.trace
      (snd (Legacy.sendRequest (RT := answering T1_3600)
              "balance" (JStr "GET") (JObj []) true
              (legacy_holding (JStr "T1")))) =
    [EvRequest r] /\
    obj_get (headers r) "Authorization" = JStr "Bearer T1".
Proof.
  pose proof (legacy_authorization_follows_TOKEN (RT := answering T1_3600)
                "balance" (JStr "GET") [] (legacy_holding (JStr "T1"))) as H.
  hnf in H. destruct H as (r & Htrace & _ & _ & _ & Hbearer).
  exists r. split; [exact Htrace|exact (Hbearer eq_refl)].
Defined.

Lemma legacy_getToken_stores_and_caches_witness :
  exists m',
    Legacy.getToken (RT := answering (JObj [])) (Legacy.loaded 0) = (Ok tt, m') /\
    Legacy.TOKEN m' = JUndefined /\
    Legacy.sendRequest (RT := answering (JObj []))
      "balance" (JStr "GET") (JObj []) true m' =
    (Throw TypeError, m').
Proof.
  destruct (legacy_getToken_stores_and_caches (RT := answering (JObj []))
              (Legacy.loaded 0) 5 (JObj []) JUndefined eq_refl eq_refl)
    as (m' & Hg & Ht & _ & _ & _ & _ & Hbroken).
  exists m'. split; [exact Hg|]. split; [exact Ht|].
  apply (proj1 (Hbroken (or_introl eq_refl))).
Defined.

Lemma legacy_init_keeps_a_held_token_witness :
  Legacy.init (RT := answering T1_3600) (JStr "abc") (JStr "xyz")
    (legacy_holding (JStr "T1")) =
  (Ok tt,
   legacy_configured (legacy_holding (JStr "T1")) (JStr "abc") (JStr "xyz")
     (JStr "T1")).
Proof.
  exact (proj1 (legacy_init_keeps_a_held_token (RT := answering T1_3600)
                  (JStr "abc") (JStr "xyz") (legacy_holding (JStr "T1"))
                  (JNum (Fin 2)) eq_refl)
           eq_refl).
Defined.

Lemma utf8Size_counts_bytes_witness :
  _utf8Size [104; 233; 8364]%N = 6.
Proof.
  apply (proj1 utf8Size_counts_bytes [104; 233; 8364]%N).
  constructor; [reflexivity|]. constructor; [reflexivity|].
  constructor; [reflexivity|constructor].
Defined.

Lemma utf8Size_resets_on_malformed_witness :
  _utf8Size [104; 56320; 105]%N = _utf8Size [105]%N.
Proof.
  destruct (utf8Size_resets_on_malformed [104]%N [105]%N) as (H & _ & _).
  - constructor; [reflexivity|constructor].
  - apply (H 56320%N). lia.
Defined.

Lemma serialize_array_as_indexed_object_witness :
  serialize (JObj [("0", JStr "a"); ("1", JNum (Fin 7))]) =
  serialize (JArr [JStr "a"; JNum (Fin 7)]).
Proof.
  apply (serialize_array_as_indexed_object [JStr "a"; JNum (Fin 7)]).
  simpl. lia.
Defined.

Lemma legacy_email_list_is_sent_serialized_witness :
  exists t,
    unserialize_strings t = Some ["a@b.c"; "d@e.f"] /\
    LegacyMail.addEmails (RT := answering T1_3600) (JStr "17")
      (JArr [JStr "a@b.c"; JStr "d@e.f"]) (legacy_holding (JStr "T1")) =
    Some (Legacy.sendRequest (RT := answering T1_3600)
            "addressbooks/17/emails" (JStr "POST")
            (JObj [("emails", JStr t)]) true (legacy_holding (JStr "T1"))).
Proof.
  destruct (legacy_email_list_is_sent_serialized (RT := answering T1_3600)
              ["a@b.c"; "d@e.f"] (legacy_holding (JStr "T1")))
    as (t & _ & Hread & _ & _ & Hbook).
  exists t. split; [exact Hread|].
  exact (proj1 (Hbook (JStr "17") eq_refl)).
Defined.
